(** * Keyed vocabulary partitioning, bias injection and sequential detection

    A shallow embedding of [watermark_processor.py]: the classes
    [WatermarkBase], [WatermarkLogitsProcessor_with_preferance] and
    [WatermarkDetector_with_preferance].

    Conventions of the embedding.
    - A 1-d [LongTensor] is a [list Z]; a batch is a [list (list Z)].
      Products of tensor elements wrap at 64 bits.
    - Python [float] is IEEE binary64, i.e. Rocq's primitive [float];
      Python [int] is [Z].
    - Code that can raise returns a [result]; methods that touch the
      generator [self.rng] or the step counter [self.idx_t] live in the
      state-and-exception monad [M].  A raised exception ends the run; the
      state it leaves behind is not tracked.
    - The user key is a binary string; it is a [list bool] here, ['1'] being
      [true] and ['0'] being [false].  The mark string is built from the same
      two characters and is a [list bool] as well.
    - [args] is a namespace with the attributes [gen_mode] and [depth]; a
      depth that was not supplied is [None].
    - torch's generator, [scipy.stats.norm.sf], libm's [pow], the score
      dtype, the tokenizer, the normalizers and the cross-entropy diagnostic
      are collaborators outside the file: they are variables of the section
      [Watermark] or fields of the detector record.
    - The detector is embedded for [ignore_repeated_bigrams = False], the
      standard scoring path; the [print] of [detect] is left out. *)

From Stdlib Require Import ZArith Floats Lia String.
From stdpp Require Import base list list_numbers.

Open Scope Z_scope.

(** ** Exceptions and fallible results *)

Inductive exn : Set :=
| AssertionError | IndexError | ValueError | TypeError | KeyError
| ZeroDivisionError | OverflowError | RuntimeError | AttributeError
| UnboundLocalError | NotImplementedError.

Inductive result (A : Type) : Type :=
| Ok (a : A)
| Raise (e : exn).
Arguments Ok {A} a.
Arguments Raise {A} e.

Definition rbind {A B} (m : result A) (k : A -> result B) : result B :=
  match m with
  | Ok a => k a
  | Raise e => Raise e
  end.

Notation "'let*' x ':=' m 'in' k" := (rbind m (fun x => k))
  (at level 10, x pattern, m at level 100, k at level 200).

Definition py_assert (b : bool) : result unit :=
  if b then Ok tt else Raise AssertionError.

Fixpoint rmapM {A B} (f : A -> result B) (l : list A) : result (list B) :=
  match l with
  | [] => Ok []
  | x :: l' => let* y := f x in let* ys := rmapM f l' in Ok (y :: ys)
  end.

(** ** Python and torch sequence primitives *)

Definition len {A} (l : list A) : Z := Z.of_nat (length l).

(** Position an index [i] denotes in a sequence of length [n]: negative
    indices count from the end. *)
Definition norm_index (n i : Z) : result nat :=
  let j := if i <? 0 then i + n else i in
  if (0 <=? j) && (j <? n) then Ok (Z.to_nat j) else Raise IndexError.

(** [l[i]] for an integer [i]. *)
Definition py_index {A} (l : list A) (i : Z) : result A :=
  let* j := norm_index (len l) i in
  match l !! j with
  | Some x => Ok x
  | None => Raise IndexError
  end.

(** Bound of a slice: negative bounds count from the end, then clamp. *)
Definition slice_bound (n i : Z) : Z :=
  if i <? 0 then Z.max 0 (i + n) else Z.min i n.

(** [l[lo:hi]]; [None] is an omitted bound. *)
Definition py_slice {A} (lo hi : option Z) (l : list A) : list A :=
  let n := len l in
  let a := slice_bound n (default 0 lo) in
  let b := slice_bound n (default n hi) in
  take (Z.to_nat (b - a)) (drop (Z.to_nat a) l).

(** [t[idx]] with a tensor of indices. *)
Definition index_select (t : list Z) (idx : list Z) : result (list Z) :=
  rmapM (py_index t) idx.

(** [x in t] for a tensor [t]. *)
Definition tensor_contains (x : Z) (t : list Z) : bool :=
  existsb (Z.eqb x) t.

(** [range(n)] *)
Definition py_range (n : Z) : list Z := seqZ 0 n.

(** [a // b] on Python integers. *)
Definition py_floordiv (a b : Z) : result Z :=
  if b =? 0 then Raise ZeroDivisionError else Ok (a / b).

(** int64 wrap-around of torch integer arithmetic. *)
Definition wrap64 (x : Z) : Z := (x + 2 ^ 63) mod 2 ^ 64 - 2 ^ 63.

(** [a % n] for a 0-d int64 tensor [a] and a Python integer [n]; torch
    reports a zero divisor as a [RuntimeError]. *)
Definition tensor_mod (a n : Z) : result Z :=
  if n =? 0 then Raise RuntimeError else Ok (a mod n).

(** ** Python floats *)

(** [float(z)]: round to nearest even; too large an integer overflows. *)
Definition float_of_int (z : Z) : result float :=
  let f := SF2Prim (binary_normalize prec emax z 0 false) in
  if is_infinity f then Raise OverflowError else Ok f.

(** [int(f)]: truncation towards zero. *)
Definition py_int (f : float) : result Z :=
  match Prim2SF f with
  | S754_zero _ => Ok 0
  | S754_finite s m e =>
      let a := match e with
               | Z0 => Zpos m
               | Zpos p => Zpos m * 2 ^ Zpos p
               | Zneg p => Zpos m / 2 ^ Zpos p
               end in
      Ok (if s then - a else a)
  | S754_infinity _ => Raise OverflowError
  | S754_nan => Raise ValueError
  end.

(** [a * f], [a - f] with an integer on the left of a float. *)
Definition int_mul_float (a : Z) (f : float) : result float :=
  let* x := float_of_int a in Ok (x * f)%float.
Definition int_sub_float (a : Z) (f : float) : result float :=
  let* x := float_of_int a in Ok (x - f)%float.

(** [a / b] on two integers (true division). *)
Definition int_truediv (a b : Z) : result float :=
  if b =? 0 then Raise ZeroDivisionError
  else let* x := float_of_int a in let* y := float_of_int b in Ok (x / y)%float.

(** [x / y] on floats raises on a zero divisor. *)
Definition float_div (x y : float) : result float :=
  if is_zero y then Raise ZeroDivisionError else Ok (x / y)%float.

(** [math.sqrt] *)
Definition math_sqrt (x : float) : result float :=
  if (x <? 0)%float then Raise ValueError else Ok (PrimFloat.sqrt x).

(** [0.5 ** i] for [i >= 0]: a power of two, computed without rounding
    until it underflows. *)
Fixpoint pow_half (i : nat) : float :=
  match i with
  | O => 1%float
  | S j => (pow_half j * 0.5)%float
  end.

(** Truth value of a float: zero is falsy. *)
Definition float_truthy (x : float) : bool := negb (is_zero x).

(** ** Bit strings *)

(** [int(userid, 2)] on a binary string. *)
Definition bits_value (bs : list bool) : Z :=
  fold_left (fun acc (b : bool) => 2 * acc + (if b then 1 else 0)) bs 0.
Definition int_base2 (bs : list bool) : result Z :=
  match bs with
  | [] => Raise ValueError
  | _ => Ok (bits_value bs)
  end.

(** ** Configuration *)

Inductive wm_mode_t : Set := previous1 | combination | wm_mode_other.
Inductive seeding_scheme_t : Set := simple_1 | seeding_scheme_other.
(** [normal] stands for every value of [gen_mode] that is none of the three
    others: the code sends those to its [else] branches. *)
Inductive gen_mode_t : Set := normal | depth_d | beam_delta | dynamic_delta.

#[global] Instance wm_mode_eq_dec : EqDecision wm_mode_t.
Proof. solve_decision. Defined.
#[global] Instance seeding_scheme_eq_dec : EqDecision seeding_scheme_t.
Proof. solve_decision. Defined.
#[global] Instance gen_mode_eq_dec : EqDecision gen_mode_t.
Proof. solve_decision. Defined.

(** The [args] namespace; [depth = None] is a depth that was not supplied. *)
Record args_t : Type := {
  gen_mode : gen_mode_t;
  depth : option Z;
}.

(** The attributes [WatermarkBase.__init__] stores and never changes. *)
Record config : Type := {
  vocab : list Z;
  gamma : float;
  decrease_delta : bool;
  delta : float;
  wm_mode : wm_mode_t;
  seeding_scheme : seeding_scheme_t;
  hash_key : Z;
  userid : list bool;
  args : args_t;
}.

Definition vocab_size (c : config) : Z := len (vocab c).

(** The instance with another value for [args.depth]. *)
Definition with_depth (self : config) (d : option Z) : config :=
  {| vocab := vocab self; gamma := gamma self;
     decrease_delta := decrease_delta self; delta := delta self;
     wm_mode := wm_mode self; seeding_scheme := seeding_scheme self;
     hash_key := hash_key self; userid := userid self;
     args := {| gen_mode := gen_mode (args self); depth := d |} |}.

(** The instance with another value for [delta]. *)
Definition with_delta (self : config) (d : float) : config :=
  {| vocab := vocab self; gamma := gamma self;
     decrease_delta := decrease_delta self; delta := d;
     wm_mode := wm_mode self; seeding_scheme := seeding_scheme self;
     hash_key := hash_key self; userid := userid self; args := args self |}.

(** The instance with another value for [decrease_delta]. *)
Definition with_decrease_delta (self : config) (b : bool) : config :=
  {| vocab := vocab self; gamma := gamma self;
     decrease_delta := b; delta := delta self;
     wm_mode := wm_mode self; seeding_scheme := seeding_scheme self;
     hash_key := hash_key self; userid := userid self; args := args self |}.

(** Number of ['True'] entries of a hit mask. *)
Definition count_true (l : list bool) : Z :=
  fold_right (fun (b : bool) n => (if b then 1 else 0) + n) 0 l.

(** The value of [delta] once the loop of [_bias_depth_d_logits] has
    reassigned it for the chunks [i] to [i + k]:
    [delta * 0.5**i * ... * 0.5**(i+k)]. *)
Fixpoint compounded_delta (delta : float) (i k : nat) : float :=
  match k with
  | O => (delta * pow_half i)%float
  | S k' => compounded_delta (delta * pow_half i)%float (S i) k'
  end.

(** [t.sum()] of an integer tensor. *)
Definition tensor_sum (t : list Z) : Z := fold_right Z.add 0 t.

(** The default [z_threshold] of the detector's [__init__]. *)
Definition default_z_threshold : float := 4%float.

(** The default user id of [WatermarkBase.__init__], ["10000100"]. *)
Definition default_userid : list bool :=
  [true; false; false; false; false; true; false; false].

(** A configuration over the vocabulary [0, V), with the defaults of
    [WatermarkBase.__init__] for delta, the seeding scheme, the hash key and
    the user id. *)
Definition mk_config (V : Z) (gamma : float) (decrease_delta : bool)
  (wm_mode : wm_mode_t) (gen_mode : gen_mode_t) (depth : option Z) : config :=
  {| vocab := seqZ 0 V; gamma := gamma; decrease_delta := decrease_delta;
     delta := 2; wm_mode := wm_mode; seeding_scheme := simple_1;
     hash_key := 15485863; userid := default_userid;
     args := {| gen_mode := gen_mode; depth := depth |} |}.

(** A generator of a toy linear-congruential kind, used to run the
  embedding on concrete inputs. *)
Module LcgRng.

Definition G : Type := Z.

Definition manual_seed (seed : Z) : G := seed mod 2 ^ 64.

Definition next (g : G) : G :=
  (6364136223846793005 * g + 1442695040888963407) mod 2 ^ 64.

(** Draw without replacement from [pool], [fuel] times. *)
Fixpoint draw (fuel : nat) (pool : list Z) (g : G) : list Z * G :=
  match fuel with
  | O => ([], g)
  | S fuel' =>
      let k := Z.to_nat ((g / 2 ^ 33) mod len pool) in
      match pool !! k with
      | Some x =>
          let '(rest, g') := draw fuel' (delete k pool) (next g) in
          (x :: rest, g')
      | None => ([], g)
      end
  end.

Definition randperm (n : nat) (g : G) : list Z * G :=
  draw n (Z.of_nat <$> seq 0 n) g.

Definition new_generator : G := 67280421310721.

End LcgRng.

(** ** The watermark classes *)

Section Watermark.

(** *** Collaborators outside the repository *)

(** State of a [torch.Generator]. *)
Variable G : Type.
(** State of a generator right after [manual_seed(seed)], for a seed in the
    range torch accepts. *)
Variable manual_seed : Z -> G.
(** [torch.randperm(n, generator=g)]: the permutation drawn and the state
    the generator is left in. *)
Variable randperm : nat -> G -> list Z * G.
(** State of a freshly built [torch.Generator(device=...)]. *)
Variable new_generator : G.

(** torch's contract: [randperm n] is a permutation of [0, n). *)
Hypothesis randperm_perm :
  forall n g, (randperm n g).1 ≡ₚ Z.of_nat <$> seq 0 n.

(** Element type of the score tensor and its addition of a Python float. *)
Variable score : Type.
Variable score_add : score -> float -> score.

(** [x ** y] on floats (libm). *)
Variable float_pow : float -> float -> float.
(** [math.e] *)
Definition math_e : float := 0x1.5bf0a8b145769p+1%float.

(** [scipy.stats.norm.sf] *)
Variable norm_sf : float -> float.

(** The depth diagnostic of [_score_sequence] (torch's cross entropy of
    the normalised depth histogram against a fixed reference): from
    [depth_hit], [green_token_count] and [sim_score] to [total_loss]. *)
Variable depth_cross_entropy : list Z -> Z -> float -> result float.

(** *** Mutable state and its monad *)

Record wm_state : Type := {
  rng : option G;
  idx_t : Z;
}.

Definition M (A : Type) : Type := wm_state -> result (A * wm_state).

Definition ret {A} (a : A) : M A := fun s => Ok (a, s).
Definition bind {A B} (m : M A) (k : A -> M B) : M B :=
  fun s => match m s with
           | Ok (a, s') => k a s'
           | Raise e => Raise e
           end.
Definition lift {A} (r : result A) : M A :=
  fun s => match r with Ok a => Ok (a, s) | Raise e => Raise e end.
Definition raise {A} (e : exn) : M A := fun _ => Raise e.

(** What a run returns or raises, the final state forgotten. *)
Definition value {A} (r : result (A * wm_state)) : result A :=
  match r with
  | Ok (a, _) => Ok a
  | Raise e => Raise e
  end.

Notation "x <- m ;; k" := (bind m (fun x => k))
  (at level 100, m at next level, right associativity).
Notation "m ;; k" := (bind m (fun _ => k))
  (at level 100, right associativity).

(** [self.rng.manual_seed(seed)]: needs a generator, and a seed within
    [-0x8000_0000_0000_0000, 0xffff_ffff_ffff_ffff]. *)
Definition rng_manual_seed (seed : Z) : M unit :=
  fun s =>
    match rng s with
    | None => Raise AttributeError
    | Some _ =>
        if (- 2 ^ 63 <=? seed) && (seed <=? 2 ^ 64 - 1) then
          Ok (tt, {| rng := Some (manual_seed seed); idx_t := idx_t s |})
        else Raise RuntimeError
    end.

(** [torch.randperm(n, generator=self.rng)] *)
Definition torch_randperm (n : Z) : M (list Z) :=
  fun s =>
    match rng s with
    | None => Raise AttributeError
    | Some g =>
        if n <? 0 then Raise RuntimeError
        else
          let '(p, g') := randperm (Z.to_nat n) g in
          Ok (p, {| rng := Some g'; idx_t := idx_t s |})
    end.

(** *** WatermarkBase *)

Section Instance.

(** The instance the methods are called on. *)
Variable self : config.

Definition _seed_rng (input_ids : list Z) : M unit :=
  match seeding_scheme self with
  | simple_1 =>
      lift (py_assert (1 <=? len input_ids)) ;;
      prev_token <- lift (py_index input_ids (-1)) ;;
      rng_manual_seed (hash_key self * prev_token)
  | seeding_scheme_other => raise NotImplementedError
  end.

Definition _seed_depth_rng : M unit :=
  fun s =>
    match rng s with
    | None => Raise AttributeError
    | Some _ => (uid <- lift (int_base2 (userid self)) ;;
                 rng_manual_seed (hash_key self * uid)) s
    end.

(** The chunk loop of [_get_greenlist_ids]: chunk [i] of [ids] for a chunk
    length [l], the last chunk running to the end. *)
Definition d_mask (ids : list Z) (discrete_depth l i : Z) : list Z :=
  if i =? discrete_depth - 1 then py_slice (Some (i * l)) None ids
  else py_slice (Some (i * l)) (Some ((i + 1) * l)) ids.

Definition d_masks_of (ids : list Z) (discrete_depth l : Z) : list (list Z) :=
  (d_mask ids discrete_depth l) <$> py_range discrete_depth.

Definition _get_greenlist_ids (input_ids : list Z)
  : M (list Z * list Z * list (list Z) * list (list Z)) :=
  _seed_rng input_ids ;;
  x <- lift (int_mul_float (vocab_size self) (gamma self)) ;;
  greenlist_size <- lift (py_int x) ;;
  vocab_permutation <- torch_randperm (vocab_size self) ;;
  let greenlist_ids := py_slice None (Some greenlist_size) vocab_permutation in
  let redlist_ids := py_slice (Some greenlist_size) None vocab_permutation in
  _seed_depth_rng ;;
  depth_permutation <- torch_randperm (len greenlist_ids) ;;
  depth_green_ids <- lift (index_select greenlist_ids depth_permutation) ;;
  depth_red_ids <-
    (if bool_decide (len redlist_ids ≠ len greenlist_ids) then
       r <- lift (index_select (py_slice None (Some (-1)) redlist_ids)
                               depth_permutation) ;;
       tail <- lift (py_index redlist_ids (-1)) ;;
       ret (r ++ [tail])
     else lift (index_select redlist_ids depth_permutation)) ;;
  match gen_mode (args self) with
  | depth_d =>
      match depth (args self) with
      | None => raise TypeError
      | Some discrete_depth =>
          g_discrete_length <- lift (py_floordiv greenlist_size discrete_depth) ;;
          r_discrete_length <- lift (py_floordiv greenlist_size discrete_depth) ;;
          ret (greenlist_ids, redlist_ids,
               d_masks_of depth_green_ids discrete_depth g_discrete_length,
               d_masks_of depth_red_ids discrete_depth r_discrete_length)
      end
  | _ => ret (greenlist_ids, redlist_ids, [], [])
  end.


(** *** WatermarkLogitsProcessor_with_preferance *)

(** [row[ids] = row[ids] + d] for a tensor of indices [ids]: the right-hand
    side is gathered first, then scattered. *)
Definition row_add_at (row : list score) (ids : list Z) (d : float)
  : result (list score) :=
  let* vals := rmapM (py_index row) ids in
  let* js := rmapM (norm_index (len row)) ids in
  Ok (fold_left (fun r '(j, v) => <[j := score_add v d]> r) (zip js vals) row).

(** [scores[j][ids] = scores[j][ids] + d] *)
Definition scores_add_at (scores : list (list score)) (j : Z) (ids : list Z)
  (d : float) : result (list (list score)) :=
  let* k := norm_index (len scores) j in
  let* row := py_index scores j in
  let* row' := row_add_at row ids d in
  Ok (<[k := row']> scores).

(** Inner loop of [_bias_depth_d_logits], over the batch rows [js]. *)
Fixpoint bias_rows (scores : list (list score)) (ids : list Z) (d : float)
  (js : list Z) : result (list (list score)) :=
  match js with
  | [] => Ok scores
  | j :: js' =>
      let* scores' := scores_add_at scores j ids d in
      bias_rows scores' ids d js'
  end.

(** Outer loop of [_bias_depth_d_logits]: [delta] is reassigned at every
    chunk index [i]. *)
Fixpoint bias_chunks (scores : list (list score)) (batch : Z)
  (d_masks : list (list Z)) (i : nat) (delta : float)
  : result (list (list score)) :=
  match d_masks with
  | [] => Ok scores
  | ids :: rest =>
      let delta := (delta * pow_half i)%float in
      let* scores' := bias_rows scores ids delta (py_range batch) in
      bias_chunks scores' batch rest (S i) delta
  end.

Definition _bias_depth_d_logits (scores : list (list score))
  (greenlist_token_ids : list (list Z)) (d_masks : list (list Z))
  (delta : float) : result (list (list score)) :=
  bias_chunks scores (len greenlist_token_ids) d_masks 0 delta.

(** [row[ids] = 1] on a row of the mask. *)
Definition mask_set (row : list bool) (ids : list Z) : result (list bool) :=
  let* js := rmapM (norm_index (len row)) ids in
  Ok (fold_left (fun r j => <[j := true]> r) js row).

Fixpoint mask_rows (mask : list (list bool)) (b_idx : Z)
  (greenlist_token_ids : list (list Z)) : result (list (list bool)) :=
  match greenlist_token_ids with
  | [] => Ok mask
  | ids :: rest =>
      let* k := norm_index (len mask) b_idx in
      let* row := py_index mask b_idx in
      let* row' := mask_set row ids in
      mask_rows (<[k := row']> mask) (b_idx + 1) rest
  end.

Definition _calc_greenlist_mask (scores : list (list score))
  (greenlist_token_ids : list (list Z)) : result (list (list bool)) :=
  let green_tokens_mask := (fun row : list score => (fun _ => false) <$> row) <$> scores in
  mask_rows green_tokens_mask 0 greenlist_token_ids.

(** [scores[mask] = scores[mask] + bias] for a boolean mask of the shape of
    [scores]. *)
Definition masked_add (scores : list (list score)) (mask : list (list bool))
  (bias : float) : list (list score) :=
  zip_with (zip_with (fun x (m : bool) => if m then score_add x bias else x))
           scores mask.

(** [4.84*(math.e)**(-1*0.001*self.idx_t)]; the literals are [4.84] and
    [-0.001] as binary64. *)
Definition decayed_bias (t : Z) : result float :=
  let* x := float_of_int t in
  Ok (0x1.35c28f5c28f5cp+2
      * float_pow math_e (-0x1.0624dd2f1a9fcp-10 * x))%float.

Definition _bias_greenlist_logits (scores : list (list score))
  (greenlist_mask : list (list bool)) (greenlist_bias : float)
  (decrease_delta : bool) : M (list (list score)) :=
  fun s =>
    let* greenlist_bias :=
      (if decrease_delta then decayed_bias (idx_t s) else Ok greenlist_bias) in
    Ok (masked_add scores greenlist_mask greenlist_bias, s).

(** [self.userid[k]] for an index [k] that [% n] left within [0, n). *)
Definition userid_at (k : Z) : result bool := py_index (userid self) k.

(** The preference bit of [__call__]: it reads the last row of the batch. *)
Definition call_preferance (input_ids : list (list Z)) : result bool :=
  let n := len (userid self) in
  match wm_mode self with
  | previous1 =>
      let* row := py_index input_ids (-1) in
      let* t1 := py_index row (-1) in
      let* k := tensor_mod t1 n in
      userid_at k
  | _ =>
      let* row := py_index input_ids (-1) in
      let* t1 := py_index row (-1) in
      let* row' := py_index input_ids (-1) in
      let* t2 := py_index row' (-2) in
      let* k := tensor_mod (wrap64 (t1 * t2)) n in
      userid_at k
  end.

(** The batch loop of [__call__]: the ids to bias for every row, and the
    [d_masks] the last iteration left behind. *)
Fixpoint batch_loop (preferance : bool) (rows : list (list Z))
  (d_masks : option (list (list Z)))
  : M (list (list Z) * option (list (list Z))) :=
  match rows with
  | [] => ret ([], d_masks)
  | row :: rest =>
      r <- _get_greenlist_ids row ;;
      let '(green, red, green_d, red_d) := r in
      let greenlist_ids := if preferance then green else red in
      let d_masks := if preferance then green_d else red_d in
      r' <- batch_loop preferance rest (Some d_masks) ;;
      ret (greenlist_ids :: r'.1, r'.2)
  end.

Definition incr_idx_t : M unit :=
  fun s => Ok (tt, {| rng := rng s; idx_t := idx_t s + 1 |}).

Definition ensure_rng : M unit :=
  fun s => Ok (tt, {| rng := Some (default new_generator (rng s));
                      idx_t := idx_t s |}).

Definition __call__ (input_ids : list (list Z)) (scores : list (list score))
  : M (list (list score)) :=
  preferance <- lift (call_preferance input_ids) ;;
  incr_idx_t ;;
  ensure_rng ;;
  r <- batch_loop preferance input_ids None ;;
  let '(batched_greenlist_ids, d_masks) := r in
  match gen_mode (args self) with
  | depth_d =>
      match d_masks with
      | None => raise UnboundLocalError
      | Some d_masks =>
          lift (_bias_depth_d_logits scores batched_greenlist_ids d_masks
                                     (delta self))
      end
  | beam_delta =>
      (* [_calculate_beam_delta] is called with one argument too many *)
      green_tokens_mask <- lift (_calc_greenlist_mask scores batched_greenlist_ids) ;;
      raise TypeError
  | dynamic_delta =>
      (* [_beam_search_predict] reads [self.window_length], never set *)
      raise AttributeError
  | normal =>
      green_tokens_mask <- lift (_calc_greenlist_mask scores batched_greenlist_ids) ;;
      _bias_greenlist_logits scores green_tokens_mask (delta self)
                             (decrease_delta self)
  end.


(** *** WatermarkDetector_with_preferance *)

(** The tokenizer, a collaborator: its call on the (possibly absent) text
    and its [bos_token_id]. *)
Record tokenizer_t : Type := {
  tokenize : option string -> result (list Z);
  bos_token_id : option Z;
}.

(** The attributes the detector adds to those of [WatermarkBase]. *)
Record detector_t : Type := {
  tokenizer : option tokenizer_t;
  z_threshold : option float;
  normalizers : list (option string -> result (option string));
  min_prefix_len : Z;
}.

(** [__init__] of the detector, after [WatermarkBase.__init__]: [device] and
    [tokenizer] must be given, and the prefix length follows the modes. *)
Definition detector_init (device : bool) (tok : option tokenizer_t)
  (z_thr : option float)
  (norms : list (option string -> result (option string)))
  : result detector_t :=
  let* _ := py_assert device in
  let* _ := py_assert (bool_decide (is_Some tok)) in
  let* mpl :=
    (if bool_decide (seeding_scheme self = simple_1)
        && bool_decide (wm_mode self = previous1) then Ok 1
     else if bool_decide (wm_mode self = combination) then Ok 2
     else Raise NotImplementedError) in
  Ok {| tokenizer := tok; z_threshold := z_thr; normalizers := norms;
        min_prefix_len := mpl |}.

Variable det : detector_t.

Definition _compute_z_score (observed_count T : Z) : result float :=
  let expected_count := gamma self in
  let* et := float_of_int T in
  let* numer := int_sub_float observed_count (expected_count * et)%float in
  let* t := float_of_int T in
  let* denom := math_sqrt (t * expected_count * (1 - expected_count))%float in
  float_div numer denom.

Definition _compute_p_value (z : float) : float := norm_sf z.

(** Keyword flags of [_score_sequence]. *)
Record score_flags : Type := {
  return_num_tokens_scored : bool;
  return_num_green_tokens : bool;
  return_green_fraction : bool;
  return_green_token_mask : bool;
  return_z_score : bool;
  return_p_value : bool;
}.

Definition default_flags : score_flags := {|
  return_num_tokens_scored := true;
  return_num_green_tokens := true;
  return_green_fraction := true;
  return_green_token_mask := false;
  return_z_score := true;
  return_p_value := true;
|}.

(** [score_dict]: an absent key is [None]. *)
Record score_dict_t : Type := {
  num_tokens_scored : option Z;
  num_green_tokens : option Z;
  green_fraction : option float;
  z_score : option float;
  p_value : option float;
  green_token_mask : option (list bool);
}.

(** The variables the scan of [_score_sequence] updates. *)
Record scan_t : Type := {
  green_token_count : Z;
  green_token_mask_acc : list bool;
  depth_hit : list Z;
  mark : list bool;
}.

(** The preference bit of the scan at position [idx]. *)
Definition score_preferance (input_ids : list Z) (idx : Z) : result bool :=
  let n := len (userid self) in
  match wm_mode self with
  | previous1 =>
      let* t1 := py_index input_ids (idx - 1) in
      let* k := tensor_mod t1 n in
      userid_at k
  | _ =>
      let* t1 := py_index input_ids (idx - 1) in
      let* t2 := py_index input_ids (idx - 2) in
      let* k := tensor_mod (wrap64 (t1 * t2)) n in
      userid_at k
  end.

(** [for j in range(len(d_masks)): if curr_token in d_masks[j]: depth_hit[j] += 1] *)
Fixpoint count_depth_hits (curr_token : Z) (d_masks : list (list Z)) (j : Z)
  (depth_hit : list Z) : result (list Z) :=
  match d_masks with
  | [] => Ok depth_hit
  | m :: rest =>
      let* depth_hit' :=
        (if tensor_contains curr_token m then
           let* k := norm_index (len depth_hit) j in
           let* h := py_index depth_hit j in
           Ok (<[k := h + 1]> depth_hit)
         else Ok depth_hit) in
      count_depth_hits curr_token rest (j + 1) depth_hit'
  end.

(** One iteration of the scan. *)
Definition scan_step (input_ids : list Z) (idx : Z) (a : scan_t) : M scan_t :=
  curr_token <- lift (py_index input_ids idx) ;;
  preferance <- lift (score_preferance input_ids idx) ;;
  r <- _get_greenlist_ids (py_slice None (Some idx) input_ids) ;;
  let '(green, red, green_d, red_d) := r in
  let greenlist_ids := if preferance then green else red in
  let d_masks := if preferance then green_d else red_d in
  if tensor_contains curr_token greenlist_ids then
    let mark' := mark a ++ [if preferance then true else false] in
    depth_hit' <-
      (if bool_decide (gen_mode (args self) = depth_d) then
         lift (count_depth_hits curr_token d_masks 0 (depth_hit a))
       else ret (depth_hit a)) ;;
    ret {| green_token_count := green_token_count a + 1;
           green_token_mask_acc := green_token_mask_acc a ++ [true];
           depth_hit := depth_hit';
           mark := mark' |}
  else
    let mark' := mark a ++ [if negb preferance then true else false] in
    ret {| green_token_count := green_token_count a;
           green_token_mask_acc := green_token_mask_acc a ++ [false];
           depth_hit := depth_hit a;
           mark := mark' |}.

Fixpoint scan (input_ids : list Z) (idxs : list Z) (a : scan_t) : M scan_t :=
  match idxs with
  | [] => ret a
  | idx :: rest => a' <- scan_step input_ids idx a ;; scan input_ids rest a'
  end.

(** [torch.zeros(self.args.depth)] *)
Definition torch_zeros (n : option Z) : result (list Z) :=
  match n with
  | None => Raise TypeError
  | Some n => if n <? 0 then Raise RuntimeError else Ok (replicate (Z.to_nat n) 0)
  end.

Definition _score_sequence (input_ids : list Z) (flags : score_flags)
  : M (score_dict_t * float * float * list bool) :=
  let num_tokens_scored := len input_ids - min_prefix_len det in
  (if num_tokens_scored <? 1 then raise ValueError else ret tt) ;;
  depth_hit0 <- lift (torch_zeros (depth (args self))) ;;
  a <- scan input_ids
            (seqZ (min_prefix_len det) (len input_ids - min_prefix_len det))
            {| green_token_count := 0; green_token_mask_acc := [];
               depth_hit := depth_hit0; mark := [] |} ;;
  let green_token_count := green_token_count a in
  gf <- (if return_green_fraction flags
         then f <- lift (int_truediv green_token_count num_tokens_scored) ;;
              ret (Some f)
         else ret None) ;;
  z1 <- (if return_z_score flags
         then z <- lift (_compute_z_score green_token_count num_tokens_scored) ;;
              ret (Some z)
         else ret None) ;;
  pv <- (if return_p_value flags
         then z <- (match z1 with
                    | Some z => ret z
                    | None => lift (_compute_z_score green_token_count
                                                     num_tokens_scored)
                    end) ;;
              ret (Some (_compute_p_value z))
         else ret None) ;;
  let score_dict := {|
    num_tokens_scored :=
      if return_num_tokens_scored flags then Some num_tokens_scored else None;
    num_green_tokens :=
      if return_num_green_tokens flags then Some green_token_count else None;
    green_fraction := gf;
    z_score := z1;
    p_value := pv;
    green_token_mask :=
      if return_green_token_mask flags then Some (green_token_mask_acc a)
      else None |} in
  sim_score <- lift (int_truediv green_token_count num_tokens_scored) ;;
  let gr_sim_score := sim_score in
  match gen_mode (args self) with
  | depth_d =>
      total_loss <- lift (depth_cross_entropy (depth_hit a) green_token_count
                                              sim_score) ;;
      ret (score_dict, gr_sim_score, total_loss, mark a)
  | _ =>
      (* [total_loss] is assigned in the [depth_d] branch only *)
      raise UnboundLocalError
  end.

(** [output_dict] of [detect] *)
Record output_dict_t : Type := {
  scores_out : option score_dict_t;
  prediction : option bool;
  confidence : option float;
}.

Fixpoint run_normalizers
  (ns : list (option string -> result (option string)))
  (text : option string) : result (option string) :=
  match ns with
  | [] => Ok text
  | normalizer :: rest => let* text' := normalizer text in run_normalizers rest text'
  end.

(** [tokenized_text[0] == self.tokenizer.bos_token_id] *)
Definition starts_with_bos (tok : tokenizer_t) (tokenized_text : list Z)
  : result bool :=
  let* t0 := py_index tokenized_text 0 in
  Ok (match bos_token_id tok with
      | Some b => t0 =? b
      | None => false
      end).

(** [z_threshold if z_threshold else self.z_threshold] *)
Definition effective_threshold (z_threshold_arg : option float) : option float :=
  match z_threshold_arg with
  | Some t => if float_truthy t then Some t else z_threshold det
  | None => z_threshold det
  end.

Definition detect (text : option string) (tokenized_text : option (list Z))
  (return_prediction return_scores : bool) (z_threshold_arg : option float)
  (kwargs : score_flags)
  : M (output_dict_t * float * float * list bool) :=
  lift (py_assert (xorb (bool_decide (is_Some text))
                        (bool_decide (is_Some tokenized_text)))) ;;
  let kwargs :=
    if return_prediction then
      {| return_num_tokens_scored := return_num_tokens_scored kwargs;
         return_num_green_tokens := return_num_green_tokens kwargs;
         return_green_fraction := return_green_fraction kwargs;
         return_green_token_mask := return_green_token_mask kwargs;
         return_z_score := return_z_score kwargs;
         return_p_value := true |}
    else kwargs in
  text <- lift (run_normalizers (normalizers det) text) ;;
  tokenized_text <-
    (match tokenized_text with
     | None =>
         match tokenizer det with
         | None => raise AssertionError
         | Some tok =>
             ids <- lift (tokenize tok text) ;;
             bos <- lift (starts_with_bos tok ids) ;;
             ret (if bos then py_slice (Some 1) None ids else ids)
         end
     | Some ids =>
         match tokenizer det with
         | None => ret ids
         | Some tok =>
             bos <- lift (starts_with_bos tok ids) ;;
             ret (if bos then py_slice (Some 1) None ids else ids)
         end
     end) ;;
  r <- _score_sequence tokenized_text kwargs ;;
  let '(score_dict, gr_score, depth_score, mark) := r in
  let scores_out := if return_scores then Some score_dict else None in
  if return_prediction then
    thr <- lift (match effective_threshold z_threshold_arg with
                 | Some t => Ok t
                 | None => Raise AssertionError
                 end) ;;
    z <- lift (match z_score score_dict with
               | Some z => Ok z
               | None => Raise KeyError
               end) ;;
    let prediction := (thr <? z)%float in
    conf <- (if prediction then
               p <- lift (match p_value score_dict with
                          | Some p => Ok p
                          | None => Raise KeyError
                          end) ;;
               ret (Some (1 - p)%float)
             else ret None) ;;
    ret ({| scores_out := scores_out; prediction := Some prediction;
            confidence := conf |}, gr_score, depth_score, mark)
  else
    ret ({| scores_out := scores_out; prediction := None;
            confidence := None |}, gr_score, depth_score, mark).

End Instance.

(** The permutation a seed pins down: [randperm(n)] drawn right after
    [manual_seed(seed)]. *)
Definition perm_of_seed (n seed : Z) : list Z :=
  (randperm (Z.to_nat n) (manual_seed seed)).1.

(** The statistic as the specification words it:
    [(green_token_count - gamma * T) / sqrt(T * gamma * (1 - gamma))]. *)
Definition z_statistic (gamma : float) (green_token_count T : Z)
  : result float :=
  let* g := float_of_int green_token_count in
  let* t := float_of_int T in
  Ok ((g - gamma * t) / PrimFloat.sqrt (t * gamma * (1 - gamma)))%float.

(** The rule as the specification words it: the bit of the user id at
    [t_minus_1 mod n], or at [(t_minus_1 * t_minus_2) mod n]. *)
Definition step_preference (userid : list bool) (mode : wm_mode_t)
  (t_minus_1 t_minus_2 : Z) : result bool :=
  let n := len userid in
  if n =? 0 then Raise RuntimeError
  else match mode with
       | previous1 => py_index userid (t_minus_1 mod n)
       | _ => py_index userid ((t_minus_1 * t_minus_2) mod n)
       end.

(** Number of preceding tokens the rule reads. *)
Definition preference_prefix_len (mode : wm_mode_t) : Z :=
  match mode with previous1 => 1 | _ => 2 end.

(** The four lists the derivation returns for a history, as a value: the
    call seeds the generator itself, so any generator gives them. *)
Definition greenlist_of (self : config) (input_ids : list Z)
  : result (list Z * list Z * list (list Z) * list (list Z)) :=
  value (_get_greenlist_ids self input_ids
           {| rng := Some (manual_seed 0); idx_t := 0 |}).

(** The markable set of the step that scores position [idx]: the green list
    of the history before [idx] when the preference bit is ['1'], the red
    list when it is ['0']. *)
Definition markable_at (self : config) (tokens : list Z) (idx : Z)
  : result (list Z) :=
  let* preferance := score_preferance self tokens idx in
  let* r := greenlist_of self (py_slice None (Some idx) tokens) in
  let '(green, red, _, _) := r in
  Ok (if preferance then green else red).

(** The bias [_bias_greenlist_logits] adds at step counter [t]. *)
Definition greenlist_bias_at (self : config) (t : Z) : result float :=
  if decrease_delta self then decayed_bias t else Ok (delta self).

(** ** Reasoning about the monad *)

Lemma rbind_Ok {A B} (m : result A) (k : A -> result B) b :
  rbind m k = Ok b -> exists a, m = Ok a /\ k a = Ok b.
Proof. destruct m; simpl; [eauto | discriminate]. Qed.

Lemma bind_Ok {A B} (m : M A) (k : A -> M B) s b s' :
  bind m k s = Ok (b, s') ->
  exists a s1, m s = Ok (a, s1) /\ k a s1 = Ok (b, s').
Proof.
  unfold bind. destruct (m s) as [[a s1]|e]; [eauto | discriminate].
Qed.

Lemma lift_Ok {A} (r : result A) s a s' :
  lift r s = Ok (a, s') -> r = Ok a /\ s' = s.
Proof. unfold lift. destruct r; intros H; inversion H; auto. Qed.

Lemma ret_Ok {A} (x : A) s a s' : ret x s = Ok (a, s') -> a = x /\ s' = s.
Proof. unfold ret. intros H; inversion H; auto. Qed.

(** Two outcomes agree: the same value and generator, or the same
    exception. *)
Definition agree {A} (r1 r2 : result (A * wm_state)) : Prop :=
  match r1, r2 with
  | Ok (a, s1), Ok (b, s2) => a = b /\ rng s1 = rng s2
  | Raise e1, Raise e2 => e1 = e2
  | _, _ => False
  end.

(** A computation that looks at the generator only. *)
Definition respects {A} (m : M A) : Prop :=
  forall s1 s2, rng s1 = rng s2 -> agree (m s1) (m s2).

Lemma respects_ret {A} (a : A) : respects (ret a).
Proof. intros s1 s2 H. simpl. auto. Qed.

Lemma respects_lift {A} (r : result A) : respects (lift r).
Proof. intros s1 s2 H. unfold lift. destruct r; simpl; auto. Qed.

Lemma respects_raise {A} e : respects (@raise A e).
Proof. intros s1 s2 H. reflexivity. Qed.

Lemma respects_bind {A B} (m : M A) (k : A -> M B) :
  respects m -> (forall a, respects (k a)) -> respects (bind m k).
Proof.
  intros Hm Hk s1 s2 H. unfold bind. specialize (Hm s1 s2 H).
  destruct (m s1) as [[a t1]|e1], (m s2) as [[b t2]|e2]; simpl in Hm;
    try contradiction; auto.
  destruct Hm as [-> Hr]. by apply Hk.
Qed.

Lemma respects_rng_manual_seed seed : respects (rng_manual_seed seed).
Proof.
  intros s1 s2 H. unfold rng_manual_seed. rewrite <- H.
  destruct (rng s1); simpl; auto.
  destruct (_ && _); simpl; auto.
Qed.

Lemma respects_torch_randperm n : respects (torch_randperm n).
Proof.
  intros s1 s2 H. unfold torch_randperm. rewrite <- H.
  destruct (rng s1) as [g|]; simpl; auto.
  destruct (n <? 0); simpl; auto.
  destruct (randperm _ g); simpl; auto.
Qed.

Lemma respects_seed_depth_rng self : respects (_seed_depth_rng self).
Proof.
  intros s1 s2 H. unfold _seed_depth_rng. rewrite <- H.
  destruct (rng s1) eqn:E; [|reflexivity]. rewrite <- E in H.
  refine (respects_bind _ _ _ _ s1 s2 H).
  - apply respects_lift.
  - intros. apply respects_rng_manual_seed.
Qed.

Lemma respects_if {A} (b : bool) (m1 m2 : M A) :
  respects m1 -> respects m2 -> respects (if b then m1 else m2).
Proof. by destruct b. Qed.

Create HintDb respects.
#[local] Hint Resolve respects_ret respects_lift respects_raise
  respects_rng_manual_seed respects_torch_randperm respects_seed_depth_rng
  : respects.
#[local] Hint Extern 2 (respects (bind _ _)) =>
  apply respects_bind; [| intros] : respects.
#[local] Hint Extern 2 (respects (if _ then _ else _)) =>
  apply respects_if : respects.
#[local] Hint Extern 3 (respects (match ?x with _ => _ end)) =>
  destruct x : respects.

(** Seeding overwrites the generator: the state it leaves does not depend on
    the state it found, as long as there was a generator. *)
Lemma seed_rng_agree self input_ids s1 s2 :
  is_Some (rng s1) -> is_Some (rng s2) ->
  agree (_seed_rng self input_ids s1) (_seed_rng self input_ids s2).
Proof.
  intros [g1 H1] [g2 H2]. unfold _seed_rng.
  destruct (seeding_scheme self); [|reflexivity].
  unfold bind, lift.
  destruct (py_assert _); [|reflexivity].
  destruct (py_index _ _); [|reflexivity].
  unfold rng_manual_seed. rewrite H1, H2.
  destruct (_ && _); simpl; auto.
Qed.

Lemma agree_bind {A B} (m : M A) (k : A -> M B) s1 s2 :
  agree (m s1) (m s2) -> (forall a, respects (k a)) ->
  agree (bind m k s1) (bind m k s2).
Proof.
  intros Hm Hk. unfold bind.
  destruct (m s1) as [[a t1]|e1], (m s2) as [[b t2]|e2]; simpl in Hm;
    try contradiction; auto.
  destruct Hm as [-> Hr]. by apply Hk.
Qed.

Ltac respects_tac :=
  repeat (auto with respects; try (apply respects_bind; [|intros])).

(** The whole derivation inherits it: what follows the seeding only looks at
    the generator the seeding left. *)
Lemma get_greenlist_ids_agree self input_ids s1 s2 :
  is_Some (rng s1) -> is_Some (rng s2) ->
  agree (_get_greenlist_ids self input_ids s1)
        (_get_greenlist_ids self input_ids s2).
Proof.
  intros H1 H2. unfold _get_greenlist_ids.
  apply agree_bind; [by apply seed_rng_agree|].
  intros []. respects_tac.
Qed.

(** Inversion of a successful run, bind by bind. *)
Ltac inv_M :=
  repeat match goal with
  | H : bind _ _ _ = Ok (_, _) |- _ =>
      let a := fresh "a" in let s := fresh "s" in let E := fresh "E" in
      apply bind_Ok in H; destruct H as (a & s & E & H)
  | H : lift _ _ = Ok (_, _) |- _ =>
      let E := fresh "E" in apply lift_Ok in H; destruct H as [E ->]
  | H : ret _ _ = Ok (_, _) |- _ =>
      let E := fresh "E" in apply ret_Ok in H; destruct H as [E ->]
  | H : raise _ _ = Ok _ |- _ => discriminate H
  end.

(** ** Slices and indexing *)

Lemma slice_bound_range n i : 0 <= n -> 0 <= slice_bound n i <= n.
Proof. unfold slice_bound. destruct (i <? 0) eqn:E; lia. Qed.

Lemma slice_bound_id n i : 0 <= i <= n -> slice_bound n i = i.
Proof. unfold slice_bound. destruct (i <? 0) eqn:E; lia. Qed.

Lemma py_slice_to {A} (l : list A) k :
  py_slice None (Some k) l = take (Z.to_nat (slice_bound (len l) k)) l.
Proof.
  unfold py_slice, len. simpl.
  replace (slice_bound (Z.of_nat (length l)) 0) with 0
    by (unfold slice_bound; simpl; lia).
  rewrite Z.sub_0_r. reflexivity.
Qed.

Lemma py_slice_from {A} (l : list A) k :
  py_slice (Some k) None l = drop (Z.to_nat (slice_bound (len l) k)) l.
Proof.
  unfold py_slice, len. simpl.
  pose proof (slice_bound_range (Z.of_nat (length l)) k ltac:(lia)).
  rewrite (slice_bound_id _ (Z.of_nat (length l))) by lia.
  apply take_ge. rewrite length_drop. lia.
Qed.

(** [l[:k] + l[k:] == l], whatever [k]. *)
Lemma py_slice_split {A} (l : list A) k :
  py_slice None (Some k) l ++ py_slice (Some k) None l = l.
Proof. rewrite py_slice_to, py_slice_from. apply take_drop. Qed.

Lemma len_py_slice_to {A} (l : list A) k :
  len (py_slice None (Some k) l) = slice_bound (len l) k.
Proof.
  rewrite py_slice_to. unfold len. rewrite length_take.
  pose proof (slice_bound_range (Z.of_nat (length l)) k ltac:(lia)).
  unfold len in *. lia.
Qed.

Lemma len_py_slice_from {A} (l : list A) k :
  len (py_slice (Some k) None l) = len l - slice_bound (len l) k.
Proof.
  rewrite py_slice_from. unfold len. rewrite length_drop.
  pose proof (slice_bound_range (Z.of_nat (length l)) k ltac:(lia)).
  unfold len in *. lia.
Qed.

Lemma rmapM_Ok_length {A B} (f : A -> result B) l l' :
  rmapM f l = Ok l' -> length l' = length l.
Proof.
  revert l'. induction l as [|x l IH]; simpl; intros l' H.
  - by inversion H.
  - destruct (f x); simpl in H; [|discriminate].
    destruct (rmapM f l); simpl in H; [|discriminate].
    inversion H; subst. simpl. f_equal. by apply IH.
Qed.

Lemma norm_index_Ok n i j : norm_index n i = Ok j -> Z.of_nat j < n.
Proof.
  unfold norm_index. destruct (i <? 0) eqn:E;
    destruct (_ && _) eqn:E2; intros H; inversion H; lia.
Qed.

Lemma py_index_nil {A} i : @py_index A [] i = Raise IndexError.
Proof.
  unfold py_index, norm_index, len. simpl.
  destruct (i <? 0) eqn:E; destruct (_ && _) eqn:E2; simpl; auto; lia.
Qed.

(** Indexing an empty tensor with a non-empty tensor of indices raises. *)
Lemma index_select_nil i idx : index_select [] (i :: idx) = Raise IndexError.
Proof. unfold index_select. simpl. by rewrite py_index_nil. Qed.

(** *** Inversion of the primitives *)

Lemma seed_rng_Ok self input_ids s u s' :
  _seed_rng self input_ids s = Ok (u, s') ->
  exists prev, py_index input_ids (-1) = Ok prev
    /\ rng s' = Some (manual_seed (hash_key self * prev)).
Proof.
  unfold _seed_rng. destruct (seeding_scheme self); [|discriminate].
  intros H. inv_M. exists a0. split; [done|].
  unfold rng_manual_seed in H. destruct (rng s); [|discriminate].
  destruct (_ && _); [|discriminate]. by inversion H.
Qed.

Lemma torch_randperm_Ok n s p s' :
  torch_randperm n s = Ok (p, s') ->
  exists g, rng s = Some g /\ 0 <= n /\ p = (randperm (Z.to_nat n) g).1.
Proof.
  unfold torch_randperm. destruct (rng s) as [g|]; [|discriminate].
  destruct (n <? 0) eqn:E; [discriminate|].
  destruct (randperm _ g) as [q g'] eqn:E2. intros H. inversion H; subst.
  exists g. rewrite E2. repeat split; auto. lia.
Qed.

Lemma seed_depth_rng_Ok self s u s' :
  _seed_depth_rng self s = Ok (u, s') ->
  exists uid, int_base2 (userid self) = Ok uid
    /\ rng s' = Some (manual_seed (hash_key self * uid)).
Proof.
  unfold _seed_depth_rng. destruct (rng s) eqn:Er; [|discriminate].
  intros H. inv_M. exists a. split; [done|].
  unfold rng_manual_seed in H. rewrite Er in H.
  destruct (_ && _); [|discriminate]. by inversion H.
Qed.

Lemma get_greenlist_ids_Ok self input_ids s green red gd rd s' :
  _get_greenlist_ids self input_ids s = Ok (green, red, gd, rd, s') ->
  exists prev x k uid dgreen dred,
    py_index input_ids (-1) = Ok prev
    /\ int_mul_float (vocab_size self) (gamma self) = Ok x
    /\ py_int x = Ok k
    /\ green = py_slice None (Some k)
                 (perm_of_seed (vocab_size self) (hash_key self * prev))
    /\ red = py_slice (Some k) None
               (perm_of_seed (vocab_size self) (hash_key self * prev))
    /\ int_base2 (userid self) = Ok uid
    /\ index_select green (perm_of_seed (len green) (hash_key self * uid))
       = Ok dgreen
    /\ (if bool_decide (len red ≠ len green) then
          exists r tail,
            index_select (py_slice None (Some (-1)) red)
              (perm_of_seed (len green) (hash_key self * uid)) = Ok r
            /\ py_index red (-1) = Ok tail /\ dred = r ++ [tail]
        else index_select red (perm_of_seed (len green) (hash_key self * uid))
             = Ok dred)
    /\ match gen_mode (args self) with
       | depth_d =>
           exists d l, depth (args self) = Some d
             /\ py_floordiv k d = Ok l
             /\ gd = d_masks_of dgreen d l /\ rd = d_masks_of dred d l
       | _ => gd = [] /\ rd = []
       end.
Proof.
  unfold _get_greenlist_ids. intros H. inv_M.
  apply seed_rng_Ok in E as (prev & Hprev & Hr0).
  apply torch_randperm_Ok in E2 as (g & Hg & _ & ->).
  rewrite Hr0 in Hg. inversion Hg; subst g. clear Hg.
  apply seed_depth_rng_Ok in E3 as (uid & Huid & Hr4).
  apply torch_randperm_Ok in E4 as (g & Hg & _ & ->).
  rewrite Hr4 in Hg. inversion Hg; subst g. clear Hg.
  fold (perm_of_seed (vocab_size self) (hash_key self * prev)) in *.
  set (green0 := py_slice None (Some a1) _) in *.
  set (red0 := py_slice (Some a1) None _) in *.
  fold (perm_of_seed (len green0) (hash_key self * uid)) in *.
  exists prev, a0, a1, uid, a5, a6.
  assert (green = green0 /\ red = red0 /\
          match gen_mode (args self) with
          | depth_d =>
              exists d l, depth (args self) = Some d
                /\ py_floordiv a1 d = Ok l
                /\ gd = d_masks_of a5 d l /\ rd = d_masks_of a6 d l
          | _ => gd = [] /\ rd = []
          end) as (-> & -> & Hm).
  { destruct (gen_mode (args self));
      try (apply ret_Ok in H as [H _]; inversion H; by subst).
    destruct (depth (args self)) as [d|]; [|discriminate].
    inv_M. simplify_eq.
    match goal with
    | H1 : ?x = Ok _, H2 : ?x = Ok _ |- _ => rewrite H1 in H2; simplify_eq
    end.
    repeat split; auto. by exists d, a4. }
  repeat split; auto.
  destruct (bool_decide _).
  - inv_M. subst. eauto.
  - by apply lift_Ok in E6 as [? _].
Qed.

(** ** Determinism of the derivation *)

(** The green and red lists of two outcomes coincide when both are results. *)
Definition same_partition
  (r1 r2 : result (list Z * list Z * list (list Z) * list (list Z) * wm_state))
  : Prop :=
  match r1, r2 with
  | Ok (g1, r1, _, _, _), Ok (g2, r2, _, _, _) => g1 = g2 /\ r1 = r2
  | _, _ => True
  end.

(** C1. Seeding followed by the greenlist derivation is a deterministic
    function of (hash key, vocabulary size, gamma, previous token).  Repeated
    invocations on one instance agree whatever state the generator was left
    in: the same four lists, or the same exception.  Invocations on two
    instances that share the hash key, the vocabulary size and gamma, on
    histories that end with the same token, return the same green and red
    lists. *)
Theorem greenlist_derivation_deterministic
  (c1 c2 : config) (ids1 ids2 : list Z) (s1 s2 : wm_state) :
  is_Some (rng s1) -> is_Some (rng s2) ->
  hash_key c1 = hash_key c2 ->
  vocab_size c1 = vocab_size c2 ->
  gamma c1 = gamma c2 ->
  py_index ids1 (-1) = py_index ids2 (-1) ->
  agree (_get_greenlist_ids c1 ids1 s1) (_get_greenlist_ids c1 ids1 s2)
  /\ same_partition (_get_greenlist_ids c1 ids1 s1)
                    (_get_greenlist_ids c2 ids2 s2).
Proof.
  intros H1 H2 Hk Hv Hg Hp. split; [by apply get_greenlist_ids_agree|].
  unfold same_partition.
  destruct (_get_greenlist_ids c1 ids1 s1) as [[[[[g1 r1] gd1] rd1] t1]|] eqn:E1;
    [|done].
  destruct (_get_greenlist_ids c2 ids2 s2) as [[[[[g2 r2] gd2] rd2] t2]|] eqn:E2;
    [|done].
  apply get_greenlist_ids_Ok in E1
    as (p1 & x1 & k1 & _ & _ & _ & Hp1 & Hx1 & Hk1 & -> & -> & _).
  apply get_greenlist_ids_Ok in E2
    as (p2 & x2 & k2 & _ & _ & _ & Hp2 & Hx2 & Hk2 & -> & -> & _).
  rewrite Hp, Hp2 in Hp1. rewrite Hv, Hg, Hx2 in Hx1. simplify_eq.
  rewrite Hk2 in Hk1. simplify_eq. rewrite Hk, Hv. done.
Qed.

(** ** The partition and its depth chunks *)

Lemma py_slice_nonneg {A} (l : list A) a b :
  0 <= a -> 0 <= b ->
  py_slice (Some a) (Some b) l
  = take (Z.to_nat b - Z.to_nat a) (drop (Z.to_nat a) l).
Proof.
  intros Ha Hb. unfold py_slice, slice_bound, len. simpl.
  destruct (a <? 0) eqn:Ea; [lia|]. destruct (b <? 0) eqn:Eb; [lia|].
  destruct (decide (Z.of_nat (length l) <= a)) as [Hge|Hlt].
  - rewrite !drop_ge by lia. by rewrite !take_nil.
  - replace (Z.min a (Z.of_nat (length l))) with a by lia.
    destruct (decide (b <= Z.of_nat (length l))).
    + f_equal. lia.
    + rewrite !take_ge; auto; rewrite length_drop; lia.
Qed.

Lemma py_slice_from_nonneg {A} (l : list A) a :
  0 <= a -> py_slice (Some a) None l = drop (Z.to_nat a) l.
Proof.
  intros Ha. rewrite py_slice_from. unfold slice_bound, len.
  destruct (a <? 0) eqn:Ea; [lia|].
  destruct (decide (a <= Z.of_nat (length l))).
  - f_equal. lia.
  - rewrite !drop_ge; auto; lia.
Qed.

(** The first [n] chunks of length [l] make up the first [n * l] ids. *)
Lemma concat_leading_chunks (ids : list Z) (l : Z) (n : nat) :
  0 <= l ->
  concat ((fun i => py_slice (Some (i * l)) (Some ((i + 1) * l)) ids)
            <$> seqZ 0 (Z.of_nat n))
  = take (Z.to_nat (Z.of_nat n * l)) ids.
Proof.
  intros Hl. induction n as [|n IH].
  - simpl. by rewrite take_0.
  - replace (Z.of_nat (S n)) with (Z.of_nat n + 1) by lia.
    rewrite seqZ_app by lia. rewrite fmap_app, concat_app, IH.
    rewrite (seqZ_cons _ 1) by lia. rewrite seqZ_nil by lia.
    simpl. rewrite app_nil_r.
    rewrite py_slice_nonneg by nia.
    rewrite take_take_drop. f_equal. nia.
Qed.

(** For a depth of at least one, the chunks concatenate to the ids they were
    cut from: nothing is lost and nothing repeated. *)
Lemma concat_d_masks_of (ids : list Z) d l :
  1 <= d -> 0 <= l -> concat (d_masks_of ids d l) = ids.
Proof.
  intros Hd Hl. unfold d_masks_of, py_range.
  remember (Z.to_nat (d - 1)) as n eqn:Hn.
  assert (seqZ 0 d = seqZ 0 (Z.of_nat n) ++ [d - 1]) as ->.
  { replace d with (Z.of_nat n + 1) at 1 by lia.
    rewrite seqZ_app by lia. f_equal.
    rewrite (seqZ_cons _ 1) by lia. rewrite seqZ_nil by lia.
    f_equal. lia. }
  rewrite fmap_app, concat_app. simpl. rewrite app_nil_r.
  rewrite <- (take_drop (Z.to_nat (Z.of_nat n * l)) ids) at 3.
  f_equal.
  - rewrite <- concat_leading_chunks by done. f_equal.
    apply list_fmap_ext. intros i x Hx.
    apply lookup_seqZ in Hx as [-> Hi]. unfold d_mask.
    destruct (_ =? _) eqn:E; [lia|done].
  - unfold d_mask. rewrite Z.eqb_refl.
    replace (Z.of_nat n) with (d - 1) by lia.
    by rewrite py_slice_from_nonneg by nia.
Qed.

Lemma d_masks_of_nonpos (ids : list Z) d l : d <= 0 -> d_masks_of ids d l = [].
Proof. intros Hd. unfold d_masks_of, py_range. by rewrite seqZ_nil. Qed.

Lemma perm_of_seed_perm n seed :
  perm_of_seed n seed ≡ₚ Z.of_nat <$> seq 0 (Z.to_nat n).
Proof. apply randperm_perm. Qed.

Lemma len_perm_of_seed n seed : 0 <= n -> len (perm_of_seed n seed) = n.
Proof.
  intros Hn. unfold len. rewrite perm_of_seed_perm.
  rewrite length_fmap, length_seq. lia.
Qed.

Lemma elem_of_perm_of_seed n seed i :
  i ∈ perm_of_seed n seed <-> 0 <= i < n.
Proof.
  rewrite perm_of_seed_perm, list_elem_of_fmap. split.
  - intros (j & -> & Hj). apply elem_of_seq in Hj. lia.
  - intros Hi. exists (Z.to_nat i). split; [lia|].
    apply elem_of_seq. lia.
Qed.

Lemma NoDup_perm_of_seed n seed : NoDup (perm_of_seed n seed).
Proof.
  rewrite perm_of_seed_perm. apply NoDup_fmap_2; [apply _|apply NoDup_seq].
Qed.

Lemma rmapM_Ok_elem {A B} (f : A -> result B) l l' x :
  rmapM f l = Ok l' -> x ∈ l -> exists y, f x = Ok y.
Proof.
  revert l'. induction l as [|a l IH]; simpl; intros l' H Hx.
  - by apply elem_of_nil in Hx.
  - destruct (f a) eqn:Ea; simpl in H; [|discriminate].
    destruct (rmapM f l) eqn:El; simpl in H; [|discriminate].
    apply elem_of_cons in Hx as [->|Hx]; eauto.
Qed.

Lemma py_index_Ok_bound {A} (t : list A) i x :
  py_index t i = Ok x -> - len t <= i < len t.
Proof.
  unfold py_index, norm_index.
  destruct (i <? 0) eqn:Ei; destruct (_ && _) eqn:E; simpl; try discriminate;
    intros _; lia.
Qed.

(** Every index of a successful [t[idx]] is within the tensor. *)
Lemma index_select_Ok_bound t idx r i :
  index_select t idx = Ok r -> i ∈ idx -> i < len t.
Proof.
  intros H Hi. destruct (rmapM_Ok_elem _ _ _ _ H Hi) as [y Hy].
  apply py_index_Ok_bound in Hy. lia.
Qed.

(** Whenever the derivation returns, the green and red lists split the
    permutation drawn for the previous token: together they hold every id of
    [0, V) exactly once, and the green list has the size [int(V * gamma)]
    whenever that lies within [0, V]. *)
Lemma greenlist_partition self input_ids s green red gd rd s' :
  _get_greenlist_ids self input_ids s = Ok (green, red, gd, rd, s') ->
  green ++ red ≡ₚ Z.of_nat <$> seq 0 (Z.to_nat (vocab_size self))
  /\ NoDup (green ++ red)
  /\ len green + len red = vocab_size self
  /\ exists x k, int_mul_float (vocab_size self) (gamma self) = Ok x
       /\ py_int x = Ok k
       /\ len green = slice_bound (vocab_size self) k.
Proof.
  intros H. apply get_greenlist_ids_Ok in H
    as (prev & x & k & _ & _ & _ & _ & Hx & Hk & -> & -> & _).
  assert (0 <= vocab_size self) by (unfold vocab_size, len; lia).
  rewrite py_slice_split. repeat split.
  - apply perm_of_seed_perm.
  - apply NoDup_perm_of_seed.
  - rewrite len_py_slice_to, len_py_slice_from, len_perm_of_seed by done. lia.
  - exists x, k. repeat split; auto.
    by rewrite len_py_slice_to, len_perm_of_seed.
Qed.

(** C2, on the code.  The derivation returns no partition at all when gamma
    makes the green list longer than the red one: the red ids, cut by one,
    are then indexed with a permutation of the green length, which is out of
    range.  With [k = int(V * gamma)] and [V - k < k <= V], every call
    raises. *)
Theorem greenlist_ids_raises_when_green_outnumbers_red
  self x k input_ids s :
  int_mul_float (vocab_size self) (gamma self) = Ok x ->
  py_int x = Ok k ->
  vocab_size self - k < k <= vocab_size self ->
  exists e, _get_greenlist_ids self input_ids s = Raise e.
Proof.
  intros Hx Hk Hrange.
  destruct (_get_greenlist_ids self input_ids s)
    as [[[[[green red] gd] rd] s']|e] eqn:E; [exfalso|eauto].
  apply get_greenlist_ids_Ok in E
    as (prev & x' & k' & uid & dg & dr & _ & Hx' & Hk' & Hg & Hr & _ & _ & Hred & _).
  rewrite Hx in Hx'. simplify_eq. rewrite Hk in Hk'. simplify_eq.
  assert (0 <= vocab_size self) by (unfold vocab_size, len; lia).
  set (perm := perm_of_seed (vocab_size self) (hash_key self * prev)) in *.
  set (green := py_slice None (Some k') perm) in *.
  set (red := py_slice (Some k') None perm) in *.
  assert (len green = k') as Hlg.
  { unfold green. rewrite len_py_slice_to. unfold perm.
    rewrite len_perm_of_seed by done. apply slice_bound_id. lia. }
  assert (len red = vocab_size self - k') as Hlr.
  { unfold red. rewrite len_py_slice_from. unfold perm.
    rewrite len_perm_of_seed by done. rewrite slice_bound_id; lia. }
  rewrite bool_decide_eq_true_2 in Hred by lia.
  destruct Hred as (r & tail & Hsel & _ & _).
  assert (k' - 1 ∈ perm_of_seed (len green) (hash_key self * uid)) as Hin.
  { apply elem_of_perm_of_seed. lia. }
  pose proof (index_select_Ok_bound _ _ _ _ Hsel Hin) as Hb.
  rewrite len_py_slice_to, Hlr in Hb. unfold slice_bound in Hb. simpl in Hb.
  lia.
Qed.

(** C7, on the code.  When the red list is longer than the green one by two
    or more ([k + 1 < V - k] for [k = int(V * gamma)]), the red depth chunks
    are cut from [k] permuted red ids and the last red id only: some red id
    is in no red chunk. *)
Theorem red_depth_chunks_omit_ids
  self x k input_ids s green red gd rd s' :
  gen_mode (args self) = depth_d ->
  int_mul_float (vocab_size self) (gamma self) = Ok x ->
  py_int x = Ok k ->
  0 <= k -> k + 1 < vocab_size self - k ->
  _get_greenlist_ids self input_ids s = Ok (green, red, gd, rd, s') ->
  exists id, id ∈ red /\ id ∉ concat rd.
Proof.
  intros Hmode Hx Hk Hk0 Hgap E.
  apply get_greenlist_ids_Ok in E
    as (prev & x' & k' & uid & dg & dr & _ & Hx' & Hk' & Hg & Hr & _ & _ & Hred & Hd).
  rewrite Hx in Hx'. simplify_eq. rewrite Hk in Hk'. simplify_eq.
  assert (0 <= vocab_size self) by (unfold vocab_size, len; lia).
  set (perm := perm_of_seed (vocab_size self) (hash_key self * prev)) in *.
  set (green := py_slice None (Some k') perm) in *.
  set (red := py_slice (Some k') None perm) in *.
  assert (len green = k') as Hlg.
  { unfold green. rewrite len_py_slice_to. unfold perm.
    rewrite len_perm_of_seed by done. apply slice_bound_id. lia. }
  assert (len red = vocab_size self - k') as Hlr.
  { unfold red. rewrite len_py_slice_from. unfold perm.
    rewrite len_perm_of_seed by done. rewrite slice_bound_id; lia. }
  assert (NoDup red) as Hnd.
  { unfold red. rewrite py_slice_from.
    eapply sublist_NoDup; [apply NoDup_perm_of_seed|apply sublist_drop]. }
  rewrite bool_decide_eq_true_2 in Hred by lia.
  destruct Hred as (r & tail & Hsel & _ & ->).
  apply rmapM_Ok_length in Hsel.
  assert (len (perm_of_seed (len green) (hash_key self * uid)) = k') as Hlp
    by (rewrite len_perm_of_seed; lia).
  rewrite Hmode in Hd. destruct Hd as (d & l & _ & Hl & _ & ->).
  unfold py_floordiv in Hl. destruct (d =? 0) eqn:Ed; [discriminate|].
  inversion Hl; subst l. clear Hl.
  assert (length (concat (d_masks_of (r ++ [tail]) d (k' / d))) < length red)%nat
    as Hlen.
  { destruct (decide (1 <= d)).
    - rewrite concat_d_masks_of; [|done|by apply Z.div_pos; lia].
      rewrite length_app. simpl. unfold len in *. lia.
    - rewrite d_masks_of_nonpos by lia. simpl. unfold len in *. lia. }
  destruct (decide (Forall (fun id => id ∈ concat (d_masks_of (r ++ [tail]) d (k' / d))) red))
    as [Hall|Hnot].
  - exfalso. rewrite Forall_forall in Hall.
    pose proof (submseteq_length _ _ (NoDup_submseteq _ _ Hnd Hall)). lia.
  - apply not_Forall_Exists in Hnot; [|apply _].
    apply Exists_exists in Hnot as (id & Hin & Hout). eauto.
Qed.

(** ** Depth-weighted bias *)

(** C6, on the code.  [_bias_depth_d_logits] reassigns [delta] at every
    chunk, so the factors [0.5 ** i] accumulate: over three chunks the
    deltas added are [delta], [delta * 0.5] and [delta * 0.5 * 0.25].  For
    [delta = 2] the third chunk receives 0.25, where [delta * 0.5 ** 2] is
    0.5. *)
Theorem bias_depth_d_logits_compounds_delta (delta : float) (a b c : score) :
  _bias_depth_d_logits [[a; b; c]] [[0; 1; 2]] [[0]; [1]; [2]] delta
  = Ok [[score_add a (delta * 1);
         score_add b (delta * 1 * 0.5);
         score_add c (delta * 1 * 0.5 * 0.25)]]
  /\ (2 * 1 * 0.5 * 0.25 = 0.25)%float
  /\ (2 * pow_half 2 = 0.5)%float.
Proof. split; [reflexivity|]. split; reflexivity. Qed.

(** ** The depth option and the scoring path *)

(** C9, on the code.  The standard scoring path builds the depth histogram
    before it looks at [gen_mode]: when no depth was supplied it raises,
    whatever the mode, for every sequence long enough to be scored. *)
Theorem score_sequence_raises_without_depth self det input_ids flags s :
  depth (args self) = None ->
  1 <= len input_ids - min_prefix_len det ->
  _score_sequence self det input_ids flags s = Raise TypeError.
Proof.
  intros Hd Hlen. unfold _score_sequence.
  unfold bind at 1. destruct (_ <? 1) eqn:E; [lia|]. simpl.
  unfold bind at 1. rewrite Hd. reflexivity.
Qed.

(** With a depth supplied, a mode other than [depth_d] still never returns:
    [total_loss] is unbound at the [return]. *)
Lemma score_sequence_raises_outside_depth_d self det input_ids flags s :
  gen_mode (args self) ≠ depth_d ->
  exists e, _score_sequence self det input_ids flags s = Raise e.
Proof.
  intros Hm.
  destruct (_score_sequence self det input_ids flags s) as [[r s']|e] eqn:E;
    [exfalso|eauto].
  unfold _score_sequence in E. inv_M.
  destruct (gen_mode (args self)); try discriminate. done.
Qed.

(** ** Input handling of [detect] *)

(** Both or neither of the raw text and the token ids: the assertion fails
    at once. *)
Lemma detect_ambiguous_input self det text ids rp rs thr kw s :
  bool_decide (is_Some text) = bool_decide (is_Some ids) ->
  detect self det text ids rp rs thr kw s = Raise AssertionError.
Proof.
  intros H. unfold detect. unfold bind at 1. rewrite H.
  by destruct (bool_decide (is_Some ids)).
Qed.

(** C10, on the code.  With token ids alone, the assertion passes, and the
    search for a leading BOS token reads [tokenized_text[0]]: on an empty
    sequence of ids [detect] raises [IndexError] before any scoring. *)
Theorem detect_raises_on_empty_ids self det tok text' rp rs thr kw s :
  tokenizer det = Some tok ->
  run_normalizers (normalizers det) None = Ok text' ->
  detect self det None (Some []) rp rs thr kw s = Raise IndexError.
Proof.
  intros Ht Hn. unfold detect.
  unfold bind at 1. simpl. unfold bind at 1. rewrite Hn. simpl.
  unfold bind at 1. rewrite Ht. reflexivity.
Qed.

(** With token ids alone, the normalizers still run, on the absent text: an
    exception of theirs is the outcome of [detect]. *)
Lemma detect_ids_alone_runs_normalizers self det ids e rp rs thr kw s :
  run_normalizers (normalizers det) None = Raise e ->
  detect self det None (Some ids) rp rs thr kw s = Raise e.
Proof.
  intros Hn. unfold detect.
  unfold bind at 1. simpl. unfold bind at 1. rewrite Hn. reflexivity.
Qed.

(** ** The preference bit at generation and at detection *)

Lemma py_index_last_firstn {A} (l : list A) t j :
  1 <= j <= t -> t <= len l ->
  py_index (py_slice None (Some t) l) (- j) = py_index l (t - j).
Proof.
  intros Hj Ht. rewrite py_slice_to. rewrite slice_bound_id by (unfold len in *; lia).
  unfold py_index, norm_index, len. rewrite length_take.
  destruct (- j <? 0) eqn:E1; [|lia]. destruct (t - j <? 0) eqn:E2; [lia|].
  unfold len in Ht.
  replace (- j + Z.of_nat (Z.to_nat t `min` length l)) with (t - j) by lia.
  assert ((0 <=? t - j) && (t - j <? Z.of_nat (Z.to_nat t `min` length l))
          = true) as ->
    by (apply andb_true_iff; split; [apply Z.leb_le|apply Z.ltb_lt]; lia).
  assert ((0 <=? t - j) && (t - j <? Z.of_nat (length l)) = true) as ->
    by (apply andb_true_iff; split; [apply Z.leb_le|apply Z.ltb_lt]; lia).
  simpl. by rewrite lookup_take_lt by lia.
Qed.

Lemma wrap64_id x : - 2 ^ 63 <= x < 2 ^ 63 -> wrap64 x = x.
Proof. intros H. unfold wrap64. rewrite Z.mod_small; lia. Qed.

(** The last row of a batch.  When the generator is called on a batch whose
    last row is a sequence up to [t], the bit it computes is the bit the
    detector computes when it scores position [t] of that sequence: the same
    value or the same exception, from the tokens at [t - 1] (and [t - 2]).
    As long as the product of the two tokens fits in the tensor's 64 bits,
    that bit is the user id at [t_minus_1 mod n], or at
    [(t_minus_1 * t_minus_2) mod n] in combination mode. *)
Lemma preference_bit_symmetry self (tokens : list Z) (batch : list (list Z))
  (t t_minus_1 t_minus_2 : Z) :
  preference_prefix_len (wm_mode self) <= t <= len tokens ->
  py_index batch (-1) = Ok (py_slice None (Some t) tokens) ->
  py_index tokens (t - 1) = Ok t_minus_1 ->
  (wm_mode self ≠ previous1 -> py_index tokens (t - 2) = Ok t_minus_2) ->
  - 2 ^ 63 <= t_minus_1 * t_minus_2 < 2 ^ 63 ->
  call_preferance self batch = score_preferance self tokens t
  /\ score_preferance self tokens t
     = step_preference (userid self) (wm_mode self) t_minus_1 t_minus_2.
Proof.
  intros Ht Hb H1 H2 Hw.
  unfold call_preferance, score_preferance, step_preference, userid_at,
    tensor_mod, preference_prefix_len in *.
  rewrite Hb. simpl.
  destruct (wm_mode self) eqn:Em.
  - rewrite (py_index_last_firstn _ t 1) by lia. rewrite H1. simpl.
    split; [done|]. by destruct (_ =? 0).
  - rewrite (py_index_last_firstn _ t 1), (py_index_last_firstn _ t 2) by lia.
    rewrite H1, H2 by done. simpl. rewrite wrap64_id by done.
    split; [done|]. by destruct (_ =? 0).
  - rewrite (py_index_last_firstn _ t 1), (py_index_last_firstn _ t 2) by lia.
    rewrite H1, H2 by done. simpl. rewrite wrap64_id by done.
    split; [done|]. by destruct (_ =? 0).
Qed.

(** The bit of [__call__] is the detector's bit for the last row of the
    batch, value or exception alike. *)
Lemma call_preferance_last_row self (tokens : list Z) (batch : list (list Z)) t :
  preference_prefix_len (wm_mode self) <= t <= len tokens ->
  py_index batch (-1) = Ok (py_slice None (Some t) tokens) ->
  call_preferance self batch = score_preferance self tokens t.
Proof.
  intros Ht Hb.
  unfold call_preferance, score_preferance, preference_prefix_len in *.
  rewrite Hb. simpl.
  destruct (wm_mode self) eqn:Em.
  - by rewrite (py_index_last_firstn _ t 1) by lia.
  - by rewrite (py_index_last_firstn _ t 1), (py_index_last_firstn _ t 2)
      by lia.
  - by rewrite (py_index_last_firstn _ t 1), (py_index_last_firstn _ t 2)
      by lia.
Qed.

(** C8, on the code.  [__call__] computes one preference bit for the whole
    batch, from the last row.  Take a batch in which row [b] holds a sequence
    up to position [t] and the last row holds another sequence up to
    [t_last].  The bit used at generation for row [b] is the bit the
    detector computes for the last row's sequence at [t_last]; whenever the
    detector's bit for row [b]'s own sequence at [t] is the other one, the
    bit at generation and the bit at detection differ for that sequence. *)
Theorem call_preferance_is_the_last_rows_bit self (batch : list (list Z))
  (b : nat) (tokens tokens_last : list Z) (t t_last : Z)
  (preferance_own preferance_last : bool) :
  batch !! b = Some (py_slice None (Some t) tokens) ->
  py_index batch (-1) = Ok (py_slice None (Some t_last) tokens_last) ->
  preference_prefix_len (wm_mode self) <= t_last <= len tokens_last ->
  score_preferance self tokens t = Ok preferance_own ->
  score_preferance self tokens_last t_last = Ok preferance_last ->
  preferance_own ≠ preferance_last ->
  call_preferance self batch = Ok preferance_last
  /\ call_preferance self batch ≠ score_preferance self tokens t.
Proof.
  intros _ Hlast Ht Hown Hl Hne.
  rewrite (call_preferance_last_row self tokens_last batch t_last Ht Hlast).
  rewrite Hl, Hown. split; [done|]. intros [= ?]. by apply Hne.
Qed.

(** ** The hypothesis test *)

Lemma compute_z_score_Ok self observed_count T z :
  _compute_z_score self observed_count T = Ok z ->
  z_statistic (gamma self) observed_count T = Ok z.
Proof.
  unfold _compute_z_score, z_statistic, int_sub_float, math_sqrt, float_div.
  destruct (float_of_int T) as [t|]; simpl; [|discriminate].
  destruct (float_of_int observed_count) as [g|]; simpl; [|discriminate].
  destruct (_ <? 0)%float; simpl; [discriminate|].
  destruct (is_zero _); [discriminate|]. done.
Qed.

(** What a returning [_score_sequence] put into [score_dict]. *)
Lemma score_sequence_Ok self det input_ids flags s sd gr ds mk s' :
  _score_sequence self det input_ids flags s = Ok (sd, gr, ds, mk, s') ->
  exists a s1 s2 depth_hit0,
    torch_zeros (depth (args self)) = Ok depth_hit0
    /\ scan self input_ids
         (seqZ (min_prefix_len det) (len input_ids - min_prefix_len det))
         {| green_token_count := 0; green_token_mask_acc := [];
            depth_hit := depth_hit0; mark := [] |} s1 = Ok (a, s2)
    /\ 1 <= len input_ids - min_prefix_len det
    /\ gen_mode (args self) = depth_d
    /\ mk = mark a
    /\ num_tokens_scored sd
       = (if return_num_tokens_scored flags
          then Some (len input_ids - min_prefix_len det) else None)
    /\ num_green_tokens sd
       = (if return_num_green_tokens flags
          then Some (green_token_count a) else None)
    /\ (return_z_score flags = true ->
        exists z, _compute_z_score self (green_token_count a)
                    (len input_ids - min_prefix_len det) = Ok z
                  /\ z_score sd = Some z
                  /\ p_value sd
                     = (if return_p_value flags then Some (norm_sf z) else None)).
Proof.
  unfold _score_sequence. intros H. inv_M.
  destruct (_ <? 1) eqn:Elen; [discriminate|].
  destruct (gen_mode (args self)) eqn:Em; try discriminate.
  inv_M. simplify_eq.
  do 4 eexists. repeat split; eauto; [lia|].
  intros Hz. rewrite Hz in *. inv_M. simplify_eq.
  eexists. repeat split; eauto.
  destruct (return_p_value flags); inv_M; by simplify_eq.
Qed.

(** C3, on the code.  Whenever [detect] returns with the scores and the
    prediction asked for, the z-score it reports is the statistic
    [(green_token_count - gamma * T) / sqrt(T * gamma * (1 - gamma))] of the
    counts it reports, the p-value is [scipy.stats.norm.sf] at that z, the
    prediction is [z > thr], and the confidence is present exactly when the
    prediction is true, and is then [1 - p].  The threshold [thr] is the
    caller's [z_threshold] when that is given and is not zero; it is the
    threshold of the instance when the caller gives none, and also when the
    caller gives [0.0] or [-0.0]: the caller's zero is dropped.  On a
    detector built with the default of [__init__] the threshold of the
    instance is 4.0.  For [T = 100], 60 hits and [gamma = 0.5] the z-score
    is 2: not above 4, but above the threshold 0 a caller may ask for. *)
Theorem detect_hypothesis_test self det text ids z_threshold_arg kw s
  out gr ds mk s' :
  return_num_tokens_scored kw = true ->
  return_num_green_tokens kw = true ->
  return_z_score kw = true ->
  detect self det text ids true true z_threshold_arg kw s
    = Ok (out, gr, ds, mk, s') ->
  (exists sd T green_token_count z thr,
      scores_out out = Some sd
      /\ num_tokens_scored sd = Some T
      /\ num_green_tokens sd = Some green_token_count
      /\ z_statistic (gamma self) green_token_count T = Ok z
      /\ z_score sd = Some z
      /\ p_value sd = Some (norm_sf z)
      /\ prediction out = Some (thr <? z)%float
      /\ confidence out
         = (if (thr <? z)%float then Some (1 - norm_sf z)%float else None)
      /\ (forall t, z_threshold_arg = Some t -> (t =? 0)%float = false ->
          thr = t)
      /\ (forall t, z_threshold_arg = Some t -> (t =? 0)%float = true ->
          z_threshold det = Some thr)
      /\ (z_threshold_arg = None -> z_threshold det = Some thr)
      /\ (forall device tok norms,
            detector_init self device tok (Some default_z_threshold) norms
            = Ok det ->
            (z_threshold_arg = None
             \/ exists t, z_threshold_arg = Some t /\ (t =? 0)%float = true) ->
            thr = 4%float))
  /\ (_compute_z_score (mk_config 10 0.5 true combination normal None)
        60 100 = Ok 2%float
      /\ (4 <? 2)%float = false
      /\ (0 <? 2)%float = true).
Proof.
  intros Hn Hg Hz H. split; [|repeat split; vm_compute; reflexivity].
  unfold detect in H. inv_M.
  match goal with
  | H : _score_sequence _ _ _ _ _ = Ok (?r, _) |- _ =>
      destruct r as [[[sd gr'] ds'] mk'];
      apply score_sequence_Ok in H
        as (acc & ? & ? & dh & _ & _ & _ & _ & _ & HT & HG & HZ)
  end.
  simpl in HT, HG, HZ. rewrite Hn in HT. rewrite Hg in HG.
  destruct (HZ Hz) as (z & Hcz & Hsz & Hp). simpl in Hp.
  apply compute_z_score_Ok in Hcz.
  inv_M. rewrite Hsz, Hp in *.
  destruct (effective_threshold det z_threshold_arg) as [thr|] eqn:Et;
    [|discriminate].
  assert ((forall t, z_threshold_arg = Some t -> (t =? 0)%float = false ->
             thr = t)
          /\ (forall t, z_threshold_arg = Some t -> (t =? 0)%float = true ->
              z_threshold det = Some thr)
          /\ (z_threshold_arg = None -> z_threshold det = Some thr))
    as (Hgiven & Hzero & Hnone).
  { unfold effective_threshold, float_truthy, is_zero in Et.
    change zero with 0%float in Et.
    destruct z_threshold_arg as [t0|].
    - destruct (t0 =? 0)%float eqn:Ezero; simpl in Et.
      + split; [|split; [|done]].
        * intros t [= <-] Hnz. rewrite Ezero in Hnz. discriminate.
        * by intros t [= <-] _.
      + split; [|split; [|done]].
        * intros t [= <-] _. by inversion Et.
        * intros t [= <-] Hz0. rewrite Ezero in Hz0. discriminate.
    - split; [done|]. split; done. }
  assert (forall device tok norms,
            detector_init self device tok (Some default_z_threshold) norms
            = Ok det ->
            (z_threshold_arg = None
             \/ exists t, z_threshold_arg = Some t /\ (t =? 0)%float = true) ->
            thr = 4%float) as Hdefault.
  { intros device tok norms Hinit Hcase.
    assert (z_threshold det = Some default_z_threshold) as Hd.
    { unfold detector_init in Hinit.
      destruct (py_assert device); simpl in Hinit; [|discriminate].
      destruct (py_assert (bool_decide (is_Some tok))); simpl in Hinit;
        [|discriminate].
      destruct (if _ && _ then _ else _) as [mpl|]; simpl in Hinit;
        [|discriminate].
      by inversion Hinit. }
    assert (z_threshold det = Some thr) as Hthr.
    { destruct Hcase as [Hcase|(t & Hcase & Hz0)]; [by apply Hnone|].
      by apply (Hzero t). }
    rewrite Hd in Hthr. by inversion Hthr. }
  clear Et. simplify_eq.
  match goal with
  | H : (if ?c then _ else _) _ = Ok _ |- _ => destruct c eqn:Ec
  end; inv_M; simplify_eq;
    do 5 eexists; simpl; rewrite ?Ec;
    (split; [reflexivity|]); (split; [eassumption|]);
    (split; [eassumption|]); (split; [eassumption|]);
    (split; [eassumption|]); (split; [eassumption|]);
    (split; [reflexivity|]); (split; [reflexivity|]);
    (split; [exact Hgiven|]); (split; [exact Hzero|]);
    (split; [exact Hnone|exact Hdefault]).
Qed.

(** ** The mark string *)

Lemma agree_value {A} (r1 r2 : result (A * wm_state)) :
  agree r1 r2 -> value r1 = value r2.
Proof.
  destruct r1 as [[a s1]|e1], r2 as [[b s2]|e2]; simpl; try contradiction.
  - by intros [-> _].
  - by intros ->.
Qed.

Lemma get_greenlist_ids_needs_rng self input_ids s r s' :
  _get_greenlist_ids self input_ids s = Ok (r, s') -> is_Some (rng s).
Proof.
  unfold _get_greenlist_ids. intros H. inv_M.
  match goal with H : _seed_rng _ _ _ = Ok _ |- _ => rename H into Hs end.
  unfold _seed_rng in Hs. destruct (seeding_scheme self); [|discriminate].
  inv_M. unfold rng_manual_seed in Hs. destruct (rng s); [eauto|discriminate].
Qed.

(** A returning call returns the lists of the step. *)
Lemma get_greenlist_ids_value self input_ids s r s' :
  _get_greenlist_ids self input_ids s = Ok (r, s') ->
  greenlist_of self input_ids = Ok r.
Proof.
  intros H. unfold greenlist_of.
  rewrite <- (agree_value (_get_greenlist_ids self input_ids s)).
  - by rewrite H.
  - apply get_greenlist_ids_agree; [|by eexists].
    by eapply get_greenlist_ids_needs_rng.
Qed.

Lemma scan_step_Ok self tokens idx a s a' s' :
  scan_step self tokens idx a s = Ok (a', s') ->
  exists curr pref markable,
    py_index tokens idx = Ok curr
    /\ score_preferance self tokens idx = Ok pref
    /\ markable_at self tokens idx = Ok markable
    /\ mark a' = mark a ++ [Bool.eqb (tensor_contains curr markable) pref]
    /\ green_token_count a'
       = green_token_count a
         + (if tensor_contains curr markable then 1 else 0).
Proof.
  unfold scan_step. intros H. inv_M.
  match goal with
  | H : _get_greenlist_ids _ _ _ = Ok (?r, _) |- _ =>
      destruct r as [[[green red] gd] rd];
      apply get_greenlist_ids_value in H; rename H into Hv
  end.
  match goal with
  | H1 : py_index tokens idx = Ok ?c, H2 : score_preferance _ _ _ = Ok ?p |- _ =>
      exists c, p, (if p then green else red);
      assert (markable_at self tokens idx = Ok (if p then green else red)) as Hm
        by (unfold markable_at; rewrite H2; simpl; rewrite Hv; by destruct p);
      destruct (tensor_contains c (if p then green else red)) eqn:Ehit
  end; inv_M; simplify_eq; simpl; repeat split; auto;
    try (by match goal with b : bool |- _ => destruct b end);
    try (f_equal; lia).
Qed.

(** The scan appends one mark bit per position it visits. *)
Lemma scan_marks self tokens idxs a s a' s' :
  scan self tokens idxs a s = Ok (a', s') ->
  exists bits,
    mark a' = mark a ++ bits
    /\ length bits = length idxs
    /\ forall k idx, idxs !! k = Some idx ->
         exists curr preferance markable,
           py_index tokens idx = Ok curr
           /\ score_preferance self tokens idx = Ok preferance
           /\ markable_at self tokens idx = Ok markable
           /\ bits !! k
              = Some (Bool.eqb (tensor_contains curr markable) preferance).
Proof.
  revert a s. induction idxs as [|idx idxs IH]; intros a s H; simpl in H.
  - apply ret_Ok in H as [-> _]. exists []. rewrite app_nil_r.
    repeat split; auto. intros k idx Hk. by rewrite lookup_nil in Hk.
  - inv_M.
    match goal with
    | H : scan_step _ _ _ _ _ = Ok _ |- _ =>
        apply scan_step_Ok in H
          as (curr & pref & markable & Hc & Hp & Hm & Hmark & _)
    end.
    apply IH in H as (bits & Hb & Hl & Hall).
    exists (Bool.eqb (tensor_contains curr markable) pref :: bits).
    repeat split.
    + rewrite Hb, Hmark. by rewrite <- app_assoc.
    + simpl. by rewrite Hl.
    + intros [|k] idx' Hk; simpl in Hk.
      * simplify_eq. exists curr, pref, markable. by repeat split.
      * by apply Hall.
Qed.


(** C4, as the code has it.  For every scored position [t], the mark bit
    [_score_sequence] records is the step's preference bit when the observed
    token is in the step's markable set, and the opposite bit when it is
    not: it is ['1'] exactly when membership in the markable set and the
    preference bit coincide. *)
Theorem mark_bit_is_preference_bit_on_hit
  self det tokens flags s sd gr ds mk s' :
  _score_sequence self det tokens flags s = Ok (sd, gr, ds, mk, s') ->
  len mk = len tokens - min_prefix_len det
  /\ forall t, min_prefix_len det <= t < len tokens ->
       exists curr preferance markable,
         py_index tokens t = Ok curr
         /\ score_preferance self tokens t = Ok preferance
         /\ markable_at self tokens t = Ok markable
         /\ mk !! Z.to_nat (t - min_prefix_len det)
            = Some (Bool.eqb (tensor_contains curr markable) preferance).
Proof.
  intros H. apply score_sequence_Ok in H
    as (a & s1 & s2 & dh & _ & Hscan & HT & _ & -> & _).
  apply scan_marks in Hscan as (bits & Hb & Hl & Hall). simpl in Hb.
  subst bits. rewrite length_seqZ in Hl. split; [unfold len in *; lia|].
  intros t Ht. apply Hall. rewrite lookup_seqZ. split; lia.
Qed.

(** ** Bias injection *)

Lemma rmapM_Ok_lookup {A B} (f : A -> result B) l l' i y :
  rmapM f l = Ok l' -> l' !! i = Some y ->
  exists x, l !! i = Some x /\ f x = Ok y.
Proof.
  revert l' i. induction l as [|a l IH]; simpl; intros l' i H Hi.
  - inversion H; subst. by rewrite lookup_nil in Hi.
  - destruct (f a) eqn:Ea; simpl in H; [|discriminate].
    destruct (rmapM f l) eqn:El; simpl in H; [|discriminate].
    inversion H; subst. destruct i as [|i]; simpl in *.
    + inversion Hi; subst. eauto.
    + eauto.
Qed.

Lemma rmapM_Ok_elem_of {A B} (f : A -> result B) l l' y :
  rmapM f l = Ok l' -> y ∈ l' <-> exists x, x ∈ l /\ f x = Ok y.
Proof.
  revert l'. induction l as [|a l IH]; simpl; intros l' H.
  - inversion H; subst. split.
    + intros Hy. by apply elem_of_nil in Hy.
    + intros (x & Hx & _). by apply elem_of_nil in Hx.
  - destruct (f a) eqn:Ea; simpl in H; [|discriminate].
    destruct (rmapM f l) eqn:El; simpl in H; [|discriminate].
    inversion H; subst. rewrite elem_of_cons, (IH _ eq_refl). split.
    + intros [->|(x & Hx & Hf)].
      * exists a. split; [left|done].
      * exists x. split; [by right|done].
    + intros (x & Hx & Hf). apply elem_of_cons in Hx as [->|Hx].
      * left. congruence.
      * right. eauto.
Qed.

(** Setting positions [js] of a mask row. *)
Lemma lookup_fold_insert_true (js : list nat) (row : list bool) j :
  fold_left (fun r k => <[k := true]> r) js row !! j
  = (fun m : bool => m || bool_decide (j ∈ js)) <$> row !! j.
Proof.
  revert row. induction js as [|k js IH]; intros row; simpl.
  - destruct (row !! j) as [m|]; simpl; [|done]. by rewrite orb_false_r.
  - rewrite IH. destruct (decide (k = j)) as [->|Hne].
    + destruct (row !! j) as [m|] eqn:Er.
      * rewrite list_lookup_insert_eq by (by eapply lookup_lt_Some).
        simpl. rewrite (bool_decide_eq_true_2 (j ∈ j :: js)) by left.
        by rewrite orb_true_r.
      * rewrite list_insert_ge by (by apply lookup_ge_None). by rewrite Er.
    + rewrite list_lookup_insert_ne by done.
      destruct (row !! j) as [m|]; simpl; [|done].
      f_equal. f_equal. apply bool_decide_ext. rewrite elem_of_cons.
      split; [by right|]. by intros [->|].
Qed.

Lemma length_fold_insert_true (js : list nat) (row : list bool) :
  length (fold_left (fun r k => <[k := true]> r) js row) = length row.
Proof.
  revert row. induction js as [|k js IH]; intros row; simpl; [done|].
  by rewrite IH, length_insert.
Qed.

Lemma norm_index_nonneg n i :
  0 <= i -> norm_index n i = if i <? n then Ok (Z.to_nat i) else Raise IndexError.
Proof.
  intros Hi. unfold norm_index. destruct (i <? 0) eqn:E; [lia|].
  destruct (0 <=? i) eqn:E2; [|lia]. simpl. done.
Qed.

(** A mask row after [row[ids] = 1], for ids that are not negative: position
    [j] is set exactly when [j] is one of the ids. *)
Lemma mask_set_Ok (row row' : list bool) (ids : list Z) :
  (forall i, i ∈ ids -> 0 <= i) ->
  mask_set row ids = Ok row' ->
  length row' = length row
  /\ forall j, row' !! j
       = (fun m : bool => m || bool_decide (Z.of_nat j ∈ ids)) <$> row !! j.
Proof.
  intros Hpos H. unfold mask_set in H.
  destruct (rmapM _ ids) as [js|] eqn:Ejs; simpl in H; [|discriminate].
  inversion H; subst. split; [apply length_fold_insert_true|].
  intros j. rewrite lookup_fold_insert_true.
  destruct (row !! j) as [m|]; simpl; [|done]. f_equal. f_equal.
  apply bool_decide_ext. rewrite (rmapM_Ok_elem_of _ _ _ j Ejs). split.
  - intros (i & Hi & Hn). rewrite norm_index_nonneg in Hn by auto.
    destruct (i <? len row); [|discriminate]. inversion Hn; subst.
    by rewrite Z2Nat.id by auto.
  - intros Hj. exists (Z.of_nat j). split; [done|].
    destruct (rmapM_Ok_elem _ _ _ _ Ejs Hj) as [k Hk].
    rewrite norm_index_nonneg in Hk |- * by lia.
    destruct (_ <? _); [|discriminate]. by rewrite Nat2Z.id.
Qed.

Lemma py_index_nat {A} (l : list A) (i : nat) x :
  py_index l (Z.of_nat i) = Ok x <-> l !! i = Some x.
Proof.
  unfold py_index. rewrite norm_index_nonneg by lia. unfold len.
  destruct (Z.of_nat i <? Z.of_nat (length l)) eqn:E; simpl.
  - rewrite Nat2Z.id. destruct (l !! i); split; intros H; by inversion H.
  - split; [discriminate|]. intros H. apply lookup_lt_Some in H. lia.
Qed.

(** The mask after the loop of [_calc_greenlist_mask] has run from row [b0]
    over the lists [idss]. *)
Lemma mask_rows_Ok (idss : list (list Z)) (mask mask' : list (list bool)) (b0 : nat) :
  (forall ids i, ids ∈ idss -> i ∈ ids -> 0 <= i) ->
  mask_rows mask (Z.of_nat b0) idss = Ok mask' ->
  length mask' = length mask
  /\ forall b row, mask !! b = Some row ->
       exists row', mask' !! b = Some row'
         /\ length row' = length row
         /\ forall j, row' !! j
              = (fun m : bool =>
                   m || match idss !! (b - b0)%nat with
                        | Some ids =>
                            bool_decide (b0 <= b)%nat
                            && bool_decide (Z.of_nat j ∈ ids)
                        | None => false
                        end) <$> row !! j.
Proof.
  revert mask b0. induction idss as [|ids idss IH]; intros mask b0 Hpos H;
    simpl in H.
  - inversion H; subst. split; [done|].
    intros b row Hb. exists row. repeat split; auto.
    intros j. destruct (row !! j); simpl; [|done]. by rewrite orb_false_r.
  - apply rbind_Ok in H as (k & Hk & H).
    apply rbind_Ok in H as (r0 & Hr0 & H).
    apply rbind_Ok in H as (r0' & Hset & H).
    rewrite norm_index_nonneg in Hk by lia.
    destruct (_ <? _) eqn:Elt; [|discriminate]. inversion Hk; subst k.
    rewrite Nat2Z.id in H. apply py_index_nat in Hr0.
    apply mask_set_Ok in Hset as [Hlen0 Hrow0];
      [|intros i Hi; apply (Hpos ids); [left|done]].
    replace (Z.of_nat b0 + 1) with (Z.of_nat (S b0)) in H by lia.
    apply IH in H as (Hlen & Hrows);
      [|intros ids' i Hi; apply Hpos; by right].
    rewrite length_insert in Hlen.
    split; [done|].
    intros b row Hb. destruct (decide (b = b0)) as [->|Hne].
    + destruct (Hrows b0 r0') as (row' & Hl' & Hlen' & Hj').
      { apply list_lookup_insert_eq. by eapply lookup_lt_Some. }
      rewrite Hr0 in Hb. inversion Hb; subst row.
      exists row'. split; [done|]. split; [congruence|].
      intros j. rewrite Hj', Hrow0. rewrite Nat.sub_diag. simpl.
      replace (b0 - S b0)%nat with 0%nat by lia.
      destruct (r0 !! j) as [m|]; simpl; [|done]. f_equal.
      rewrite (bool_decide_eq_true_2 (b0 <= b0)%nat) by lia. simpl.
      destruct (idss !! 0%nat);
        rewrite ?(bool_decide_eq_false_2 (S b0 <= b0)%nat) by lia; simpl;
        by rewrite orb_false_r.
    + destruct (Hrows b row) as (row' & Hl' & Hlen' & Hj').
      { by rewrite list_lookup_insert_ne. }
      exists row'. repeat split; auto.
      intros j. rewrite Hj'. destruct (row !! j) as [m|]; simpl; [|done].
      f_equal. f_equal.
      destruct (decide (b0 < b)%nat).
      * replace (b - b0)%nat with (S (b - S b0)) by lia. simpl.
        destruct (idss !! _); [|done].
        by rewrite (bool_decide_eq_true_2 (b0 <= b)%nat),
          (bool_decide_eq_true_2 (S b0 <= b)%nat) by lia.
      * replace (b - b0)%nat with 0%nat by lia.
        replace (b - S b0)%nat with 0%nat by lia. simpl.
        rewrite (bool_decide_eq_false_2 (b0 <= b)%nat) by lia. simpl.
        destruct (idss !! 0%nat); [|done].
        by rewrite (bool_decide_eq_false_2 (S b0 <= b)%nat) by lia.
Qed.

(** The mask of [_calc_greenlist_mask]: row [b] marks the ids of the [b]-th
    list, and rows past the lists stay clear. *)
Lemma calc_greenlist_mask_Ok (scores : list (list score))
  (idss : list (list Z)) (mask : list (list bool)) :
  (forall ids i, ids ∈ idss -> i ∈ ids -> 0 <= i) ->
  _calc_greenlist_mask scores idss = Ok mask ->
  length mask = length scores
  /\ forall b srow, scores !! b = Some srow ->
       exists mrow, mask !! b = Some mrow
         /\ length mrow = length srow
         /\ forall j, (j < length srow)%nat ->
              mrow !! j
              = Some match idss !! b with
                     | Some ids => bool_decide (Z.of_nat j ∈ ids)
                     | None => false
                     end.
Proof.
  intros Hpos H. unfold _calc_greenlist_mask in H.
  apply (mask_rows_Ok idss _ mask 0%nat Hpos) in H as [Hlen Hrows].
  rewrite length_fmap in Hlen. split; [done|].
  intros b srow Hb.
  destruct (Hrows b ((fun _ => false) <$> srow)) as (mrow & Hm & Hl & Hj).
  { by rewrite list_lookup_fmap, Hb. }
  rewrite length_fmap in Hl. exists mrow. repeat split; auto.
  intros j Hlt. rewrite Hj, list_lookup_fmap.
  destruct (lookup_lt_is_Some_2 srow j Hlt) as [x ->]. simpl.
  rewrite Nat.sub_0_r. f_equal.
Qed.

Lemma rng_manual_seed_idx_t seed s u s' :
  rng_manual_seed seed s = Ok (u, s') -> idx_t s' = idx_t s.
Proof.
  unfold rng_manual_seed. destruct (rng s); [|discriminate].
  destruct (_ && _); [|discriminate]. intros H. by inversion H.
Qed.

Lemma torch_randperm_idx_t n s p s' :
  torch_randperm n s = Ok (p, s') -> idx_t s' = idx_t s.
Proof.
  unfold torch_randperm. destruct (rng s) as [g|]; [|discriminate].
  destruct (n <? 0); [discriminate|]. destruct (randperm _ g).
  intros H. by inversion H.
Qed.

(** The derivation leaves the step counter alone. *)
Lemma get_greenlist_ids_idx_t self input_ids s r s' :
  _get_greenlist_ids self input_ids s = Ok (r, s') -> idx_t s' = idx_t s.
Proof.
  unfold _get_greenlist_ids, _seed_rng, _seed_depth_rng. intros H. inv_M.
  destruct (seeding_scheme self); [|discriminate]. inv_M.
  match goal with
  | H : match rng ?st with _ => _ end = Ok _ |- _ =>
      destruct (rng st); [|discriminate]; inv_M
  end.
  repeat match goal with
  | H : rng_manual_seed _ _ = Ok _ |- _ => apply rng_manual_seed_idx_t in H
  | H : torch_randperm _ _ = Ok _ |- _ => apply torch_randperm_idx_t in H
  end.
  assert (idx_t s' = idx_t s7) as ->.
  { destruct (gen_mode (args self));
      try (by apply ret_Ok in H as [_ ->]).
    destruct (depth (args self)); [|discriminate]. inv_M. done. }
  assert (idx_t s7 = idx_t s5) as ->.
  { destruct (bool_decide _); inv_M; done. }
  congruence.
Qed.

(** The batch loop of [__call__] collects, row by row, the green list of the
    row's history when the shared preference bit is ['1'], its red list
    when the bit is ['0']. *)
Lemma batch_loop_Ok self preferance rows d s idss d' s' :
  batch_loop self preferance rows d s = Ok (idss, d', s') ->
  length idss = length rows
  /\ idx_t s' = idx_t s
  /\ forall b row, rows !! b = Some row ->
       exists green red gd rd,
         greenlist_of self row = Ok (green, red, gd, rd)
         /\ idss !! b = Some (if preferance then green else red).
Proof.
  revert d s idss d' s'.
  induction rows as [|row rows IH]; intros d s idss d' s' H; simpl in H.
  - apply ret_Ok in H as [H ->]. inversion H; subst. split; [done|].
    split; [done|]. intros b row Hb. by rewrite lookup_nil in Hb.
  - inv_M.
    match goal with
    | H : _get_greenlist_ids _ _ _ = Ok (?r, _) |- _ =>
        destruct r as [[[green red] gd] rd];
        pose proof (get_greenlist_ids_idx_t _ _ _ _ _ H) as Hidx;
        apply get_greenlist_ids_value in H; rename H into Hv
    end.
    inv_M.
    match goal with
    | H : batch_loop _ _ _ _ _ = Ok (?r, _) |- _ =>
        destruct r as [idss0 d0]; apply IH in H as (Hlen & Hidx' & Hrows)
    end.
    simplify_eq. simpl. split; [by rewrite Hlen|]. split; [congruence|].
    intros [|b] row' Hb; simpl in Hb.
    + simplify_eq. by exists green, red, gd, rd.
    + by apply Hrows.
Qed.

(** Ids of a returned green or red list are ids of the vocabulary. *)
Lemma greenlist_of_ids self row green red gd rd i :
  greenlist_of self row = Ok (green, red, gd, rd) ->
  i ∈ green ++ red -> 0 <= i < vocab_size self.
Proof.
  unfold greenlist_of. intros H Hi.
  destruct (_get_greenlist_ids _ _ _) as [[r s']|] eqn:E; [|discriminate].
  simpl in H. inversion H; subst r.
  apply greenlist_partition in E as (Hp & _).
  rewrite Hp in Hi. apply list_elem_of_fmap in Hi as (k & -> & Hk).
  apply elem_of_seq in Hk. lia.
Qed.

Lemma greenlist_of_disjoint self row green red gd rd i :
  greenlist_of self row = Ok (green, red, gd, rd) ->
  i ∈ green -> i ∉ red.
Proof.
  unfold greenlist_of. intros H Hi.
  destruct (_get_greenlist_ids _ _ _) as [[r s']|] eqn:E; [|discriminate].
  simpl in H. inversion H; subst r.
  apply greenlist_partition in E as (_ & Hnd & _).
  apply NoDup_app in Hnd as (_ & Hd & _). by apply Hd.
Qed.

(** Bias locality of the normal mode.  When [__call__] returns, every score
    of row [b] whose id is in the list collected for the row has the bias
    added once, and every other score of the row is as it was.  The list is
    the row's green or red list, picked by the one preference bit the call
    computed from the last row of the batch. *)
Lemma call_normal_Ok self input_ids scores s scores' s' :
  gen_mode (args self) = normal ->
  __call__ self input_ids scores s = Ok (scores', s') ->
  exists preferance bias,
    call_preferance self input_ids = Ok preferance
    /\ greenlist_bias_at self (idx_t s + 1) = Ok bias
    /\ length scores' = length scores
    /\ forall b row srow,
         input_ids !! b = Some row -> scores !! b = Some srow ->
         exists green red gd rd srow',
           greenlist_of self row = Ok (green, red, gd, rd)
           /\ scores' !! b = Some srow'
           /\ forall j, srow' !! j
                = (fun x => if bool_decide
                                 (Z.of_nat j
                                  ∈ (if preferance then green else red))
                            then score_add x bias else x) <$> srow !! j.
Proof.
  intros Hmode H. unfold __call__ in H. inv_M.
  match goal with
  | H : batch_loop _ _ _ _ _ = Ok (?r, _) |- _ =>
      destruct r as [idss d]; apply batch_loop_Ok in H as (Hlen & Hidx & Hrows)
  end.
  rewrite Hmode in H. inv_M.
  match goal with
  | H : call_preferance _ _ = Ok ?p |- _ => rename H into Hpref; rename p into pref
  end.
  match goal with
  | H : _calc_greenlist_mask _ _ = Ok ?m |- _ =>
      rename H into Hmask; rename m into mask
  end.
  assert (forall ids i, ids ∈ idss -> i ∈ ids -> 0 <= i) as Hpos.
  { intros ids i Hids Hi. apply list_elem_of_lookup in Hids as [b Hb].
    assert (b < length input_ids)%nat as Hlt
      by (rewrite <- Hlen; by eapply lookup_lt_Some).
    destruct (lookup_lt_is_Some_2 _ _ Hlt) as [row Hrow].
    destruct (Hrows b row Hrow) as (green & red & gd & rd & Hv & Hb').
    rewrite Hb in Hb'. inversion Hb'; subst ids.
    eapply (greenlist_of_ids self row green red gd rd i Hv).
    apply elem_of_app. destruct pref; auto. }
  apply (calc_greenlist_mask_Ok _ _ _ Hpos) in Hmask as [Hml Hmrows].
  unfold _bias_greenlist_logits in H.
  repeat match goal with
  | H : incr_idx_t _ = Ok _ |- _ => unfold incr_idx_t in H; simplify_eq
  | H : ensure_rng _ = Ok _ |- _ => unfold ensure_rng in H; simplify_eq
  end.
  simpl in Hidx. rewrite Hidx in H. fold (greenlist_bias_at self (idx_t s + 1)) in H.
  destruct (greenlist_bias_at self (idx_t s + 1)) as [bias|] eqn:Eb;
    simpl in H; [|discriminate].
  inversion H; subst. clear H.
  exists pref, bias. repeat split; auto.
  { unfold masked_add. rewrite length_zip_with. lia. }
  intros b row srow Hrow Hsrow.
  destruct (Hrows b row Hrow) as (green & red & gd & rd & Hv & Hids).
  destruct (Hmrows b srow Hsrow) as (mrow & Hm & Hlm & Hmj).
  exists green, red, gd, rd.
  eexists. split; [done|]. split.
  { unfold masked_add. rewrite lookup_zip_with, Hsrow. simpl. by rewrite Hm. }
  intros j. rewrite lookup_zip_with.
  destruct (srow !! j) as [x|] eqn:Ex; simpl; [|done].
  rewrite Hmj by (by eapply lookup_lt_Some). simpl. by rewrite Hids.
Qed.

(** C5, on the code.  [__call__] computes one preference bit, from the last
    row of the batch, and uses it for every row.  For a row whose own
    history gives the other bit, the call returns with the scores of the
    row's own markable set untouched and the bias added to the scores of
    the other list instead. *)
Theorem call_biases_the_other_list_in_a_batch
  self input_ids scores s scores' s' b row srow (own : bool) :
  gen_mode (args self) = normal ->
  __call__ self input_ids scores s = Ok (scores', s') ->
  input_ids !! b = Some row ->
  scores !! b = Some srow ->
  call_preferance self [row] = Ok own ->
  call_preferance self input_ids = Ok (negb own) ->
  exists green red gd rd srow' bias,
    greenlist_of self row = Ok (green, red, gd, rd)
    /\ scores' !! b = Some srow'
    /\ greenlist_bias_at self (idx_t s + 1) = Ok bias
    /\ forall j x, srow !! j = Some x ->
         (Z.of_nat j ∈ (if own then green else red) -> srow' !! j = Some x)
         /\ (Z.of_nat j ∈ (if own then red else green) ->
             srow' !! j = Some (score_add x bias)).
Proof.
  intros Hmode H Hrow Hsrow Hown Hbatch.
  apply call_normal_Ok in H as (pref & bias & Hpref & Hbias & _ & Hrows);
    [|done].
  rewrite Hbatch in Hpref. inversion Hpref; subst pref.
  destruct (Hrows b row srow Hrow Hsrow)
    as (green & red & gd & rd & srow' & Hv & Hs' & Hj).
  exists green, red, gd, rd, srow', bias. repeat split; auto.
  - intros Hin. rewrite Hj, H. simpl. rewrite bool_decide_eq_false_2; [done|].
    destruct own; simpl.
    + by eapply greenlist_of_disjoint.
    + intros Hg. by eapply greenlist_of_disjoint.
  - intros Hin. rewrite Hj, H. simpl. rewrite bool_decide_eq_true_2; [done|].
    by destruct own.
Qed.

(** ** Where the depth chunks do partition *)

Lemma rmapM_app {A B} (f : A -> result B) l1 l2 :
  rmapM f (l1 ++ l2)
  = (let* r1 := rmapM f l1 in let* r2 := rmapM f l2 in Ok (r1 ++ r2)).
Proof.
  induction l1 as [|x l1 IH]; simpl.
  - by destruct (rmapM f l2).
  - destruct (f x); simpl; [|done]. rewrite IH.
    destruct (rmapM f l1); simpl; [|done]. by destruct (rmapM f l2).
Qed.

Lemma rmapM_Permutation {A B} (f : A -> result B) l1 l2 r1 :
  l1 ≡ₚ l2 -> rmapM f l1 = Ok r1 ->
  exists r2, rmapM f l2 = Ok r2 /\ r1 ≡ₚ r2.
Proof.
  intros Hp. revert r1. induction Hp as [|x l1 l2 Hp IH|x y l|l1 l2 l3 Hp1 IH1 Hp2 IH2];
    intros r1 H; simpl in *.
  - eauto.
  - destruct (f x); simpl in *; [|discriminate].
    destruct (rmapM f l1) as [r|]; simpl in *; [|discriminate].
    destruct (IH r eq_refl) as (r2 & -> & Hr). simpl.
    inversion H; subst. eexists. split; [done|]. by constructor.
  - destruct (f y); simpl in *; [|discriminate].
    destruct (f x); simpl in *; [|discriminate].
    destruct (rmapM f l); simpl in *; [|discriminate].
    inversion H; subst. eexists. split; [done|]. apply perm_swap.
  - destruct (IH1 _ H) as (r2 & H2 & Hr2).
    destruct (IH2 _ H2) as (r3 & H3 & Hr3).
    exists r3. split; [done|]. by etrans.
Qed.

(** Indexing a tensor with [0, 1, ..., n - 1] gives its first [n] items. *)
Lemma index_select_seq (t : list Z) (n : nat) :
  (n <= length t)%nat ->
  index_select t (Z.of_nat <$> seq 0 n) = Ok (take n t).
Proof.
  intros Hn. unfold index_select. induction n as [|n IH].
  - simpl. by rewrite take_0.
  - rewrite seq_S, fmap_app, rmapM_app, IH by lia. simpl.
    destruct (lookup_lt_is_Some_2 t n ltac:(lia)) as [x Hx].
    rewrite (proj2 (py_index_nat t n x) Hx). simpl.
    by rewrite (take_S_r _ _ x).
Qed.

(** Indexing with a permutation of all positions permutes the tensor. *)
Lemma index_select_perm (t idx : list Z) :
  idx ≡ₚ Z.of_nat <$> seq 0 (length t) ->
  exists r, index_select t idx = Ok r /\ r ≡ₚ t.
Proof.
  intros Hp. symmetry in Hp.
  destruct (rmapM_Permutation (py_index t) _ _ (take (length t) t) Hp)
    as (r & Hr & Hpr).
  { by apply index_select_seq. }
  exists r. split; [done|]. rewrite <- Hpr. by rewrite firstn_all.
Qed.

(** [l[:-1]] and [l[-1]] make up [l]. *)
Lemma py_slice_init_last {A} (l : list A) x :
  py_index l (-1) = Ok x -> py_slice None (Some (-1)) l ++ [x] = l.
Proof.
  intros H. rewrite py_slice_to. unfold py_index, norm_index in H.
  unfold slice_bound, len in *. simpl in *.
  destruct (_ && _) eqn:E; simpl in H; [|discriminate].
  destruct (l !! _) as [y|] eqn:El; [|discriminate]. inversion H; subst y.
  replace (Z.to_nat (0 `max` (-1 + Z.of_nat (length l))))
    with (Z.to_nat (-1 + Z.of_nat (length l))) by lia.
  rewrite <- (take_S_r _ _ x El).
  apply take_ge. lia.
Qed.

(** The green chunks, and the red chunks in the two cases the code handles.
    In depth mode, for a depth of at least one and [k = int(V *
    gamma)] within [0, V], the green chunks concatenate to a permutation of
    the green list; when the red list is as long as the green one, or one
    longer, the red chunks concatenate to a permutation of the red list. *)
Lemma depth_chunks_partition
  self x k d input_ids s green red gd rd s' :
  gen_mode (args self) = depth_d ->
  depth (args self) = Some d -> 1 <= d ->
  int_mul_float (vocab_size self) (gamma self) = Ok x ->
  py_int x = Ok k ->
  0 <= k <= vocab_size self ->
  _get_greenlist_ids self input_ids s = Ok (green, red, gd, rd, s') ->
  concat gd ≡ₚ green
  /\ (len red = len green \/ len red = len green + 1 -> concat rd ≡ₚ red).
Proof.
  intros Hmode Hdepth Hd Hx Hk Hrange E.
  apply get_greenlist_ids_Ok in E
    as (prev & x' & k' & uid & dg & dr & _ & Hx' & Hk' & Hg & Hr & _ & Hdg & Hred & Hm).
  rewrite Hx in Hx'. simplify_eq. rewrite Hk in Hk'. simplify_eq.
  rewrite Hmode in Hm. destruct Hm as (d' & l & Hd' & Hl & -> & ->).
  rewrite Hdepth in Hd'. inversion Hd'; subst d'. clear Hd'.
  unfold py_floordiv in Hl. destruct (d =? 0) eqn:Ed; [discriminate|].
  inversion Hl; subst l. clear Hl.
  assert (0 <= k' / d) by (apply Z.div_pos; lia).
  rewrite !concat_d_masks_of by done.
  set (perm := perm_of_seed (vocab_size self) (hash_key self * prev)) in *.
  set (green := py_slice None (Some k') perm) in *.
  set (red := py_slice (Some k') None perm) in *.
  set (dperm := perm_of_seed (len green) (hash_key self * uid)) in *.
  assert (dperm ≡ₚ Z.of_nat <$> seq 0 (length green)) as Hdp.
  { unfold dperm. rewrite perm_of_seed_perm. unfold len. by rewrite Nat2Z.id. }
  split.
  - destruct (index_select_perm green dperm Hdp) as (r & Hr' & Hp).
    rewrite Hr' in Hdg. by inversion Hdg; subst.
  - intros [Heq|Hone].
    + rewrite bool_decide_eq_false_2 in Hred by (intros ?; lia).
      assert (length red = length green) as Hlen by (unfold len in Heq; lia).
      rewrite <- Hlen in Hdp.
      destruct (index_select_perm red dperm Hdp) as (r & Hr' & Hp).
      rewrite Hr' in Hred. by inversion Hred; subst.
    + rewrite bool_decide_eq_true_2 in Hred by lia.
      destruct Hred as (r & tail & Hsel & Htail & ->).
      assert (length (py_slice None (Some (-1)) red) = length green) as Hlen.
      { pose proof (len_py_slice_to red (-1)) as Hl.
        unfold slice_bound in Hl. simpl in Hl. unfold len in *. lia. }
      rewrite <- Hlen in Hdp.
      destruct (index_select_perm _ dperm Hdp) as (r' & Hr' & Hp).
      rewrite Hr' in Hsel. inversion Hsel; subst r'. rewrite Hp.
      by rewrite (py_slice_init_last red tail Htail).
Qed.

(** ** Where the depth option is not read *)

Lemma bind_ext {A B} (m1 m2 : M A) (k1 k2 : A -> M B) s :
  m1 s = m2 s -> (forall a s', k1 a s' = k2 a s') ->
  bind m1 k1 s = bind m2 k2 s.
Proof.
  intros Hm Hk. unfold bind. rewrite Hm.
  destruct (m2 s) as [[a s']|]; [apply Hk|done].
Qed.

Lemma get_greenlist_ids_ignores_depth self d input_ids s :
  gen_mode (args self) ≠ depth_d ->
  _get_greenlist_ids (with_depth self d) input_ids s
  = _get_greenlist_ids self input_ids s.
Proof.
  intros Hm. destruct self as [v g dd dl wm ss hk uid [gm dp]]. simpl in Hm.
  unfold _get_greenlist_ids, with_depth. simpl.
  destruct gm; try done.
Qed.

Lemma batch_loop_ignores_depth self d preferance rows dm s :
  gen_mode (args self) ≠ depth_d ->
  batch_loop (with_depth self d) preferance rows dm s
  = batch_loop self preferance rows dm s.
Proof.
  intros Hm. revert dm s. induction rows as [|row rows IH]; intros dm s; simpl.
  - done.
  - apply bind_ext; [by apply get_greenlist_ids_ignores_depth|].
    intros [[[green red] gd] rd] s1. apply bind_ext; [apply IH|done].
Qed.

(** The generator reads the depth in [depth_d] mode only: in the other
    modes [__call__] does the same whatever [args.depth] holds, a missing
    depth included. *)
Lemma call_ignores_depth_outside_depth_d self d input_ids scores s :
  gen_mode (args self) ≠ depth_d ->
  __call__ (with_depth self d) input_ids scores s
  = __call__ self input_ids scores s.
Proof.
  intros Hm. unfold __call__.
  apply bind_ext; [done|]. intros p s1.
  apply bind_ext; [done|]. intros [] s2.
  apply bind_ext; [done|]. intros [] s3.
  apply bind_ext; [by apply batch_loop_ignores_depth|].
  intros [idss dm] s4. simpl. destruct (gen_mode (args self)); done.
Qed.


(** ** Further properties of the derivation *)

Lemma tensor_contains_elem_of x t : tensor_contains x t = true <-> x ∈ t.
Proof.
  unfold tensor_contains. rewrite existsb_exists. split.
  - intros (y & Hy & Hxy). apply Z.eqb_eq in Hxy. subst.
    by apply list_elem_of_In.
  - intros H. exists x. split; [by apply list_elem_of_In|apply Z.eqb_refl].
Qed.

(** X1. Whenever the derivation returns, its green and red lists split the
    vocabulary: together they are a permutation of [0, V) without
    repetition, their lengths add up to V, the green list has
    [int(V * gamma)] ids (clamped like a slice bound), every id of the
    vocabulary is in exactly one of the two lists, and an id outside the
    vocabulary is in neither. *)
Theorem returned_lists_split_vocabulary
  self input_ids s green red gd rd s' :
  _get_greenlist_ids self input_ids s = Ok (green, red, gd, rd, s') ->
  green ++ red ≡ₚ Z.of_nat <$> seq 0 (Z.to_nat (vocab_size self))
  /\ NoDup (green ++ red)
  /\ len green + len red = vocab_size self
  /\ (exists x k, int_mul_float (vocab_size self) (gamma self) = Ok x
        /\ py_int x = Ok k
        /\ len green = slice_bound (vocab_size self) k)
  /\ forall t,
       if bool_decide (0 <= t < vocab_size self)
       then tensor_contains t green = negb (tensor_contains t red)
       else tensor_contains t green = false /\ tensor_contains t red = false.
Proof.
  intros H. destruct (greenlist_partition _ _ _ _ _ _ _ _ H)
    as (Hp & Hnd & Hlen & Hk).
  repeat split; auto. intros t.
  assert (t ∈ green ++ red <-> 0 <= t < vocab_size self) as Hin.
  { rewrite Hp, list_elem_of_fmap. split.
    - intros (j & -> & Hj). apply elem_of_seq in Hj. lia.
    - intros Ht. exists (Z.to_nat t). split; [lia|]. apply elem_of_seq. lia. }
  apply NoDup_app in Hnd as (_ & Hdis & _).
  rewrite elem_of_app in Hin.
  case_bool_decide as Hr.
  - apply Hin in Hr.
    destruct (tensor_contains t green) eqn:Eg, (tensor_contains t red) eqn:Er;
      simpl; auto.
    + apply tensor_contains_elem_of in Eg, Er. exfalso. by apply (Hdis t).
    + exfalso. destruct Hr as [Hg|Hd];
        apply tensor_contains_elem_of in Hg || apply tensor_contains_elem_of in Hd;
        congruence.
  - split.
    + destruct (tensor_contains t green) eqn:Eg; [|done].
      apply tensor_contains_elem_of in Eg. exfalso. apply Hr, Hin. auto.
    + destruct (tensor_contains t red) eqn:Er; [|done].
      apply tensor_contains_elem_of in Er. exfalso. apply Hr, Hin. auto.
Qed.

(** X3. In depth mode, for a depth of at least one and [k = int(V * gamma)]
    within [0, V], a returning derivation cuts the green list into chunks
    that concatenate to a permutation of it, so every green id is in
    exactly one green chunk; when the red list is as long as the green one,
    or one longer, the same holds of the red chunks and the red list. *)
Theorem depth_chunks_cover_their_list
  self x k d input_ids s green red gd rd s' :
  gen_mode (args self) = depth_d ->
  depth (args self) = Some d -> 1 <= d ->
  int_mul_float (vocab_size self) (gamma self) = Ok x ->
  py_int x = Ok k ->
  0 <= k <= vocab_size self ->
  _get_greenlist_ids self input_ids s = Ok (green, red, gd, rd, s') ->
  len gd = d /\ len rd = d
  /\ concat gd ≡ₚ green /\ NoDup (concat gd)
  /\ (len red = len green \/ len red = len green + 1 ->
      concat rd ≡ₚ red /\ NoDup (concat rd)).
Proof.
  intros Hmode Hdepth Hd Hx Hk Hrange E.
  pose proof (greenlist_partition _ _ _ _ _ _ _ _ E) as (_ & Hnd & _).
  apply NoDup_app in Hnd as (Hng & _ & Hnr).
  destruct (depth_chunks_partition _ _ _ _ _ _ _ _ _ _ _
              Hmode Hdepth Hd Hx Hk Hrange E) as [Hg Hr].
  apply get_greenlist_ids_Ok in E
    as (? & ? & ? & ? & dg & dr & _ & _ & _ & _ & _ & _ & _ & _ & Hm).
  rewrite Hmode in Hm. destruct Hm as (d' & l & Hd' & _ & -> & ->).
  rewrite Hdepth in Hd'. inversion Hd'; subst d'.
  unfold d_masks_of, py_range, len. rewrite !length_fmap, !length_seqZ.
  split; [lia|]. split; [lia|]. split; [done|]. split; [by rewrite Hg|].
  intros Hlen. split; [by apply Hr|]. by rewrite (Hr Hlen).
Qed.

(** X4. The partition depends on the hash key and the previous token only
    through their product, the seed: two instances with the same vocabulary
    size and gamma, on histories whose last tokens give the same product
    with the instances' keys, return the same green and red lists. *)
Theorem partition_depends_on_seed_product
  (c1 c2 : config) (ids1 ids2 : list Z) (prev1 prev2 : Z) (s1 s2 : wm_state)
  g1 r1 gd1 rd1 t1 g2 r2 gd2 rd2 t2 :
  vocab_size c1 = vocab_size c2 ->
  gamma c1 = gamma c2 ->
  py_index ids1 (-1) = Ok prev1 ->
  py_index ids2 (-1) = Ok prev2 ->
  hash_key c1 * prev1 = hash_key c2 * prev2 ->
  _get_greenlist_ids c1 ids1 s1 = Ok (g1, r1, gd1, rd1, t1) ->
  _get_greenlist_ids c2 ids2 s2 = Ok (g2, r2, gd2, rd2, t2) ->
  g1 = g2 /\ r1 = r2.
Proof.
  intros Hv Hg Hp1 Hp2 Hseed E1 E2.
  apply get_greenlist_ids_Ok in E1
    as (p1 & x1 & k1 & _ & _ & _ & Hq1 & Hx1 & Hk1 & -> & -> & _).
  apply get_greenlist_ids_Ok in E2
    as (p2 & x2 & k2 & _ & _ & _ & Hq2 & Hx2 & Hk2 & -> & -> & _).
  rewrite Hp1 in Hq1. rewrite Hp2 in Hq2. simplify_eq.
  rewrite Hv, Hg, Hx2 in Hx1. simplify_eq. rewrite Hk2 in Hk1. simplify_eq.
  by rewrite Hseed, Hv.
Qed.

Lemma bind_eq {A B} (m : M A) (k : A -> M B) s a s1 :
  m s = Ok (a, s1) -> bind m k s = k a s1.
Proof. intros H. unfold bind. by rewrite H. Qed.

Lemma index_select_in_range (t idx : list Z) :
  (forall i, i ∈ idx -> 0 <= i < len t) ->
  exists r, index_select t idx = Ok r.
Proof.
  unfold index_select. induction idx as [|i idx IH]; intros H; simpl.
  - eauto.
  - destruct (H i ltac:(left)) as [Hi0 Hi1].
    destruct (lookup_lt_is_Some_2 t (Z.to_nat i)) as [x Hx];
      [unfold len in *; lia|].
    apply py_index_nat in Hx. rewrite Z2Nat.id in Hx by done. rewrite Hx.
    destruct IH as [r ->]; [intros j Hj; apply H; by right|].
    simpl. eauto.
Qed.

Lemma seed_rng_returns self input_ids s g prev :
  seeding_scheme self = simple_1 ->
  py_index input_ids (-1) = Ok prev ->
  rng s = Some g ->
  - 2 ^ 63 <= hash_key self * prev <= 2 ^ 64 - 1 ->
  _seed_rng self input_ids s
  = Ok (tt, {| rng := Some (manual_seed (hash_key self * prev));
               idx_t := idx_t s |}).
Proof.
  intros Hs Hp Hg Hr. unfold _seed_rng. rewrite Hs.
  pose proof (py_index_Ok_bound _ _ _ Hp) as Hb.
  unfold bind, lift. replace (1 <=? len input_ids) with true by lia. simpl.
  rewrite Hp. unfold rng_manual_seed. rewrite Hg.
  by replace ((- 2 ^ 63 <=? hash_key self * prev)
              && (hash_key self * prev <=? 2 ^ 64 - 1)) with true by lia.
Qed.

Lemma torch_randperm_returns n s g :
  rng s = Some g -> 0 <= n ->
  torch_randperm n s
  = Ok ((randperm (Z.to_nat n) g).1,
        {| rng := Some (randperm (Z.to_nat n) g).2; idx_t := idx_t s |}).
Proof.
  intros Hg Hn. unfold torch_randperm. rewrite Hg.
  destruct (n <? 0) eqn:E; [lia|]. by destruct (randperm _ g).
Qed.

Lemma seed_depth_rng_returns self s g :
  rng s = Some g ->
  userid self ≠ [] ->
  - 2 ^ 63 <= hash_key self * bits_value (userid self) <= 2 ^ 64 - 1 ->
  _seed_depth_rng self s
  = Ok (tt, {| rng := Some (manual_seed
                              (hash_key self * bits_value (userid self)));
               idx_t := idx_t s |}).
Proof.
  intros Hg Hu Hr. unfold _seed_depth_rng. rewrite Hg.
  unfold bind, lift, int_base2. destruct (userid self) eqn:Eu; [done|].
  unfold rng_manual_seed. rewrite Hg.
  by replace ((- 2 ^ 63 <=? hash_key self * bits_value (b :: l))
              && (hash_key self * bits_value (b :: l) <=? 2 ^ 64 - 1))
    with true by lia.
Qed.

(** X2. The derivation returns whenever the green list is not longer than
    the red one.  With a generator at hand, a history that is not empty,
    both seeds within the range [manual_seed] accepts, a user id that is not
    empty, [k = int(V * gamma)] with [0 <= k] and [2 * k <= V], and, in
    depth mode, a depth other than zero, [_get_greenlist_ids] returns its
    four lists. *)
Theorem greenlist_ids_returns_when_red_is_not_shorter
  self input_ids s g prev x k :
  seeding_scheme self = simple_1 ->
  rng s = Some g ->
  py_index input_ids (-1) = Ok prev ->
  - 2 ^ 63 <= hash_key self * prev <= 2 ^ 64 - 1 ->
  userid self ≠ [] ->
  - 2 ^ 63 <= hash_key self * bits_value (userid self) <= 2 ^ 64 - 1 ->
  int_mul_float (vocab_size self) (gamma self) = Ok x ->
  py_int x = Ok k ->
  0 <= k -> 2 * k <= vocab_size self ->
  (gen_mode (args self) = depth_d ->
   exists d, depth (args self) = Some d /\ d ≠ 0) ->
  exists green red gd rd s',
    _get_greenlist_ids self input_ids s = Ok (green, red, gd, rd, s').
Proof.
  intros Hs Hg Hp Hr1 Hu Hr2 Hx Hk Hk0 Hk2 Hd.
  assert (0 <= vocab_size self) as HV by (unfold vocab_size, len; lia).
  unfold _get_greenlist_ids.
  erewrite bind_eq by (by eapply seed_rng_returns).
  unfold bind at 1. unfold lift at 1. rewrite Hx.
  unfold bind at 1. unfold lift at 1. rewrite Hk.
  erewrite bind_eq by (by eapply torch_randperm_returns).
  fold (perm_of_seed (vocab_size self) (hash_key self * prev)).
  set (perm := perm_of_seed (vocab_size self) (hash_key self * prev)).
  set (green := py_slice None (Some k) perm).
  set (red := py_slice (Some k) None perm).
  assert (len green = k) as Hlg.
  { unfold green. rewrite len_py_slice_to. unfold perm.
    rewrite len_perm_of_seed by done. apply slice_bound_id. lia. }
  assert (len red = vocab_size self - k) as Hlr.
  { unfold red. rewrite len_py_slice_from. unfold perm.
    rewrite len_perm_of_seed by done. rewrite slice_bound_id; lia. }
  erewrite bind_eq by (by eapply seed_depth_rng_returns).
  erewrite bind_eq by (eapply torch_randperm_returns; [done|lia]).
  fold (perm_of_seed (len green) (hash_key self * bits_value (userid self))).
  set (dperm := perm_of_seed (len green) _).
  assert (forall i, i ∈ dperm -> 0 <= i < k) as Hdp.
  { intros i Hi. apply elem_of_perm_of_seed in Hi. lia. }
  destruct (index_select_in_range green dperm) as [dg Hdg];
    [intros i Hi; apply Hdp in Hi; lia|].
  unfold bind at 1. unfold lift at 1. rewrite Hdg.
  assert (exists dr s1,
    (if bool_decide (len red ≠ len green) then
       r <- lift (index_select (py_slice None (Some (-1)) red) dperm) ;;
       tail <- lift (py_index red (-1)) ;;
       ret (r ++ [tail])
     else lift (index_select red dperm))
      {| rng := Some (randperm (Z.to_nat (len green))
                        (manual_seed (hash_key self * bits_value (userid self)))).2;
         idx_t := idx_t s |} = Ok (dr, s1)) as (dr & s1 & Hdr).
  { case_bool_decide as Hne.
    - destruct (index_select_in_range (py_slice None (Some (-1)) red) dperm)
        as [r Hr].
      { intros i Hi. apply Hdp in Hi. rewrite len_py_slice_to, Hlr.
        unfold slice_bound. simpl. lia. }
      destruct (lookup_lt_is_Some_2 red (length red - 1)) as [tail Ht];
        [unfold len in *; lia|].
      assert (py_index red (-1) = Ok tail) as Hpt.
      { unfold py_index, norm_index. simpl.
        replace ((0 <=? -1 + len red) && (-1 + len red <? len red)) with true
          by (unfold len in *; lia).
        simpl. replace (Z.to_nat (-1 + len red)) with (length red - 1)%nat
          by (unfold len; lia).
        by rewrite Ht. }
      unfold bind, lift. rewrite Hr, Hpt. eauto.
    - destruct (index_select_in_range red dperm) as [r Hr].
      { intros i Hi. apply Hdp in Hi. lia. }
      unfold lift. rewrite Hr. eauto. }
  erewrite bind_eq by exact Hdr.
  destruct (gen_mode (args self)) eqn:Em; try (unfold ret; by eauto 10).
  destruct (Hd eq_refl) as (d & -> & Hd0).
  unfold bind, lift, py_floordiv.
  destruct (d =? 0) eqn:Ed; [lia|]. unfold ret. eauto 10.
Qed.

(** ** Further properties of the bias injection *)

Lemma mask_rows_bound (idss : list (list Z)) (mask mask' : list (list bool))
  (b0 : nat) :
  mask_rows mask (Z.of_nat b0) idss = Ok mask' ->
  idss = [] \/ (b0 + length idss <= length mask)%nat.
Proof.
  revert mask b0. induction idss as [|ids idss IH]; intros mask b0 H; [by left|].
  right. simpl in H.
  apply rbind_Ok in H as (k & Hk & H).
  apply rbind_Ok in H as (r0 & _ & H).
  apply rbind_Ok in H as (r0' & _ & H).
  rewrite norm_index_nonneg in Hk by lia.
  destruct (_ <? _) eqn:Elt; [|discriminate]. clear Hk.
  replace (Z.of_nat b0 + 1) with (Z.of_nat (S b0)) in H by lia.
  apply IH in H as [->|H]; simpl.
  - unfold len in Elt. lia.
  - rewrite length_insert in H. lia.
Qed.

Lemma length_eq_lookup {A B} (l1 : list A) (l2 : list B) :
  (forall j, is_Some (l1 !! j) <-> is_Some (l2 !! j)) ->
  length l1 = length l2.
Proof.
  intros H. destruct (Nat.lt_trichotomy (length l1) (length l2)) as [Hlt|[|Hlt]];
    [|done|].
  - apply lookup_lt_is_Some_2, H, lookup_lt_is_Some_1 in Hlt. lia.
  - apply lookup_lt_is_Some_2, H, lookup_lt_is_Some_1 in Hlt. lia.
Qed.

(** X5. Bias locality of the normal mode.  When [__call__] returns, the
    score matrix keeps its shape and has at least as many rows as the batch;
    in row [b] of the batch the scores whose id is in the list collected for
    the row (its green list when the preference bit of the call is ['1'],
    its red list otherwise) have the bias added once, every other score of
    the row is as it was, and so is every row past the batch.  The bias is
    [delta], or the decayed value at the incremented step counter when
    [decrease_delta] is set. *)
Theorem normal_mode_bias_locality self input_ids scores s scores' s' :
  gen_mode (args self) = normal ->
  __call__ self input_ids scores s = Ok (scores', s') ->
  exists preferance bias,
    call_preferance self input_ids = Ok preferance
    /\ greenlist_bias_at self (idx_t s + 1) = Ok bias
    /\ length scores' = length scores
    /\ (length input_ids <= length scores)%nat
    /\ (forall b row srow,
          input_ids !! b = Some row -> scores !! b = Some srow ->
          exists green red gd rd srow',
            greenlist_of self row = Ok (green, red, gd, rd)
            /\ scores' !! b = Some srow'
            /\ length srow' = length srow
            /\ forall j, srow' !! j
                 = (fun x => if bool_decide
                                  (Z.of_nat j
                                   ∈ (if preferance then green else red))
                             then score_add x bias else x) <$> srow !! j)
    /\ (forall b, (length input_ids <= b)%nat -> scores' !! b = scores !! b).
Proof.
  intros Hmode H.
  destruct (call_normal_Ok _ _ _ _ _ _ Hmode H)
    as (pref & bias & Hpref & Hbias & Hlen & Hrows).
  exists pref, bias. split; [done|]. split; [done|]. split; [done|].
  unfold __call__ in H. inv_M.
  match goal with
  | H : batch_loop _ _ _ _ _ = Ok (?r, _) |- _ =>
      destruct r as [idss d]; apply batch_loop_Ok in H as (Hl & Hidx & Hids)
  end.
  rewrite Hmode in H. inv_M.
  match goal with
  | H2 : call_preferance self input_ids = Ok ?q |- _ =>
      tryif constr_eq q pref then fail
      else (rewrite Hpref in H2; inversion H2; subst q; clear H2)
  end.
  match goal with
  | H : _calc_greenlist_mask _ _ = Ok ?m |- _ =>
      rename H into Hmask; rename m into mask
  end.
  assert (forall ids i, ids ∈ idss -> i ∈ ids -> 0 <= i) as Hpos.
  { intros ids i Hin Hi. apply list_elem_of_lookup in Hin as [b Hb].
    assert (b < length input_ids)%nat as Hlt
      by (rewrite <- Hl; by eapply lookup_lt_Some).
    destruct (lookup_lt_is_Some_2 _ _ Hlt) as [row Hrow].
    destruct (Hids b row Hrow) as (green & red & gd & rd & Hv & Hb').
    rewrite Hb in Hb'. inversion Hb'; subst ids.
    eapply (greenlist_of_ids self row green red gd rd i Hv).
    apply elem_of_app.
    destruct pref; auto. }
  pose proof Hmask as Hbound. unfold _calc_greenlist_mask in Hbound.
  apply (mask_rows_bound idss _ mask 0%nat) in Hbound.
  rewrite length_fmap in Hbound.
  apply (calc_greenlist_mask_Ok _ _ _ Hpos) in Hmask as [Hml Hmrows].
  unfold _bias_greenlist_logits in H.
  match type of H with
  | rbind ?r _ = _ => destruct r as [bias'|]; simpl in H; [|discriminate]
  end.
  inversion H; subst scores'. clear H.
  split; [destruct Hbound as [->|]; simpl in *; lia|]. split.
  - intros b row srow Hrow Hsrow.
    destruct (Hrows b row srow Hrow Hsrow)
      as (green & red & gd & rd & srow' & Hv & Hs' & Hj).
    exists green, red, gd, rd, srow'. repeat split; auto.
    apply length_eq_lookup. intros j. rewrite Hj.
    by rewrite fmap_is_Some.
  - intros b Hb. unfold masked_add. rewrite lookup_zip_with.
    destruct (scores !! b) as [srow|] eqn:Es; simpl; [|done].
    destruct (Hmrows b srow Es) as (mrow & Hm & Hlm & Hj).
    rewrite Hm. simpl. f_equal.
    apply list_eq. intros j. rewrite lookup_zip_with.
    destruct (srow !! j) as [x|] eqn:Ex; simpl; [|done].
    rewrite Hj by (by eapply lookup_lt_Some). simpl.
    rewrite (lookup_ge_None_2 idss b) by lia. done.
Qed.

Lemma torch_randperm_rng n s p s' :
  torch_randperm n s = Ok (p, s') -> is_Some (rng s').
Proof.
  unfold torch_randperm. destruct (rng s) as [g|]; [|discriminate].
  destruct (n <? 0); [discriminate|]. destruct (randperm _ g).
  intros H. inversion H. by eexists.
Qed.

(** A returning derivation leaves a generator behind. *)
Lemma get_greenlist_ids_leaves_rng self input_ids s r s' :
  _get_greenlist_ids self input_ids s = Ok (r, s') -> is_Some (rng s').
Proof.
  unfold _get_greenlist_ids. intros H. inv_M.
  match goal with
  | H1 : torch_randperm (len _) _ = Ok (_, ?st) |- _ =>
      apply torch_randperm_rng in H1; rename H1 into Hr; rename st into sr
  end.
  match goal with
  | H1 : (if bool_decide _ then _ else _) sr = Ok (_, ?st) |- _ =>
      assert (st = sr) as -> by (destruct (bool_decide _); inv_M; done)
  end.
  destruct (gen_mode (args self)); try (by apply ret_Ok in H as [_ ->]).
  destruct (depth (args self)); [|discriminate]. inv_M. done.
Qed.

Lemma batch_loop_leaves_rng self preferance rows d s r s' :
  batch_loop self preferance rows d s = Ok (r, s') ->
  is_Some (rng s) -> is_Some (rng s').
Proof.
  revert d s r s'. induction rows as [|row rows IH]; intros d s r s' H Hs;
    simpl in H.
  - by apply ret_Ok in H as [_ ->].
  - inv_M.
    match goal with
    | H1 : _get_greenlist_ids _ _ _ = Ok (?q, _) |- _ =>
        destruct q as [[[green red] gd] rd];
        apply get_greenlist_ids_leaves_rng in H1
    end.
    inv_M. eauto.
Qed.

(** X6. Every returning call of [__call__] advances the step counter by
    exactly one, whatever the size of the batch, and leaves the instance
    with a generator. *)
Theorem call_advances_step_counter self input_ids scores s scores' s' :
  __call__ self input_ids scores s = Ok (scores', s') ->
  idx_t s' = idx_t s + 1 /\ is_Some (rng s').
Proof.
  intros H. unfold __call__ in H. inv_M.
  repeat match goal with
  | H : incr_idx_t _ = Ok _ |- _ => unfold incr_idx_t in H; simplify_eq
  | H : ensure_rng _ = Ok _ |- _ => unfold ensure_rng in H; simplify_eq
  end.
  match goal with
  | H1 : batch_loop _ _ _ _ _ = Ok (?r, ?st) |- _ =>
      destruct r as [idss d];
      pose proof (batch_loop_leaves_rng _ _ _ _ _ _ _ H1
                    ltac:(by eexists)) as Hrng;
      apply batch_loop_Ok in H1 as (_ & Hidx & _)
  end.
  simpl in Hidx.
  destruct (gen_mode (args self)).
  - inv_M. unfold _bias_greenlist_logits in H.
    match type of H with
    | rbind ?r _ = _ => destruct r; simpl in H; [|discriminate]
    end.
    by inversion H; subst.
  - destruct d; [|discriminate]. by apply lift_Ok in H as [_ ->].
  - inv_M.
  - discriminate.
Qed.

(** ** What the generator does not read *)

Lemma get_greenlist_ids_ignores_delta self d b input_ids s :
  _get_greenlist_ids (with_delta (with_decrease_delta self b) d) input_ids s
  = _get_greenlist_ids self input_ids s.
Proof. by destruct self. Qed.

Lemma batch_loop_ignores_delta self d b preferance rows dm s :
  batch_loop (with_delta (with_decrease_delta self b) d) preferance rows dm s
  = batch_loop self preferance rows dm s.
Proof.
  revert dm s. induction rows as [|row rows IH]; intros dm s; simpl; [done|].
  apply bind_ext; [apply get_greenlist_ids_ignores_delta|].
  intros [[[green red] gd] rd] s1. apply bind_ext; [apply IH|done].
Qed.

(** X7. With [decrease_delta] set, the default, the configured [delta] is
    never used outside the depth mode: [__call__] does the same for every
    value of [delta]. *)
Theorem decrease_delta_overrides_delta self d input_ids scores s :
  decrease_delta self = true ->
  gen_mode (args self) ≠ depth_d ->
  __call__ (with_delta self d) input_ids scores s
  = __call__ self input_ids scores s.
Proof.
  intros Hdd Hm. unfold __call__.
  apply bind_ext; [done|]. intros p s1.
  apply bind_ext; [done|]. intros [] s2.
  apply bind_ext; [done|]. intros [] s3.
  apply bind_ext.
  { rewrite <- (batch_loop_ignores_delta self d (decrease_delta self)).
    by destruct self. }
  intros [idss dm] s4. simpl.
  destruct (gen_mode (args self)); try done.
  apply bind_ext; [done|]. intros mask s5.
  unfold _bias_greenlist_logits. simpl. by rewrite Hdd.
Qed.

(** X8. The depth mode does not look at [decrease_delta]: the chunks are
    biased from the configured [delta] whether the decay is set or not. *)
Theorem depth_mode_ignores_decrease_delta self b input_ids scores s :
  gen_mode (args self) = depth_d ->
  __call__ (with_decrease_delta self b) input_ids scores s
  = __call__ self input_ids scores s.
Proof.
  intros Hm. unfold __call__.
  apply bind_ext; [done|]. intros p s1.
  apply bind_ext; [done|]. intros [] s2.
  apply bind_ext; [done|]. intros [] s3.
  apply bind_ext.
  { rewrite <- (batch_loop_ignores_delta self (delta self) b).
    by destruct self. }
  intros [idss dm] s4. simpl. by rewrite Hm.
Qed.

(** X9. The generator reads the depth option in depth mode only: in every
    other mode [__call__] does the same whatever [args.depth] holds, a
    depth that was not supplied included. *)
Theorem generator_reads_depth_in_depth_mode_only
  self d input_ids scores s :
  gen_mode (args self) ≠ depth_d ->
  __call__ (with_depth self d) input_ids scores s
  = __call__ self input_ids scores s.
Proof. apply call_ignores_depth_outside_depth_d. Qed.

Lemma batch_loop_last self preferance rows d s idss d' s' :
  batch_loop self preferance rows d s = Ok (idss, d', s') ->
  rows ≠ [] ->
  exists row green red gd rd,
    last rows = Some row
    /\ greenlist_of self row = Ok (green, red, gd, rd)
    /\ d' = Some (if preferance then gd else rd).
Proof.
  revert d s idss d' s'.
  induction rows as [|row rows IH]; intros d s idss d' s' H Hne; [done|].
  simpl in H. inv_M.
  match goal with
  | H1 : _get_greenlist_ids _ _ _ = Ok (?q, _) |- _ =>
      destruct q as [[[green red] gd] rd];
      apply get_greenlist_ids_value in H1; rename H1 into Hv
  end.
  inv_M.
  match goal with
  | H1 : batch_loop _ _ _ _ _ = Ok (?q, _) |- _ =>
      destruct q as [idss0 d0]; rename H1 into Hb
  end.
  simplify_eq. simpl.
  destruct rows as [|row' rows].
  - simpl in Hb. apply ret_Ok in Hb as [Hb _]. inversion Hb; subst.
    by exists row, green, red, gd, rd.
  - apply IH in Hb as (r & g' & r' & gd' & rd' & Hl & Hv' & ->); [|done].
    exists r, g', r', gd', rd'. by repeat split.
Qed.

Lemma py_index_last {A} (l : list A) :
  py_index l (-1) = match last l with Some x => Ok x | None => Raise IndexError end.
Proof.
  destruct (last l) as [x|] eqn:El.
  - rewrite last_lookup in El. unfold py_index, norm_index, len. simpl.
    pose proof (lookup_lt_Some _ _ _ El).
    replace ((0 <=? -1 + Z.of_nat (length l))
             && (-1 + Z.of_nat (length l) <? Z.of_nat (length l)))
      with true by lia.
    simpl. replace (Z.to_nat (-1 + Z.of_nat (length l))) with (pred (length l))
      by lia.
    by rewrite El.
  - apply last_None in El. subst. apply py_index_nil.
Qed.

(** X10. In depth mode the scores returned depend on the batch only through
    its last row and its number of rows: two batches of the same size with
    the same last row, on the same scores, get the same biased scores,
    whatever the other rows hold. *)
Theorem depth_mode_bias_depends_on_last_row
  self (ids1 ids2 : list (list Z)) scores s1 s2 r1 t1 r2 t2 :
  gen_mode (args self) = depth_d ->
  length ids1 = length ids2 ->
  last ids1 = last ids2 ->
  __call__ self ids1 scores s1 = Ok (r1, t1) ->
  __call__ self ids2 scores s2 = Ok (r2, t2) ->
  r1 = r2.
Proof.
  intros Hm Hlen Hlast H1 H2.
  assert (call_preferance self ids1 = call_preferance self ids2) as Hcp.
  { unfold call_preferance. rewrite !py_index_last, Hlast. done. }
  assert (forall ids sc s r t,
    __call__ self ids sc s = Ok (r, t) ->
    exists p row green red gd rd,
      call_preferance self ids = Ok p
      /\ last ids = Some row
      /\ greenlist_of self row = Ok (green, red, gd, rd)
      /\ bias_chunks sc (len ids) (if p then gd else rd) 0 (delta self)
         = Ok r) as Hchar.
  { clear - Hm. intros ids sc s r t H. unfold __call__ in H. inv_M.
    match goal with
    | H : batch_loop _ _ _ _ _ = Ok (?q, _) |- _ =>
        destruct q as [idss d];
        pose proof (batch_loop_Ok _ _ _ _ _ _ _ _ H) as (Hl & _ & _);
        apply batch_loop_last in H as (row & g & r' & gd & rd & Hla & Hv & ->)
    end.
    - rewrite Hm in H. apply lift_Ok in H as [H _].
      unfold _bias_depth_d_logits, len in H. rewrite Hl in H.
      do 6 eexists. eauto.
    - intros ->.
      match goal with
      | H : call_preferance _ [] = Ok _ |- _ =>
          unfold call_preferance in H; rewrite py_index_nil in H;
          destruct (wm_mode self); discriminate
      end. }
  apply Hchar in H1 as (p1 & row1 & g1 & d1 & gd1 & rd1 & Hp1 & Hl1 & Hv1 & Hb1).
  apply Hchar in H2 as (p2 & row2 & g2 & d2 & gd2 & rd2 & Hp2 & Hl2 & Hv2 & Hb2).
  rewrite Hcp, Hp2 in Hp1. inversion Hp1; subst p2.
  rewrite Hlast, Hl2 in Hl1. inversion Hl1; subst row2.
  rewrite Hv2 in Hv1. inversion Hv1; subst.
  unfold len in *. rewrite Hlen, Hb2 in Hb1. by inversion Hb1.
Qed.

(** ** Further properties of the detector *)

Lemma count_true_bound l : 0 <= count_true l <= len l.
Proof.
  unfold len. induction l as [|b l IH]; simpl; [lia|]. destruct b; lia.
Qed.

Lemma scan_step_hits self tokens idx a s a' s' :
  scan_step self tokens idx a s = Ok (a', s') ->
  exists curr pref markable,
    py_index tokens idx = Ok curr
    /\ score_preferance self tokens idx = Ok pref
    /\ markable_at self tokens idx = Ok markable
    /\ mark a' = mark a ++ [Bool.eqb (tensor_contains curr markable) pref]
    /\ green_token_mask_acc a'
       = green_token_mask_acc a ++ [tensor_contains curr markable]
    /\ green_token_count a'
       = green_token_count a
         + (if tensor_contains curr markable then 1 else 0).
Proof.
  unfold scan_step. intros H. inv_M.
  match goal with
  | H : _get_greenlist_ids _ _ _ = Ok (?r, _) |- _ =>
      destruct r as [[[green red] gd] rd];
      apply get_greenlist_ids_value in H; rename H into Hv
  end.
  match goal with
  | H1 : py_index tokens idx = Ok ?c, H2 : score_preferance _ _ _ = Ok ?p |- _ =>
      exists c, p, (if p then green else red);
      assert (markable_at self tokens idx = Ok (if p then green else red)) as Hm
        by (unfold markable_at; rewrite H2; simpl; rewrite Hv; by destruct p);
      destruct (tensor_contains c (if p then green else red)) eqn:Ehit
  end; inv_M; simplify_eq; simpl; repeat split; auto;
    try (by match goal with b : bool |- _ => destruct b end);
    try (f_equal; lia).
Qed.

(** The scan, position by position: hits, marks and the count. *)
Lemma scan_hits self tokens idxs a s a' s' :
  scan self tokens idxs a s = Ok (a', s') ->
  exists hits,
    length hits = length idxs
    /\ green_token_mask_acc a' = green_token_mask_acc a ++ hits
    /\ green_token_count a' = green_token_count a + count_true hits
    /\ forall k idx, idxs !! k = Some idx ->
         exists curr pref markable,
           py_index tokens idx = Ok curr
           /\ score_preferance self tokens idx = Ok pref
           /\ markable_at self tokens idx = Ok markable
           /\ hits !! k = Some (tensor_contains curr markable)
           /\ mark a' !! (length (mark a) + k)%nat
              = Some (Bool.eqb (tensor_contains curr markable) pref).
Proof.
  revert a s. induction idxs as [|idx idxs IH]; intros a s H; simpl in H.
  - apply ret_Ok in H as [-> _]. exists []. rewrite app_nil_r. simpl.
    repeat split; auto; [lia|]. intros k idx Hk. by rewrite lookup_nil in Hk.
  - inv_M.
    match goal with
    | H : scan_step _ _ _ _ _ = Ok _ |- _ =>
        pose proof (scan_step_hits _ _ _ _ _ _ _ H)
          as (curr & pref & markable & Hc & Hp & Hm & Hmark & Hmask & Hcount)
    end.
    pose proof (scan_marks _ _ _ _ _ _ _ H) as (bits & Hbits & _).
    apply IH in H as (hits & Hl & Hmk & Hct & Hall).
    exists (tensor_contains curr markable :: hits). repeat split.
    + simpl. by rewrite Hl.
    + rewrite Hmk, Hmask. by rewrite <- app_assoc.
    + rewrite Hct, Hcount. simpl. lia.
    + intros [|k] idx' Hk; simpl in Hk.
      * simplify_eq. exists curr, pref, markable. repeat split; auto.
        rewrite Hbits, Hmark, Nat.add_0_r.
        rewrite <- app_assoc. simpl.
        by rewrite lookup_app_r, Nat.sub_diag by lia.
      * destruct (Hall k idx' Hk) as (c' & p' & m' & ? & ? & ? & ? & Hmk').
        exists c', p', m'. repeat split; auto.
        rewrite Hmark, length_app in Hmk'. simpl in Hmk'.
        by replace (length (mark a) + S k)%nat
          with (length (mark a) + 1 + k)%nat by lia.
Qed.

(** Everything a returning [_score_sequence] hands back, in terms of the
    scan. *)
Lemma score_sequence_Ok_fields self det input_ids flags s sd gr ds mk s' :
  _score_sequence self det input_ids flags s = Ok (sd, gr, ds, mk, s') ->
  exists a s1 s2 depth_hit0,
    scan self input_ids
         (seqZ (min_prefix_len det) (len input_ids - min_prefix_len det))
         {| green_token_count := 0; green_token_mask_acc := [];
            depth_hit := depth_hit0; mark := [] |} s1 = Ok (a, s2)
    /\ 1 <= len input_ids - min_prefix_len det
    /\ mk = mark a
    /\ int_truediv (green_token_count a)
                   (len input_ids - min_prefix_len det) = Ok gr
    /\ num_tokens_scored sd
       = (if return_num_tokens_scored flags
          then Some (len input_ids - min_prefix_len det) else None)
    /\ num_green_tokens sd
       = (if return_num_green_tokens flags
          then Some (green_token_count a) else None)
    /\ green_fraction sd = (if return_green_fraction flags then Some gr else None)
    /\ green_token_mask sd
       = (if return_green_token_mask flags
          then Some (green_token_mask_acc a) else None)
    /\ (return_z_score flags = false -> z_score sd = None).
Proof.
  unfold _score_sequence. intros H. inv_M.
  destruct (_ <? 1) eqn:Elen; [discriminate|].
  destruct (gen_mode (args self)) eqn:Em; try discriminate.
  inv_M. simplify_eq.
  do 4 eexists. repeat split; eauto; [lia| |].
  - destruct (return_green_fraction flags); inv_M; simplify_eq; [|done].
    match goal with
    | H1 : int_truediv ?x ?y = Ok ?u, H2 : int_truediv ?x ?y = Ok ?v |- _ =>
        rewrite H1 in H2; by inversion H2
    end.
  - intros Hz. rewrite Hz in *. by inv_M; simplify_eq.
Qed.

(** ** Outcomes of [detect] *)

(** X11. Outside the [depth_d] mode [detect] never returns, whatever it is
    given: [_score_sequence] reaches its [return] with [total_loss]
    unbound, or has raised before. *)
Theorem detect_never_returns_outside_depth_d
  self det text ids rp rs thr kw s :
  gen_mode (args self) ≠ depth_d ->
  exists e, detect self det text ids rp rs thr kw s = Raise e.
Proof.
  intros Hm.
  destruct (detect self det text ids rp rs thr kw s) as [[r s']|e] eqn:E;
    [exfalso|eauto].
  unfold detect in E. inv_M.
  match goal with
  | H : _score_sequence _ _ ?t ?f ?s0 = Ok _ |- _ =>
      destruct (score_sequence_raises_outside_depth_d self det t f s0 Hm)
        as [e He]; rewrite He in H; discriminate
  end.
Qed.

(** X12. The first normalizer is called on the absent text when token ids
    alone are given: what it raises on [None] is the outcome of [detect],
    before the ids are looked at. *)
Theorem detect_normalizes_absent_text
  self det normalizer rest e ids rp rs thr kw s :
  normalizers det = normalizer :: rest ->
  normalizer None = Raise e ->
  detect self det None (Some ids) rp rs thr kw s = Raise e.
Proof.
  intros Hn He. apply detect_ids_alone_runs_normalizers.
  rewrite Hn. simpl. by rewrite He.
Qed.

Lemma starts_with_bos_cons tok b rest :
  bos_token_id tok = Some b -> starts_with_bos tok (b :: rest) = Ok true.
Proof.
  intros Hb. unfold starts_with_bos, py_index, norm_index.
  assert ((0 <? len (b :: rest)) = true) as Hl
    by (apply Z.ltb_lt; unfold len; simpl; lia).
  change (0 <? 0) with false. cbv iota. change (0 <=? 0) with true.
  rewrite Hl. simpl. by rewrite Hb, Z.eqb_refl.
Qed.

Lemma py_slice_from_1_cons {A} (x : A) l : py_slice (Some 1) None (x :: l) = l.
Proof.
  rewrite py_slice_from.
  assert (slice_bound (len (x :: l)) 1 = 1) as ->
    by (unfold slice_bound, len; simpl; lia).
  done.
Qed.

(** X13. One leading BOS token is dropped before scoring: with a tokenizer
    whose BOS id is [b], [detect] on [b :: rest] does what it does on
    [rest], provided [rest] is not empty and does not start with [b]
    itself. *)
Theorem detect_strips_one_leading_bos
  self det tok b rest r0 rp rs thr kw s :
  tokenizer det = Some tok ->
  bos_token_id tok = Some b ->
  py_index rest 0 = Ok r0 -> r0 ≠ b ->
  detect self det None (Some (b :: rest)) rp rs thr kw s
  = detect self det None (Some rest) rp rs thr kw s.
Proof.
  intros Ht Hb Hr Hne. unfold detect.
  apply bind_ext; [done|]. intros [] s1.
  apply bind_ext; [done|]. intros text' s2.
  apply bind_ext; [|done].
  rewrite Ht. unfold bind, lift.
  rewrite (starts_with_bos_cons _ _ _ Hb).
  unfold starts_with_bos. rewrite Hr. simpl. rewrite Hb.
  assert ((r0 =? b) = false) as -> by (apply Z.eqb_neq; done).
  unfold ret. by rewrite py_slice_from_1_cons.
Qed.

(** X14. Too few tokens: when what is left of the ids after the BOS check
    is no longer than [min_prefix_len], [detect] raises [ValueError]. *)
Theorem detect_raises_on_too_short_ids
  self det tok ids bos text' rp rs thr kw s :
  tokenizer det = Some tok ->
  run_normalizers (normalizers det) None = Ok text' ->
  starts_with_bos tok ids = Ok bos ->
  len (if bos then py_slice (Some 1) None ids else ids) <= min_prefix_len det ->
  detect self det None (Some ids) rp rs thr kw s = Raise ValueError.
Proof.
  intros Ht Hn Hb Hlen. unfold detect.
  unfold bind at 1. simpl. unfold bind at 1. rewrite Hn. simpl.
  unfold bind at 1. rewrite Ht. unfold bind at 1. unfold lift at 1.
  rewrite Hb. simpl. unfold ret at 1.
  unfold _score_sequence. unfold bind at 1.
  match goal with
  | |- context [?x <? 1] => assert ((x <? 1) = true) as -> by (apply Z.ltb_lt; lia)
  end.
  reflexivity.
Qed.

(** X15. What [_score_sequence] reports is one hit indicator per scored
    position: the entry for position [t] tells whether the token at [t] is
    in the markable set of its step; [num_tokens_scored] is the number of
    positions from [min_prefix_len] on, [num_green_tokens] the number of
    hits, between 0 and that number, [green_token_mask] the indicators
    themselves, and [green_fraction] and the second component of the
    result both their quotient. *)
Theorem score_sequence_counts_hits
  self det tokens flags s sd gr ds mk s' :
  _score_sequence self det tokens flags s = Ok (sd, gr, ds, mk, s') ->
  exists hits,
    len hits = len tokens - min_prefix_len det
    /\ (forall t, min_prefix_len det <= t < len tokens ->
          exists curr markable,
            py_index tokens t = Ok curr
            /\ markable_at self tokens t = Ok markable
            /\ hits !! Z.to_nat (t - min_prefix_len det)
               = Some (tensor_contains curr markable))
    /\ 0 <= count_true hits <= len hits
    /\ num_tokens_scored sd
       = (if return_num_tokens_scored flags then Some (len hits) else None)
    /\ num_green_tokens sd
       = (if return_num_green_tokens flags
          then Some (count_true hits) else None)
    /\ green_token_mask sd
       = (if return_green_token_mask flags then Some hits else None)
    /\ int_truediv (count_true hits) (len hits) = Ok gr
    /\ green_fraction sd
       = (if return_green_fraction flags then Some gr else None).
Proof.
  intros H. apply score_sequence_Ok_fields in H
    as (a & s1 & s2 & dh & Hscan & HT & _ & Hgr & Hn & Hg & Hf & Hmask & _).
  apply scan_hits in Hscan as (hits & Hl & Hm & Hc & Hall).
  simpl in Hm, Hc. rewrite length_seqZ in Hl.
  assert (len hits = len tokens - min_prefix_len det) as Hlen
    by (unfold len in *; lia).
  rewrite Hm in Hmask.
  replace (green_token_count a) with (count_true hits) in * by lia.
  pose proof (count_true_bound hits).
  exists hits. rewrite Hlen. repeat split; auto; try lia.
  intros t Ht.
  destruct (Hall (Z.to_nat (t - min_prefix_len det)) t)
    as (curr & pref & markable & ? & ? & ? & ? & _).
  { rewrite lookup_seqZ. split; lia. }
  eauto.
Qed.

(** X16. The prefix length [__init__] picks is the one the preference
    replay needs.  A detector is only built with a device and a tokenizer,
    its prefix length is 1 for [previous1] with [simple_1], 2 for
    [combination]; and from that position on the replay of the
    preference bit never raises and never reads before the start of the
    sequence, given a user id that is not empty. *)
Theorem detector_init_prefix_covers_replay
  self device tok z_thr norms det tokens idx :
  detector_init self device tok z_thr norms = Ok det ->
  userid self ≠ [] ->
  min_prefix_len det <= idx < len tokens ->
  device = true /\ is_Some tok /\ tokenizer det = tok
  /\ z_threshold det = z_thr
  /\ ((wm_mode self = previous1 /\ seeding_scheme self = simple_1
       /\ min_prefix_len det = 1)
      \/ (wm_mode self = combination /\ min_prefix_len det = 2))
  /\ exists k b,
       0 <= k < len (userid self)
       /\ userid self !! Z.to_nat k = Some b
       /\ score_preferance self tokens idx = Ok b
       /\ match wm_mode self with
          | previous1 =>
              exists t1, tokens !! Z.to_nat (idx - 1) = Some t1
                         /\ k = t1 mod len (userid self)
          | combination =>
              exists t1 t2, tokens !! Z.to_nat (idx - 1) = Some t1
                            /\ tokens !! Z.to_nat (idx - 2) = Some t2
                            /\ k = wrap64 (t1 * t2) mod len (userid self)
          | wm_mode_other => False
          end.
Proof.
  intros H Hu Hidx. unfold detector_init in H.
  destruct device; [|discriminate]. simpl in H.
  destruct tok as [tok|]; [|discriminate]. simpl in H.
  assert (0 < len (userid self)) as Hn.
  { unfold len. destruct (userid self); [done|simpl; lia]. }
  assert (forall i, 0 <= i < len tokens ->
            exists x, tokens !! Z.to_nat i = Some x /\ py_index tokens i = Ok x)
    as Hget.
  { intros i Hi. destruct (lookup_lt_is_Some_2 tokens (Z.to_nat i)) as [x Hx].
    { unfold len in Hi. lia. }
    exists x. split; [done|]. unfold py_index, norm_index.
    destruct (i <? 0) eqn:E; [lia|].
    assert ((0 <=? i) && (i <? len tokens) = true) as ->
      by (apply andb_true_iff; split; [apply Z.leb_le|apply Z.ltb_lt]; lia).
    simpl. by rewrite Hx. }
  assert (forall k, 0 <= k < len (userid self) ->
            exists b, userid self !! Z.to_nat k = Some b
                      /\ userid_at self k = Ok b) as Hbit.
  { intros k Hk. destruct (lookup_lt_is_Some_2 (userid self) (Z.to_nat k))
      as [b Hb]. { unfold len in Hk. lia. }
    exists b. split; [done|]. unfold userid_at, py_index, norm_index.
    destruct (k <? 0) eqn:E; [lia|].
    assert ((0 <=? k) && (k <? len (userid self)) = true) as ->
      by (apply andb_true_iff; split; [apply Z.leb_le|apply Z.ltb_lt]; lia).
    simpl. by rewrite Hb. }
  destruct (wm_mode self) eqn:Ew; simpl in H.
  - destruct (bool_decide (seeding_scheme self = simple_1)) eqn:Es;
      simpl in H; [|discriminate].
    apply bool_decide_eq_true in Es. inversion H; subst det; clear H.
    simpl in *. repeat split; eauto.
    destruct (Hget (idx - 1)) as (t1 & Ht1 & Hp1); [lia|].
    destruct (Hbit (t1 mod len (userid self))) as (b & Hb & Hub).
    { apply Z.mod_pos_bound. lia. }
    exists (t1 mod len (userid self)), b. repeat split; auto.
    + apply Z.mod_pos_bound. lia.
    + apply Z.mod_pos_bound. lia.
    + unfold score_preferance. rewrite Ew, Hp1. simpl. unfold tensor_mod.
      destruct (len (userid self) =? 0) eqn:E0; [lia|]. simpl. done.
    + eauto.
  - rewrite andb_false_r in H. simpl in H.
    inversion H; subst det; clear H. simpl in *. repeat split; eauto.
    destruct (Hget (idx - 1)) as (t1 & Ht1 & Hp1); [lia|].
    destruct (Hget (idx - 2)) as (t2 & Ht2 & Hp2); [lia|].
    destruct (Hbit (wrap64 (t1 * t2) mod len (userid self))) as (b & Hb & Hub).
    { apply Z.mod_pos_bound. lia. }
    exists (wrap64 (t1 * t2) mod len (userid self)), b. repeat split; auto.
    + apply Z.mod_pos_bound. lia.
    + apply Z.mod_pos_bound. lia.
    + unfold score_preferance. rewrite Ew, Hp1. simpl. rewrite Hp2. simpl.
      unfold tensor_mod.
      destruct (len (userid self) =? 0) eqn:E0; [lia|]. simpl. done.
    + eauto.
  - rewrite andb_false_r in H. discriminate.
Qed.

(** X17. A threshold argument of zero is not used: [z_threshold if
    z_threshold else self.z_threshold] takes it for a missing one, and
    [detect] decides with the threshold of the instance. *)
Theorem detect_zero_threshold_is_the_default
  self det text ids rp rs t kw s :
  float_truthy t = false ->
  detect self det text ids rp rs (Some t) kw s
  = detect self det text ids rp rs None kw s.
Proof.
  intros Ht. unfold detect, effective_threshold. by rewrite Ht.
Qed.

(** X18. A prediction needs the z-score in the score dictionary: asked for
    a prediction with [return_z_score=False], [detect] never returns. *)
Theorem detect_prediction_needs_z_score self det text ids rs thr kw s :
  return_z_score kw = false ->
  exists e, detect self det text ids true rs thr kw s = Raise e.
Proof.
  intros Hz.
  destruct (detect self det text ids true rs thr kw s) as [[r s']|e] eqn:E;
    [exfalso|eauto].
  unfold detect in E. inv_M.
  match goal with
  | H : _score_sequence _ _ _ _ _ = Ok (?r, _) |- _ =>
      destruct r as [[[sd gr'] ds'] mk'];
      apply score_sequence_Ok_fields in H
        as (? & ? & ? & ? & _ & _ & _ & _ & _ & _ & _ & _ & HZ)
  end.
  simpl in HZ. specialize (HZ Hz). inv_M. rewrite HZ in *. discriminate.
Qed.

(** ** The depth-weighted bias, cell by cell *)

Section BiasCells.
Variable d : float.

Lemma fold_insert_pairs (row : list score) (ps : list (nat * score))
  (r : list score) :
  length r = length row ->
  (forall j v, (j, v) ∈ ps -> row !! j = Some v) ->
  length (fold_left (fun r '(j, v) => <[j := score_add v d]> r) ps r)
  = length row
  /\ forall j',
       fold_left (fun r '(j, v) => <[j := score_add v d]> r) ps r !! j'
       = if bool_decide (j' ∈ ps.*1)
         then (fun x => score_add x d) <$> row !! j' else r !! j'.
Proof.
  revert r. induction ps as [|[j v] ps IH]; intros r Hlen Hps.
  - simpl. by split.
  - rewrite fmap_cons. cbn [fold_left fst].
    destruct (IH (<[j := score_add v d]> r)) as [IH1 IH2].
    { by rewrite length_insert. }
    { intros j0 v0 H0. apply Hps. by right. }
    split; [done|]. intros j'. rewrite IH2.
    destruct (decide (j' ∈ ps.*1)) as [Hin|Hout].
    + rewrite !bool_decide_eq_true_2; [done| |done]. by right.
    + rewrite (bool_decide_eq_false_2 _ Hout).
      destruct (decide (j' = j)) as [->|Hne].
      * rewrite bool_decide_eq_true_2 by left.
        rewrite (Hps j v) by left. simpl.
        apply list_lookup_insert_eq.
        rewrite Hlen. eapply lookup_lt_Some, Hps. left.
      * rewrite bool_decide_eq_false_2.
        -- by rewrite list_lookup_insert_ne.
        -- intros Hin. apply elem_of_cons in Hin as [?|?]; done.
Qed.

(** [row[ids] = row[ids] + d] for ids that are not negative: the cells at
    the ids have [d] added once, repeated ids included. *)
Lemma row_add_at_Ok (row row' : list score) (ids : list Z) :
  (forall i, i ∈ ids -> 0 <= i) ->
  row_add_at row ids d = Ok row' ->
  length row' = length row
  /\ forall j, row' !! j
       = (fun x => if bool_decide (Z.of_nat j ∈ ids) then score_add x d else x)
           <$> row !! j.
Proof.
  intros Hpos H. unfold row_add_at in H.
  destruct (rmapM (py_index row) ids) as [vals|] eqn:Ev; simpl in H;
    [|discriminate].
  destruct (rmapM (norm_index (len row)) ids) as [js|] eqn:Ejs; simpl in H;
    [|discriminate].
  inversion H; subst row'; clear H.
  pose proof (rmapM_Ok_length _ _ _ Ev) as Hlv.
  pose proof (rmapM_Ok_length _ _ _ Ejs) as Hlj.
  destruct (fold_insert_pairs row (zip js vals) row) as [H1 H2]; [done| |].
  { intros j v Hjv. apply list_elem_of_lookup in Hjv as [k Hk].
    apply lookup_zip_with_Some in Hk as (j0 & v0 & Heq & Hj & Hv).
    inversion Heq; subst j0 v0; clear Heq.
    destruct (rmapM_Ok_lookup _ _ _ _ _ Ejs Hj) as (i & Hi & Hni).
    destruct (rmapM_Ok_lookup _ _ _ _ _ Ev Hv) as (i' & Hi' & Hpi).
    rewrite Hi in Hi'. inversion Hi'; subst i'; clear Hi'.
    unfold py_index in Hpi. rewrite Hni in Hpi. simpl in Hpi.
    by destruct (row !! j); inversion Hpi. }
  split; [done|]. intros j. rewrite H2.
  rewrite fst_zip by lia.
  assert (j ∈ js <-> Z.of_nat j ∈ ids) as Hiff.
  { rewrite (rmapM_Ok_elem_of _ _ _ j Ejs). split.
    - intros (i & Hi & Hn). rewrite norm_index_nonneg in Hn by auto.
      destruct (i <? len row); [|discriminate]. inversion Hn; subst.
      by rewrite Z2Nat.id by auto.
    - intros Hj. exists (Z.of_nat j). split; [done|].
      destruct (rmapM_Ok_elem _ _ _ _ Ejs Hj) as [k Hk].
      rewrite norm_index_nonneg in Hk |- * by lia.
      destruct (_ <? _); [|discriminate]. by rewrite Nat2Z.id. }
  rewrite (bool_decide_ext _ _ Hiff).
  destruct (row !! j) as [x|] eqn:Ex; simpl;
    by destruct (bool_decide (Z.of_nat j ∈ ids)).
Qed.

(** The inner loop over the batch rows [js]: every row named once gets the
    bias at the ids once, the other rows stay. *)
Lemma bias_rows_Ok (ids js : list Z) (scores scores' : list (list score)) :
  (forall i, i ∈ ids -> 0 <= i) ->
  (forall j, j ∈ js -> 0 <= j) -> NoDup js ->
  bias_rows scores ids d js = Ok scores' ->
  length scores' = length scores
  /\ forall b row, scores !! b = Some row ->
       exists row', scores' !! b = Some row'
         /\ length row' = length row
         /\ forall j, row' !! j
              = (fun x => if bool_decide (Z.of_nat b ∈ js)
                               && bool_decide (Z.of_nat j ∈ ids)
                          then score_add x d else x) <$> row !! j.
Proof.
  intros Hpos. revert scores.
  induction js as [|j0 js IH]; intros scores Hjs Hnd H; simpl in H.
  - inversion H; subst. split; [done|]. intros b row Hb. exists row.
    repeat split; auto. intros j. rewrite bool_decide_eq_false_2.
    + by destruct (row !! j).
    + apply not_elem_of_nil.
  - apply NoDup_cons in Hnd as [Hj0 Hnd].
    destruct (scores_add_at scores j0 ids d) as [scores1|] eqn:E1;
      simpl in H; [|discriminate].
    unfold scores_add_at in E1.
    assert (0 <= j0) as Hj0pos by (apply Hjs; left).
    rewrite norm_index_nonneg in E1 by done.
    destruct (j0 <? len scores) eqn:Elt; simpl in E1; [|discriminate].
    destruct (py_index scores j0) as [row0|] eqn:Er; simpl in E1;
      [|discriminate].
    destruct (row_add_at row0 ids d) as [row0'|] eqn:Ea; simpl in E1;
      [|discriminate].
    inversion E1; subst scores1; clear E1.
    apply row_add_at_Ok in Ea as [Hl0 Hr0]; [|done].
    rewrite <- (Z2Nat.id j0) in Er by done. apply py_index_nat in Er.
    apply IH in H as [Hlen Hrows]; [|intros; apply Hjs; by right|done].
    rewrite length_insert in Hlen. split; [done|].
    intros b row Hb.
    destruct (decide (b = Z.to_nat j0)) as [->|Hne].
    + rewrite Er in Hb. inversion Hb; subst row0; clear Hb.
      destruct (Hrows (Z.to_nat j0) row0') as (row' & Hr' & Hl' & Hc').
      { apply list_lookup_insert_eq. by eapply lookup_lt_Some. }
      exists row'. repeat split; [done|congruence|].
      intros j. rewrite Hc', Hr0.
      rewrite Z2Nat.id by done.
      rewrite (bool_decide_eq_false_2 (j0 ∈ js)) by done.
      rewrite (bool_decide_eq_true_2 (j0 ∈ j0 :: js)) by left.
      simpl. by destruct (row !! j).
    + destruct (Hrows b row) as (row' & Hr' & Hl' & Hc').
      { by rewrite list_lookup_insert_ne. }
      exists row'. repeat split; auto.
      intros j. rewrite Hc'.
      assert (Z.of_nat b ∈ j0 :: js <-> Z.of_nat b ∈ js) as Hiff.
      { rewrite elem_of_cons. split; [intros [?|?]; [lia|done]|by right]. }
      by rewrite (bool_decide_ext _ _ Hiff).
Qed.

End BiasCells.

Lemma elem_of_concat {A} (x : A) (ls : list (list A)) :
  x ∈ concat ls <-> exists l, x ∈ l /\ l ∈ ls.
Proof.
  induction ls as [|l ls IH]; simpl.
  - split; [intros H; by apply elem_of_nil in H|].
    intros (l & _ & H). by apply elem_of_nil in H.
  - rewrite elem_of_app, IH. split.
    + intros [H|(l' & H1 & H2)].
      * exists l. split; [done|left].
      * exists l'. split; [done|by right].
    + intros (l' & H1 & H2). apply elem_of_cons in H2 as [->|H2].
      * by left.
      * right. eauto.
Qed.

(** The outer loop, for chunks that do not overlap. *)
Lemma bias_chunks_Ok (d_masks : list (list Z)) (batch : Z) (i : nat)
  (delta : float) (scores scores' : list (list score)) :
  (forall ids x, ids ∈ d_masks -> x ∈ ids -> 0 <= x) ->
  NoDup (concat d_masks) ->
  bias_chunks scores batch d_masks i delta = Ok scores' ->
  length scores' = length scores
  /\ forall b row, scores !! b = Some row ->
       exists row', scores' !! b = Some row'
         /\ length row' = length row
         /\ (batch <= Z.of_nat b -> row' = row)
         /\ (Z.of_nat b < batch ->
             forall j x, row !! j = Some x ->
               (forall k ids, d_masks !! k = Some ids -> Z.of_nat j ∈ ids ->
                  row' !! j = Some (score_add x (compounded_delta delta i k)))
               /\ ((forall ids, ids ∈ d_masks -> Z.of_nat j ∉ ids) ->
                   row' !! j = Some x)).
Proof.
  revert i delta scores.
  induction d_masks as [|ids rest IH]; intros i delta scores Hpos Hnd H;
    simpl in H.
  - inversion H; subst. split; [done|]. intros b row Hb. exists row.
    split; [done|]. split; [done|]. split; [done|].
    intros _ j x Hj. split; [|done].
    intros k ids Hk. by rewrite lookup_nil in Hk.
  - simpl in Hnd. apply NoDup_app in Hnd as (Hnd1 & Hdisj & Hnd2).
    destruct (bias_rows scores ids _ (py_range batch)) as [scores1|] eqn:E1;
      simpl in H; [|discriminate].
    apply bias_rows_Ok in E1 as [Hlen1 Hrows1].
    2:{ intros x Hx. eapply Hpos; [left|done]. }
    2:{ intros j Hj. apply elem_of_seqZ in Hj. lia. }
    2:{ apply NoDup_seqZ. }
    apply IH in H as [Hlen Hrows]; [|intros; eapply Hpos; [by right|done]|done].
    split; [congruence|]. intros b row Hb.
    destruct (Hrows1 b row Hb) as (row1 & Hb1 & Hl1 & Hc1).
    destruct (Hrows b row1 Hb1) as (row' & Hb' & Hl' & Hout & Hin).
    exists row'. split; [done|]. split; [congruence|]. split.
    + intros Hge. rewrite (Hout Hge). apply list_eq. intros j.
      rewrite Hc1. rewrite bool_decide_eq_false_2.
      * by destruct (row !! j).
      * unfold py_range. rewrite elem_of_seqZ. lia.
    + intros Hlt j x Hj.
      assert (row1 !! j
              = Some (if bool_decide (Z.of_nat j ∈ ids)
                      then score_add x (delta * pow_half i)%float else x))
        as Hj1.
      { rewrite Hc1, Hj. simpl. rewrite bool_decide_eq_true_2; [done|].
        unfold py_range. rewrite elem_of_seqZ. lia. }
      destruct (Hin Hlt j _ Hj1) as [Hin1 Hin2]. split.
      * intros [|k] ids' Hk Hj'; simpl in Hk.
        -- inversion Hk; subst ids'; clear Hk.
           rewrite bool_decide_eq_true_2 in Hin2 by done. apply Hin2.
           intros ids' Hids' Hj''. apply (Hdisj _ Hj').
           apply elem_of_concat. eauto.
        -- assert (Z.of_nat j ∉ ids) as Hn.
           { intros Hj''. apply (Hdisj _ Hj'').
             apply elem_of_concat. exists ids'. split; [done|].
             by eapply list_elem_of_lookup_2. }
           rewrite bool_decide_eq_false_2 in Hin1 by done.
           simpl. by eapply Hin1.
      * intros Hnone.
        rewrite bool_decide_eq_false_2 in Hin2 by (apply Hnone; left).
        apply Hin2. intros ids' Hids'. apply Hnone. by right.
Qed.

(** X19. [_bias_depth_d_logits], cell by cell, for chunks of ids that are
    not negative and do not overlap.  When it returns, the scores keep
    their shape; rows past the batch are as they were; in a row of the
    batch a cell whose index is in chunk [k] has
    [delta * 0.5**0 * ... * 0.5**k] added once, and a cell in no chunk is
    as it was. *)
Theorem bias_depth_d_logits_cells
  (scores scores' : list (list score)) (greenlist_token_ids : list (list Z))
  (d_masks : list (list Z)) (delta : float) :
  (forall ids x, ids ∈ d_masks -> x ∈ ids -> 0 <= x) ->
  NoDup (concat d_masks) ->
  _bias_depth_d_logits scores greenlist_token_ids d_masks delta
  = Ok scores' ->
  length scores' = length scores
  /\ forall b row, scores !! b = Some row ->
       exists row', scores' !! b = Some row'
         /\ length row' = length row
         /\ (len greenlist_token_ids <= Z.of_nat b -> row' = row)
         /\ (Z.of_nat b < len greenlist_token_ids ->
             forall j x, row !! j = Some x ->
               (forall k ids, d_masks !! k = Some ids -> Z.of_nat j ∈ ids ->
                  row' !! j = Some (score_add x (compounded_delta delta 0 k)))
               /\ ((forall ids, ids ∈ d_masks -> Z.of_nat j ∉ ids) ->
                   row' !! j = Some x)).
Proof. intros Hpos Hnd H. by apply bias_chunks_Ok. Qed.

(** ** The depth mode of [__call__], cell by cell *)

Lemma index_select_NoDup (t idx r : list Z) :
  NoDup t -> NoDup idx -> (forall i, i ∈ idx -> 0 <= i) ->
  index_select t idx = Ok r ->
  NoDup r /\ forall x, x ∈ r -> x ∈ t.
Proof.
  intros Ht Hidx Hpos H. unfold index_select in H.
  assert (forall k y, r !! k = Some y ->
            exists i, idx !! k = Some i /\ t !! Z.to_nat i = Some y) as Hget.
  { intros k y Hk.
    destruct (rmapM_Ok_lookup _ _ _ _ _ H Hk) as (i & Hi & Hp).
    exists i. split; [done|].
    assert (0 <= i) as Hi0 by (eapply Hpos, list_elem_of_lookup_2; eauto).
    rewrite <- (Z2Nat.id i) in Hp by done. by apply py_index_nat in Hp. }
  split.
  - apply NoDup_alt. intros k1 k2 y H1 H2.
    destruct (Hget _ _ H1) as (i1 & Hi1 & Ht1).
    destruct (Hget _ _ H2) as (i2 & Hi2 & Ht2).
    assert (0 <= i1) by (eapply Hpos, list_elem_of_lookup_2; eauto).
    assert (0 <= i2) by (eapply Hpos, list_elem_of_lookup_2; eauto).
    pose proof (NoDup_lookup _ _ _ _ Ht Ht1 Ht2) as Heq.
    assert (i1 = i2) by lia. subst i2.
    by eapply NoDup_lookup.
  - intros x Hx. apply list_elem_of_lookup in Hx as [k Hk].
    destruct (Hget _ _ Hk) as (i & _ & Hi).
    by eapply list_elem_of_lookup_2.
Qed.

(** The chunks of a returned derivation never overlap, and hold ids of
    their own list only, for a green-list size that is not negative. *)
Lemma depth_chunks_disjoint self x k input_ids s green red gd rd s' :
  int_mul_float (vocab_size self) (gamma self) = Ok x ->
  py_int x = Ok k -> 0 <= k ->
  _get_greenlist_ids self input_ids s = Ok (green, red, gd, rd, s') ->
  (NoDup (concat gd) /\ forall i, i ∈ concat gd -> i ∈ green)
  /\ (NoDup (concat rd) /\ forall i, i ∈ concat rd -> i ∈ red).
Proof.
  intros Hx Hk Hk0 E.
  pose proof (greenlist_partition _ _ _ _ _ _ _ _ E) as (_ & Hnd & _).
  apply NoDup_app in Hnd as (Hndg & _ & Hndr).
  apply get_greenlist_ids_Ok in E
    as (prev & x' & k' & uid & dg & dr & _ & Hx' & Hk' & Hg & Hr & _
        & Hdg & Hred & Hm).
  rewrite Hx in Hx'. simplify_eq. rewrite Hk in Hk'. simplify_eq.
  set (perm := perm_of_seed (vocab_size self) (hash_key self * prev)) in *.
  set (green := py_slice None (Some k') perm) in *.
  set (red := py_slice (Some k') None perm) in *.
  set (dperm := perm_of_seed (len green) (hash_key self * uid)) in *.
  assert (NoDup dperm) as Hndp by apply NoDup_perm_of_seed.
  assert (forall i, i ∈ dperm -> 0 <= i) as Hpos.
  { intros i Hi. apply elem_of_perm_of_seed in Hi. lia. }
  destruct (index_select_NoDup _ _ _ Hndg Hndp Hpos Hdg) as [Hg1 Hg2].
  assert (NoDup dr /\ forall i, i ∈ dr -> i ∈ red) as [Hr1 Hr2].
  { destruct (bool_decide (len red ≠ len green)).
    - destruct Hred as (r & tail & Hsel & Htail & ->).
      pose proof (py_slice_init_last _ _ Htail) as Hsplit.
      rewrite <- Hsplit in Hndr.
      apply NoDup_app in Hndr as (Hndi & Hdisj & _).
      destruct (index_select_NoDup _ _ _ Hndi Hndp Hpos Hsel) as [Hr1 Hr2].
      split.
      + apply NoDup_app. split; [done|]. split; [|apply NoDup_singleton].
        intros y Hy Hy'. apply (Hdisj y); [by apply Hr2|done].
      + intros i Hi. rewrite <- Hsplit. apply elem_of_app in Hi as [Hi|Hi].
        * apply elem_of_app. left. by apply Hr2.
        * apply elem_of_app. by right.
    - by apply (index_select_NoDup _ _ _ Hndr Hndp Hpos). }
  destruct (gen_mode (args self)).
  1,3,4: destruct Hm as [-> ->]; simpl; repeat split;
    try apply NoDup_nil_2; intros i Hi; by apply elem_of_nil in Hi.
  destruct Hm as (d & l & _ & Hl & -> & ->).
  unfold py_floordiv in Hl. destruct (d =? 0) eqn:Ed; [discriminate|].
  inversion Hl; subst l. clear Hl.
  destruct (decide (1 <= d)) as [Hd|Hd].
  - assert (0 <= k' / d) by (apply Z.div_pos; lia).
    rewrite !concat_d_masks_of by done. by repeat split.
  - rewrite !d_masks_of_nonpos by lia. simpl. repeat split;
      try apply NoDup_nil_2; intros i Hi; by apply elem_of_nil in Hi.
Qed.

(** X20. The depth mode of [__call__], cell by cell, for a green-list size
    [int(V * gamma)] that is not negative.  When the call returns, the
    chunks applied are those of the last row of the batch, green or red by
    the preference bit; the scores keep their shape; every row of the batch
    gets the same additions: a cell whose id is in chunk [k] has
    [delta * 0.5**0 * ... * 0.5**k] added once, a cell in no chunk is as it
    was; rows past the batch are as they were. *)
Theorem depth_mode_bias_cells self x k input_ids scores s scores' s' :
  gen_mode (args self) = depth_d ->
  int_mul_float (vocab_size self) (gamma self) = Ok x ->
  py_int x = Ok k -> 0 <= k ->
  __call__ self input_ids scores s = Ok (scores', s') ->
  exists preferance last_row green red gd rd,
    call_preferance self input_ids = Ok preferance
    /\ last input_ids = Some last_row
    /\ greenlist_of self last_row = Ok (green, red, gd, rd)
    /\ length scores' = length scores
    /\ forall b row, scores !! b = Some row ->
         exists row', scores' !! b = Some row'
           /\ length row' = length row
           /\ (len input_ids <= Z.of_nat b -> row' = row)
           /\ (Z.of_nat b < len input_ids ->
               forall j v, row !! j = Some v ->
                 (forall c ids,
                    (if preferance then gd else rd) !! c = Some ids ->
                    Z.of_nat j ∈ ids ->
                    row' !! j
                    = Some (score_add v (compounded_delta (delta self) 0 c)))
                 /\ ((forall ids, ids ∈ (if preferance then gd else rd) ->
                                  Z.of_nat j ∉ ids) ->
                     row' !! j = Some v)).
Proof.
  intros Hmode Hx Hk Hk0 H. unfold __call__ in H. inv_M.
  match goal with
  | H : call_preferance _ _ = Ok ?p |- _ => rename H into Hpref; rename p into pref
  end.
  match goal with
  | H : batch_loop _ _ _ _ _ = Ok (?r, _) |- _ =>
      destruct r as [idss dm];
      pose proof (batch_loop_Ok _ _ _ _ _ _ _ _ H) as (Hlen & _ & _);
      rename H into Hb
  end.
  assert (input_ids ≠ []) as Hne.
  { intros ->. unfold call_preferance in Hpref.
    destruct (wm_mode self); discriminate. }
  destruct (batch_loop_last _ _ _ _ _ _ _ _ Hb Hne)
    as (last_row & green & red & gd & rd & Hlast & Hv & ->).
  rewrite Hmode in H. apply lift_Ok in H as [H ->].
  assert ((NoDup (concat gd) /\ forall i, i ∈ concat gd -> i ∈ green)
          /\ (NoDup (concat rd) /\ forall i, i ∈ concat rd -> i ∈ red))
    as [[Hg1 Hg2] [Hr1 Hr2]].
  { unfold greenlist_of in Hv.
    destruct (_get_greenlist_ids _ _ _) as [[r0 s0]|] eqn:E; [|discriminate].
    simpl in Hv. inversion Hv; subst r0.
    by eapply depth_chunks_disjoint. }
  unfold _bias_depth_d_logits in H.
  replace (len idss) with (len input_ids) in H by (unfold len; lia).
  apply bias_chunks_Ok in H.
  - destruct H as [Hl Hrows].
    exists pref, last_row, green, red, gd, rd.
    split; [done|]. split; [done|]. split; [done|]. by split.
  - intros ids i Hids Hi.
    assert (i ∈ green ++ red) as Hin.
    { apply elem_of_app. destruct pref; [left; apply Hg2|right; apply Hr2];
        apply elem_of_concat; eauto. }
    pose proof (greenlist_of_ids _ _ _ _ _ _ _ Hv Hin). lia.
  - by destruct pref.
Qed.

(** ** An unknown seeding scheme *)

Lemma get_greenlist_ids_unknown_scheme self input_ids s :
  seeding_scheme self = seeding_scheme_other ->
  _get_greenlist_ids self input_ids s = Raise NotImplementedError.
Proof.
  intros Hs. unfold _get_greenlist_ids, bind, _seed_rng. by rewrite Hs.
Qed.

Lemma py_index_in_range {A} (l : list A) i :
  0 <= i < len l -> exists x, py_index l i = Ok x.
Proof.
  intros Hi. destruct (lookup_lt_is_Some_2 l (Z.to_nat i)) as [x Hx].
  { unfold len in Hi. lia. }
  exists x. rewrite <- (Z2Nat.id i) by lia. by apply py_index_nat.
Qed.

Lemma score_preferance_returns self tokens idx :
  userid self ≠ [] -> 2 <= idx < len tokens ->
  exists b, score_preferance self tokens idx = Ok b.
Proof.
  intros Hu Hidx.
  assert (0 < len (userid self)) as Hn.
  { unfold len. destruct (userid self); [done|simpl; lia]. }
  destruct (py_index_in_range tokens (idx - 1)) as [t1 H1]; [lia|].
  destruct (py_index_in_range tokens (idx - 2)) as [t2 H2]; [lia|].
  assert (forall a, exists b, userid_at self (a mod len (userid self)) = Ok b)
    as Hbit.
  { intros a. apply py_index_in_range. apply Z.mod_pos_bound. lia. }
  unfold score_preferance, tensor_mod. rewrite H1. simpl.
  destruct (len (userid self) =? 0) eqn:E0; [lia|].
  destruct (wm_mode self); simpl; rewrite ?H2; simpl; apply Hbit.
Qed.

(** X21. A seeding scheme other than [simple_1] stops both sides at the
    first derivation.  [__call__] raises [NotImplementedError] as soon as
    the preference bit could be read; and the detector's [__init__] lets
    such an instance through in [combination] mode, after which
    [_score_sequence] raises [NotImplementedError] on every sequence long
    enough to be scored. *)
Theorem unknown_seeding_scheme_raises_at_first_derivation self :
  seeding_scheme self = seeding_scheme_other ->
  (forall input_ids scores s p,
     call_preferance self input_ids = Ok p ->
     __call__ self input_ids scores s = Raise NotImplementedError)
  /\ (forall device tok z_thr norms det tokens flags s depth_hit0,
        detector_init self device tok z_thr norms = Ok det ->
        userid self ≠ [] ->
        torch_zeros (depth (args self)) = Ok depth_hit0 ->
        min_prefix_len det < len tokens ->
        wm_mode self = combination /\ min_prefix_len det = 2
        /\ _score_sequence self det tokens flags s
           = Raise NotImplementedError).
Proof.
  intros Hs. split.
  - intros input_ids scores s p Hp. unfold __call__.
    unfold bind at 1. unfold lift at 1. rewrite Hp.
    destruct input_ids as [|row rows].
    { unfold call_preferance in Hp. destruct (wm_mode self); discriminate. }
    unfold bind at 1. simpl. unfold bind at 1. simpl.
    unfold bind at 1. unfold bind at 1.
    by rewrite get_greenlist_ids_unknown_scheme.
  - intros device tok z_thr norms det tokens flags s dh Hinit Hu Hz Hlen.
    unfold detector_init in Hinit.
    destruct device; [|discriminate]. simpl in Hinit.
    destruct tok as [tok|]; [|discriminate]. simpl in Hinit.
    rewrite Hs in Hinit. simpl in Hinit.
    destruct (bool_decide (wm_mode self = combination)) eqn:Ew;
      [|discriminate].
    apply bool_decide_eq_true in Ew. inversion Hinit; subst det; clear Hinit.
    simpl in *. split; [done|]. split; [done|].
    unfold _score_sequence. simpl.
    unfold bind at 1.
    destruct (len tokens - 2 <? 1) eqn:E; [lia|]. simpl.
    unfold bind at 1. rewrite Hz. simpl.
    rewrite (seqZ_cons 2) by lia. simpl.
    unfold bind at 1. unfold bind at 1. unfold scan_step.
    destruct (py_index_in_range tokens 2) as [c Hc]; [lia|].
    destruct (score_preferance_returns self tokens 2 Hu) as [b Hb]; [lia|].
    unfold bind at 1. unfold lift at 1. rewrite Hc.
    unfold bind at 1. unfold lift at 1. rewrite Hb.
    unfold bind at 1.
    by rewrite get_greenlist_ids_unknown_scheme.
Qed.

(** ** The generator state is scratch space *)

(** Two runs with the same outcome: the same value and final states related
    by [R], or the same exception. *)
Definition related {A} (R : wm_state -> wm_state -> Prop)
  (r1 r2 : result (A * wm_state)) : Prop :=
  match r1, r2 with
  | Ok (a, t1), Ok (b, t2) => a = b /\ R t1 t2
  | Raise e1, Raise e2 => e1 = e2
  | _, _ => False
  end.

Lemma related_value {A} R (r1 r2 : result (A * wm_state)) :
  related R r1 r2 -> value r1 = value r2.
Proof.
  destruct r1 as [[a s1]|e1], r2 as [[b s2]|e2]; simpl; try contradiction.
  - by intros [-> _].
  - by intros ->.
Qed.

Lemma related_bind {A B} (R R' : wm_state -> wm_state -> Prop)
  (m : M A) (k : A -> M B) s1 s2 :
  related R (m s1) (m s2) ->
  (forall a t1 t2, R t1 t2 -> related R' (k a t1) (k a t2)) ->
  related R' (bind m k s1) (bind m k s2).
Proof.
  intros Hm Hk. unfold bind.
  destruct (m s1) as [[a t1]|e1], (m s2) as [[b t2]|e2]; simpl in Hm;
    try contradiction.
  - destruct Hm as [-> HR]. by apply Hk.
  - by subst.
Qed.

Lemma related_lift {A} (R : wm_state -> wm_state -> Prop) (r : result A) s1 s2 :
  R s1 s2 -> related R (lift r s1) (lift r s2).
Proof. intros H. unfold lift. by destruct r. Qed.

Lemma related_ret {A} (R : wm_state -> wm_state -> Prop) (a : A) s1 s2 :
  R s1 s2 -> related R (ret a s1) (ret a s2).
Proof. by intros H. Qed.

Lemma related_raise {A} (R : wm_state -> wm_state -> Prop) e s1 s2 :
  related R (@raise A e s1) (@raise A e s2).
Proof. done. Qed.

(** Both states hold a generator. *)
Definition seeded (t1 t2 : wm_state) : Prop :=
  is_Some (rng t1) /\ is_Some (rng t2).

Lemma get_greenlist_ids_related self row s1 s2 :
  seeded s1 s2 ->
  related (fun t1 t2 => seeded t1 t2 /\ idx_t t1 = idx_t s1
                        /\ idx_t t2 = idx_t s2)
          (_get_greenlist_ids self row s1) (_get_greenlist_ids self row s2).
Proof.
  intros [H1 H2].
  pose proof (get_greenlist_ids_agree self row s1 s2 H1 H2) as Ha.
  destruct (_get_greenlist_ids self row s1) as [[r1 t1]|e1] eqn:E1,
           (_get_greenlist_ids self row s2) as [[r2 t2]|e2] eqn:E2;
    simpl in Ha |- *; try contradiction; [|done].
  destruct Ha as [-> _]. split; [done|]. repeat split.
  - by eapply get_greenlist_ids_leaves_rng.
  - by eapply get_greenlist_ids_leaves_rng.
  - by eapply get_greenlist_ids_idx_t.
  - by eapply get_greenlist_ids_idx_t.
Qed.

Lemma batch_loop_related self preferance rows d s1 s2 :
  seeded s1 s2 -> idx_t s1 = idx_t s2 ->
  related (fun t1 t2 => idx_t t1 = idx_t t2)
          (batch_loop self preferance rows d s1)
          (batch_loop self preferance rows d s2).
Proof.
  revert d s1 s2. induction rows as [|row rows IH]; intros d s1 s2 Hs Hi.
  - by apply related_ret.
  - simpl. eapply related_bind; [by apply get_greenlist_ids_related|].
    intros [[[green red] gd] rd] t1 t2 (Ht & Hi1 & Hi2).
    eapply related_bind; [apply IH; [done|congruence]|].
    intros r u1 u2 Hu. by apply related_ret.
Qed.

(** X22. What [__call__] returns does not depend on the generator it finds:
    the derivation reseeds it for every row, and a missing generator is
    created first.  Two calls at the same step counter return the same
    scores, or raise the same exception. *)
Theorem call_result_ignores_generator_state self input_ids scores s1 s2 :
  idx_t s1 = idx_t s2 ->
  value (__call__ self input_ids scores s1)
  = value (__call__ self input_ids scores s2).
Proof.
  intros Hi. apply (related_value (fun _ _ => True)). unfold __call__.
  eapply related_bind; [apply (related_lift (fun t1 t2 => t1 = s1 /\ t2 = s2));
                        by split|].
  intros p ? ? [-> ->].
  eapply (related_bind (fun t1 t2 => idx_t t1 = idx_t t2
                                     /\ rng t1 = rng s1 /\ rng t2 = rng s2)).
  { simpl. repeat split; auto. lia. }
  intros [] t1 t2 (Ht & Hr1 & Hr2).
  eapply (related_bind (fun t1 t2 => seeded t1 t2 /\ idx_t t1 = idx_t t2)).
  { simpl. repeat split; eauto. }
  intros [] u1 u2 (Hu & Hui).
  eapply related_bind; [by apply batch_loop_related|].
  intros [idss dm] v1 v2 Hv.
  destruct (gen_mode (args self)).
  - eapply related_bind; [by apply (related_lift (fun t1 t2 => idx_t t1 = idx_t t2))|].
    intros mask w1 w2 Hw.
    unfold _bias_greenlist_logits. rewrite Hw.
    by destruct (if decrease_delta self then _ else _).
  - destruct dm; [by apply related_lift|done].
  - eapply related_bind; [by apply (related_lift (fun _ _ => True))|].
    intros; apply related_raise.
  - done.
Qed.

Lemma scan_step_related self tokens idx a s1 s2 :
  seeded s1 s2 ->
  related seeded (scan_step self tokens idx a s1)
                 (scan_step self tokens idx a s2).
Proof.
  intros Hs. unfold scan_step.
  eapply related_bind; [by apply (related_lift seeded)|].
  intros c t1 t2 Ht.
  eapply related_bind; [by apply (related_lift seeded)|].
  intros p u1 u2 Hu.
  eapply related_bind; [by apply get_greenlist_ids_related|].
  intros [[[green red] gd] rd] v1 v2 (Hv & _).
  destruct (tensor_contains c (if p then green else red)).
  - eapply related_bind.
    + destruct (bool_decide _);
        [by apply (related_lift seeded)|by apply (related_ret seeded)].
    + intros dh w1 w2 Hw. by apply related_ret.
  - by apply related_ret.
Qed.

Lemma scan_related self tokens idxs a s1 s2 :
  seeded s1 s2 ->
  related seeded (scan self tokens idxs a s1) (scan self tokens idxs a s2).
Proof.
  revert a s1 s2. induction idxs as [|idx idxs IH]; intros a s1 s2 Hs.
  - by apply related_ret.
  - simpl. eapply related_bind; [by apply scan_step_related|].
    intros a' t1 t2 Ht. by apply IH.
Qed.

Lemma score_sequence_related self det tokens flags s1 s2 :
  seeded s1 s2 ->
  related seeded (_score_sequence self det tokens flags s1)
                 (_score_sequence self det tokens flags s2).
Proof.
  intros Hs. unfold _score_sequence.
  eapply (related_bind seeded).
  { destruct (_ <? 1); [apply related_raise|by apply related_ret]. }
  intros [] t1 t2 Ht.
  eapply related_bind; [by apply (related_lift seeded)|].
  intros dh u1 u2 Hu.
  eapply related_bind; [by apply scan_related|].
  intros a v1 v2 Hv.
  eapply (related_bind seeded).
  { destruct (return_green_fraction flags); [|by apply related_ret].
    eapply related_bind; [by apply (related_lift seeded)|].
    intros; by apply related_ret. }
  intros gf w1 w2 Hw.
  eapply (related_bind seeded).
  { destruct (return_z_score flags); [|by apply related_ret].
    eapply related_bind; [by apply (related_lift seeded)|].
    intros; by apply related_ret. }
  intros z1 x1 x2 Hx.
  eapply (related_bind seeded).
  { destruct (return_p_value flags); [|by apply related_ret].
    eapply (related_bind seeded).
    - destruct z1; [by apply related_ret|by apply related_lift].
    - intros; by apply related_ret. }
  intros pv y1 y2 Hy.
  eapply related_bind; [by apply (related_lift seeded)|].
  intros sim q1 q2 Hq.
  destruct (gen_mode (args self)); try apply related_raise.
  eapply related_bind; [by apply (related_lift seeded)|].
  intros; by apply related_ret.
Qed.

(** X23. What [detect] returns does not depend on the state of the
    detector's generator: every scored position reseeds it.  From any two
    states with a generator, [detect] returns the same dictionary, scores
    and mark string, or raises the same exception. *)
Theorem detect_result_ignores_generator_state
  self det text ids rp rs thr kw s1 s2 :
  is_Some (rng s1) -> is_Some (rng s2) ->
  value (detect self det text ids rp rs thr kw s1)
  = value (detect self det text ids rp rs thr kw s2).
Proof.
  intros H1 H2. assert (seeded s1 s2) as Hs by done.
  apply (related_value seeded). unfold detect.
  eapply related_bind; [by apply (related_lift seeded)|].
  intros [] t1 t2 Ht.
  eapply related_bind; [by apply (related_lift seeded)|].
  intros text' u1 u2 Hu.
  eapply (related_bind seeded).
  { destruct ids as [l|], (tokenizer det) as [tok|].
    - eapply related_bind; [by apply (related_lift seeded)|].
      intros; by apply related_ret.
    - by apply related_ret.
    - eapply related_bind; [by apply (related_lift seeded)|].
      intros l w1 w2 Hw.
      eapply related_bind; [by apply (related_lift seeded)|].
      intros; by apply related_ret.
    - apply related_raise. }
  intros tokens v1 v2 Hv.
  eapply related_bind; [by apply score_sequence_related|].
  intros [[[sd gr] ds] mk] w1 w2 Hw.
  destruct rp; [|by apply related_ret].
  eapply related_bind; [by apply (related_lift seeded)|].
  intros t x1 x2 Hx.
  eapply related_bind; [by apply (related_lift seeded)|].
  intros z y1 y2 Hy.
  eapply (related_bind seeded).
  { destruct (t <? z)%float; [|by apply related_ret].
    eapply related_bind; [by apply (related_lift seeded)|].
    intros; by apply related_ret. }
  intros; by apply related_ret.
Qed.

(** ** The depth histogram *)

Lemma tensor_sum_insert (l : list Z) k h :
  l !! k = Some h -> tensor_sum (<[k := h + 1]> l) = tensor_sum l + 1.
Proof.
  revert k. induction l as [|x l IH]; intros [|k] H; simpl in *; try done.
  - inversion H; subst. lia.
  - rewrite (IH k H). lia.
Qed.

Lemma tensor_sum_replicate n : tensor_sum (replicate n 0) = 0.
Proof. induction n as [|n IH]; simpl; [done|]. by rewrite IH. Qed.

(** The bucket loop over chunks that do not overlap: a token in some chunk
    adds one to the histogram, any other token nothing. *)
Lemma count_depth_hits_Ok curr (d_masks : list (list Z)) j dh dh' :
  0 <= j -> NoDup (concat d_masks) ->
  count_depth_hits curr d_masks j dh = Ok dh' ->
  length dh' = length dh
  /\ tensor_sum dh'
     = tensor_sum dh + (if bool_decide (curr ∈ concat d_masks) then 1 else 0).
Proof.
  revert j dh. induction d_masks as [|m rest IH]; intros j dh Hj Hnd H;
    simpl in H.
  - inversion H; subst. split; [done|].
    rewrite bool_decide_eq_false_2; [lia|]. simpl. apply not_elem_of_nil.
  - simpl in Hnd. apply NoDup_app in Hnd as (_ & Hdisj & Hnd).
    destruct (tensor_contains curr m) eqn:Ec.
    + apply tensor_contains_elem_of in Ec.
      rewrite norm_index_nonneg in H by done.
      destruct (j <? len dh) eqn:Elt; simpl in H; [|discriminate].
      destruct (py_index dh j) as [h|] eqn:Eh; simpl in H; [|discriminate].
      rewrite <- (Z2Nat.id j) in Eh by done. apply py_index_nat in Eh.
      apply IH in H as [Hl Hs]; [|lia|done].
      rewrite length_insert in Hl. split; [done|].
      rewrite Hs, (tensor_sum_insert _ _ _ Eh).
      rewrite (bool_decide_eq_false_2 (curr ∈ concat rest))
        by (by apply Hdisj).
      rewrite bool_decide_eq_true_2; [lia|].
      simpl. apply elem_of_app. by left.
    + simpl in H. apply IH in H as [Hl Hs]; [|lia|done].
      split; [done|]. rewrite Hs. f_equal.
      assert (curr ∈ concat (m :: rest) <-> curr ∈ concat rest) as Hiff.
      { simpl. rewrite elem_of_app. split; [|by right].
        intros [Hin|Hin]; [|done].
        apply tensor_contains_elem_of in Hin. congruence. }
      by rewrite (bool_decide_ext _ _ Hiff).
Qed.

Lemma scan_step_depth_hit self x k tokens idx a s a' s' :
  int_mul_float (vocab_size self) (gamma self) = Ok x ->
  py_int x = Ok k -> 0 <= k ->
  scan_step self tokens idx a s = Ok (a', s') ->
  length (depth_hit a') = length (depth_hit a)
  /\ 0 <= tensor_sum (depth_hit a') - tensor_sum (depth_hit a)
       <= green_token_count a' - green_token_count a.
Proof.
  intros Hx Hk Hk0 H. unfold scan_step in H. inv_M.
  match goal with
  | H1 : _get_greenlist_ids _ _ _ = Ok (?q, _) |- _ =>
      destruct q as [[[green red] gd] rd];
      pose proof (depth_chunks_disjoint _ _ _ _ _ _ _ _ _ _ Hx Hk Hk0 H1)
        as [[Hg _] [Hr _]]
  end.
  match goal with
  | H1 : (if ?c then _ else _) _ = Ok _ |- _ => destruct c
  end; inv_M; [|simplify_eq; simpl; split; [done|lia]].
  match goal with
  | H1 : (if ?c then _ else _) _ = Ok _ |- _ => destruct c
  end; inv_M; simplify_eq; simpl; [|split; [done|lia]].
  match goal with
  | H1 : count_depth_hits _ _ _ _ = Ok _ |- _ =>
      apply count_depth_hits_Ok in H1 as [Hl Hs];
        [|lia|by match goal with b : bool |- _ => destruct b end]
  end.
  split; [done|]. rewrite Hs. destruct (bool_decide _); lia.
Qed.

Lemma scan_depth_hit self x k tokens idxs a s a' s' :
  int_mul_float (vocab_size self) (gamma self) = Ok x ->
  py_int x = Ok k -> 0 <= k ->
  scan self tokens idxs a s = Ok (a', s') ->
  length (depth_hit a') = length (depth_hit a)
  /\ 0 <= tensor_sum (depth_hit a') - tensor_sum (depth_hit a)
       <= green_token_count a' - green_token_count a.
Proof.
  intros Hx Hk Hk0. revert a s.
  induction idxs as [|idx idxs IH]; intros a s H; simpl in H.
  - apply ret_Ok in H as [-> _]. split; [done|lia].
  - inv_M.
    match goal with
    | H1 : scan_step _ _ _ _ _ = Ok _ |- _ =>
        apply (scan_step_depth_hit _ _ _ _ _ _ _ _ _ Hx Hk Hk0) in H1
          as [Hl1 Hs1]
    end.
    apply IH in H as [Hl Hs]. split; [congruence|lia].
Qed.

(** X24. The depth histogram handed to the cross-entropy diagnostic, for a
    green-list size [int(V * gamma)] that is not negative.  When
    [_score_sequence] returns, the histogram has [args.depth] buckets, and
    they sum to no more than the number of hits: every hit adds to one
    bucket at most. *)
Theorem depth_histogram_within_hit_count
  self det x k tokens flags s sd gr ds mk s' :
  int_mul_float (vocab_size self) (gamma self) = Ok x ->
  py_int x = Ok k -> 0 <= k ->
  _score_sequence self det tokens flags s = Ok (sd, gr, ds, mk, s') ->
  exists d depth_hit green_token_count,
    depth (args self) = Some d
    /\ len depth_hit = d
    /\ int_truediv green_token_count (len tokens - min_prefix_len det) = Ok gr
    /\ depth_cross_entropy depth_hit green_token_count gr = Ok ds
    /\ (return_num_green_tokens flags = true ->
        num_green_tokens sd = Some green_token_count)
    /\ 0 <= tensor_sum depth_hit <= green_token_count.
Proof.
  intros Hx Hk Hk0 H. unfold _score_sequence in H. inv_M.
  destruct (_ <? 1) eqn:Elen; [discriminate|].
  destruct (gen_mode (args self)) eqn:Em; try discriminate.
  inv_M. simplify_eq.
  match goal with
  | H1 : scan _ _ _ _ _ = Ok _ |- _ =>
      apply (scan_depth_hit _ _ _ _ _ _ _ _ _ Hx Hk Hk0) in H1 as [Hl Hs]
  end.
  simpl in Hl, Hs.
  match goal with
  | H1 : torch_zeros _ = Ok ?z |- _ => rename H1 into Hz; rename z into dh0
  end.
  unfold torch_zeros in Hz. destruct (depth (args self)) as [d|]; [|discriminate].
  destruct (d <? 0) eqn:Ed; [discriminate|]. inversion Hz; subst dh0.
  rewrite tensor_sum_replicate in Hs. rewrite length_replicate in Hl.
  eexists d, _, _. repeat split; eauto.
  - unfold len. lia.
  - intros Hf. simpl. by rewrite Hf.
  - lia.
  - lia.
Qed.

(** ** Modes and inputs that never get through *)

(** X25. In [beam_delta] mode [__call__] never returns: once the lists and
    the mask are there, [_calculate_beam_delta] is called with one argument
    more than it takes. *)
Theorem call_never_returns_in_beam_delta_mode self input_ids scores s :
  gen_mode (args self) = beam_delta ->
  exists e, __call__ self input_ids scores s = Raise e.
Proof.
  intros Hm.
  destruct (__call__ self input_ids scores s) as [[r s']|e] eqn:E;
    [exfalso|eauto].
  unfold __call__ in E. inv_M.
  match goal with
  | H : batch_loop _ _ _ _ _ = Ok (?q, _) |- _ => destruct q as [idss dm]
  end.
  rewrite Hm in E. inv_M.
Qed.

(** X26. [detect] wants exactly one of the raw text and the token ids: with
    both, or with neither, it raises [AssertionError] before anything else
    runs, the normalizers included. *)
Theorem detect_wants_text_or_ids_not_both self det text ids rp rs thr kw s :
  detect self det (Some text) (Some ids) rp rs thr kw s = Raise AssertionError
  /\ detect self det None None rp rs thr kw s = Raise AssertionError.
Proof. split; by apply detect_ambiguous_input. Qed.

End Watermark.


(** ** Running the embedding on a concrete generator *)

Lemma lcg_draw_perm fuel pool g :
  length pool = fuel -> (LcgRng.draw fuel pool g).1 ≡ₚ pool.
Proof.
  revert pool g. induction fuel as [|fuel IH]; intros pool g Hlen; simpl.
  - by destruct pool.
  - destruct (pool !! _) as [x|] eqn:E.
    + specialize (IH (delete (Z.to_nat ((g / 2 ^ 33) mod len pool)) pool)
                     (LcgRng.next g)).
      destruct (LcgRng.draw fuel _ _) as [rest g'] eqn:Ed. simpl in *.
      rewrite IH.
      * symmetry. by apply delete_Permutation.
      * rewrite length_delete by eauto. lia.
    + apply lookup_ge_None in E. unfold len in E.
      assert (0 <= (g / 2 ^ 33) mod Z.of_nat (length pool)
              < Z.of_nat (length pool)) by (apply Z.mod_pos_bound; lia).
      lia.
Qed.

Lemma lcg_randperm_perm n g :
  (LcgRng.randperm n g).1 ≡ₚ Z.of_nat <$> seq 0 n.
Proof.
  unfold LcgRng.randperm. apply lcg_draw_perm.
  by rewrite length_fmap, length_seq.
Qed.

(** The methods on the concrete generator. *)
Module Lcg.

Definition state : Type := wm_state LcgRng.G.

Definition fresh : state :=
  {| rng := Some LcgRng.new_generator; idx_t := 0 |}.

(** A generator some earlier call has used and left behind. *)
Definition used : state :=
  {| rng := Some (LcgRng.next (LcgRng.manual_seed 42)); idx_t := 17 |}.

Definition get_greenlist_ids :=
  _get_greenlist_ids LcgRng.G LcgRng.manual_seed LcgRng.randperm.

(** A stand-in for [scipy.stats.norm.sf]: exact at 0, crude elsewhere. *)
Definition norm_sf (z : float) : float :=
  if (z <? 0)%float then 1%float
  else if (0 <? z)%float then 0%float else 0.5%float.

(** A stand-in for the cross-entropy diagnostic: like torch, it wants the
    three buckets of the reference distribution. *)
Definition depth_cross_entropy (depth_hit : list Z) (green_token_count : Z)
  (sim_score : float) : result float :=
  if len depth_hit =? 3 then Ok 0%float else Raise RuntimeError.

(** A tokenizer whose BOS token is 1. *)
Definition tok : tokenizer_t :=
  {| tokenize := fun _ => Ok [1; 5; 3; 7]; bos_token_id := Some 1 |}.

(** A detector as [__init__] leaves it, without normalizers. *)
Definition detector (min_prefix_len : Z) : detector_t :=
  {| tokenizer := Some tok; z_threshold := Some default_z_threshold;
     normalizers := []; min_prefix_len := min_prefix_len |}.

Definition score_sequence :=
  _score_sequence LcgRng.G LcgRng.manual_seed LcgRng.randperm norm_sf
                  depth_cross_entropy.

Definition detect :=
  detect LcgRng.G LcgRng.manual_seed LcgRng.randperm norm_sf
         depth_cross_entropy.

(** A stand-in for libm's [pow]; the examples switch the decay off. *)
Definition float_pow (x y : float) : float := 1%float.

(** Scores in binary64. *)
Definition call :=
  __call__ LcgRng.G LcgRng.manual_seed LcgRng.randperm LcgRng.new_generator
           float PrimFloat.add float_pow.

Definition markable_at :=
  markable_at LcgRng.G LcgRng.manual_seed LcgRng.randperm.

End Lcg.

(** Two instances that differ in mode, user id and depth, on two histories
    that end with token 3, and two generator states. *)
Lemma greenlist_derivation_deterministic_witness :
  let c1 := mk_config 10 0.5 false previous1 depth_d (Some 3) in
  let c2 := {| vocab := seqZ 0 10; gamma := 0.5; decrease_delta := true;
               delta := 2; wm_mode := combination; seeding_scheme := simple_1;
               hash_key := 15485863; userid := [false; true; true];
               args := {| gen_mode := normal; depth := None |} |} in
  value LcgRng.G (Lcg.get_greenlist_ids c1 [3] Lcg.fresh)
    = Ok ([0; 2; 7; 1; 9], [6; 5; 3; 4; 8], [[0]; [9]; [2; 1; 7]],
          [[6]; [8]; [5; 4; 3]])
  /\ (agree LcgRng.G (Lcg.get_greenlist_ids c1 [3] Lcg.fresh)
             (Lcg.get_greenlist_ids c1 [3] Lcg.used)
      /\ same_partition LcgRng.G (Lcg.get_greenlist_ids c1 [3] Lcg.fresh)
                        (Lcg.get_greenlist_ids c2 [8; 3] Lcg.used)).
Proof.
  intros c1 c2. split; [vm_compute; reflexivity|].
  apply (greenlist_derivation_deterministic LcgRng.G LcgRng.manual_seed
           LcgRng.randperm c1 c2 [3] [8; 3] Lcg.fresh Lcg.used).
  - by eexists.
  - by eexists.
  - reflexivity.
  - reflexivity.
  - reflexivity.
  - reflexivity.
Defined.

(** A vocabulary of 4 ids and gamma = 0.75: three green ids, one red. *)
Lemma greenlist_ids_raises_when_green_outnumbers_red_witness :
  let c := mk_config 4 0.75 false previous1 normal None in
  (int_mul_float (vocab_size c) (gamma c) = Ok 3%float /\ py_int 3 = Ok 3)
  /\ value LcgRng.G (Lcg.get_greenlist_ids c [3] Lcg.fresh) = Raise IndexError
  /\ exists e, Lcg.get_greenlist_ids c [3] Lcg.fresh = Raise e.
Proof.
  intros c. split; [split; vm_compute; reflexivity|].
  split; [vm_compute; reflexivity|].
  apply (greenlist_ids_raises_when_green_outnumbers_red LcgRng.G
           LcgRng.manual_seed LcgRng.randperm lcg_randperm_perm c 3%float 3).
  - vm_compute; reflexivity.
  - vm_compute; reflexivity.
  - vm_compute. split; [reflexivity|discriminate].
Defined.

(** A vocabulary of 4 ids and gamma = 0.25: one green id, three red, of
    which the red chunks hold two. *)
Lemma red_depth_chunks_omit_ids_witness :
  let c := mk_config 4 0.25 false previous1 depth_d (Some 1) in
  value LcgRng.G (Lcg.get_greenlist_ids c [3] Lcg.fresh)
    = Ok ([0], [2; 3; 1], [[0]], [[2; 1]])
  /\ exists id, id ∈ [2; 3; 1] /\ id ∉ concat [[2; 1]].
Proof.
  intros c. split; [vm_compute; reflexivity|].
  destruct (Lcg.get_greenlist_ids c [3] Lcg.fresh)
    as [[[[[green red] gd] rd] s']|e] eqn:E; [|vm_compute in E; discriminate].
  assert (green = [0] /\ red = [2; 3; 1] /\ gd = [[0]] /\ rd = [[2; 1]])
    as (-> & -> & -> & ->).
  { vm_compute in E. by inversion E. }
  apply (red_depth_chunks_omit_ids LcgRng.G LcgRng.manual_seed
           LcgRng.randperm lcg_randperm_perm c 1%float 1 [3] Lcg.fresh
           [0] [2; 3; 1] [[0]] [[2; 1]] s').
  - reflexivity.
  - vm_compute; reflexivity.
  - vm_compute; reflexivity.
  - lia.
  - vm_compute; reflexivity.
  - exact E.
Defined.

(** Three chunks, [delta = 2]: the scores of a row of zeros after the call. *)
Example bias_depth_d_logits_three_chunks :
  _bias_depth_d_logits float PrimFloat.add [[0; 0; 0]]%float [[0; 1; 2]]
    [[0]; [1]; [2]] 2
  = Ok [[2; 1; 0.25]]%float.
Proof. reflexivity. Qed.

(** Normal mode, no depth, four tokens: the scan never starts. *)
Lemma score_sequence_raises_without_depth_witness :
  Lcg.score_sequence (mk_config 10 0.5 false previous1 normal None)
    (Lcg.detector 1) [4; 5; 3; 7] default_flags Lcg.fresh
  = Raise TypeError.
Proof.
  apply (score_sequence_raises_without_depth LcgRng.G LcgRng.manual_seed
           LcgRng.randperm Lcg.norm_sf Lcg.depth_cross_entropy).
  - reflexivity.
  - vm_compute. discriminate.
Defined.

(** The same call with a depth supplied gets through the scan and fails at
    the [return]. *)
Example score_sequence_normal_mode_with_depth :
  value LcgRng.G
    (Lcg.score_sequence (mk_config 10 0.5 false previous1 normal (Some 3))
       (Lcg.detector 1) [4; 5; 3; 7] default_flags Lcg.fresh)
  = Raise UnboundLocalError.
Proof. vm_compute. reflexivity. Qed.

(** An empty sequence of ids, and nothing else. *)
Lemma detect_raises_on_empty_ids_witness :
  Lcg.detect (mk_config 10 0.5 false previous1 depth_d (Some 3))
    (Lcg.detector 1) None (Some []) true true None default_flags Lcg.fresh
  = Raise IndexError.
Proof.
  apply (detect_raises_on_empty_ids LcgRng.G LcgRng.manual_seed
           LcgRng.randperm Lcg.norm_sf Lcg.depth_cross_entropy _ _ Lcg.tok None).
  - reflexivity.
  - reflexivity.
Defined.

(** A batch of two sequences, 0 7 and 1 7, at the step that produces their
    second token: the user id starts with 1 0, row 0 alone would get bit 1,
    and the call uses the bit 0 of the last row. *)
Lemma call_preferance_is_the_last_rows_bit_witness :
  let c := mk_config 10 0.5 false previous1 normal None in
  call_preferance c [[0]; [1]] = Ok false
  /\ call_preferance c [[0]; [1]] ≠ score_preferance c [0; 7] 1.
Proof.
  intros c.
  apply (call_preferance_is_the_last_rows_bit c [[0]; [1]] 0%nat [0; 7]
           [1; 7] 1 1 true false).
  - reflexivity.
  - reflexivity.
  - vm_compute. split; discriminate.
  - reflexivity.
  - reflexivity.
  - discriminate.
Defined.

(** Combination mode, position 2 of the sequence 5 3 7 2, generated as the
    last row of a batch of two. *)
Lemma preference_bit_symmetry_witness :
  let c := mk_config 10 0.5 false combination normal None in
  call_preferance c [[9; 9]; [5; 3]] = score_preferance c [5; 3; 7; 2] 2
  /\ score_preferance c [5; 3; 7; 2] 2
     = step_preference (userid c) (wm_mode c) 3 5.
Proof.
  intros c. apply (preference_bit_symmetry c [5; 3; 7; 2] [[9; 9]; [5; 3]] 2 3 5).
  - vm_compute. split; discriminate.
  - reflexivity.
  - reflexivity.
  - intros _. reflexivity.
  - lia.
Defined.

(** Depth mode with three buckets, the one configuration in which the
    scoring path returns; a detector as [__init__] builds it by default, and
    a caller who asks for the threshold 0.  Four positions are scored and
    all four hit: z is 2, above the threshold asked for, and the prediction
    is [False], decided with 4. *)
Lemma detect_hypothesis_test_witness :
  let c := mk_config 10 0.5 false previous1 depth_d (Some 3) in
  let det := Lcg.detector 1 in
  let tokens := [0; 0; 0; 0; 0] in
  exists out gr ds mk s',
    Lcg.detect c det None (Some tokens) true true (Some 0%float)
      default_flags Lcg.fresh = Ok (out, gr, ds, mk, s')
    /\ detector_init c true (Some Lcg.tok) (Some default_z_threshold) []
       = Ok det
    /\ prediction out = Some false
    /\ (exists sd, scores_out out = Some sd /\ z_score sd = Some 2%float)
    /\ (0 <? 2)%float = true
    /\ (exists sd T green_token_count z thr,
           scores_out out = Some sd
           /\ num_tokens_scored sd = Some T
           /\ num_green_tokens sd = Some green_token_count
           /\ z_statistic (gamma c) green_token_count T = Ok z
           /\ z_score sd = Some z
           /\ p_value sd = Some (Lcg.norm_sf z)
           /\ prediction out = Some (thr <? z)%float
           /\ confidence out
              = (if (thr <? z)%float then Some (1 - Lcg.norm_sf z)%float
                 else None)
           /\ (forall t, Some 0%float = Some t -> (t =? 0)%float = false ->
               thr = t)
           /\ (forall t, Some 0%float = Some t -> (t =? 0)%float = true ->
               z_threshold det = Some thr)
           /\ (Some 0%float = None -> z_threshold det = Some thr)
           /\ (forall device tok norms,
                 detector_init c device tok (Some default_z_threshold) norms
                 = Ok det ->
                 (Some 0%float = None
                  \/ exists t, Some 0%float = Some t
                               /\ (t =? 0)%float = true) ->
                 thr = 4%float)).
Proof.
  intros c det tokens.
  destruct (Lcg.detect c det None (Some tokens) true true (Some 0%float)
              default_flags Lcg.fresh)
    as [[[[[out gr] ds] mk] s']|e] eqn:E; [|vm_compute in E; discriminate].
  exists out, gr, ds, mk, s'. split; [reflexivity|].
  split; [reflexivity|].
  split; [vm_compute in E; by inversion E|].
  split; [vm_compute in E; inversion E; by eexists|].
  split; [reflexivity|].
  apply (detect_hypothesis_test LcgRng.G LcgRng.manual_seed LcgRng.randperm
           Lcg.norm_sf Lcg.depth_cross_entropy c det None (Some tokens)
           (Some 0%float) default_flags Lcg.fresh out gr ds mk s').
  - reflexivity.
  - reflexivity.
  - reflexivity.
  - exact E.
Defined.

(** A run over fourteen tokens, position by position. *)
Lemma mark_bit_is_preference_bit_on_hit_witness :
  let c := mk_config 10 0.5 false previous1 depth_d (Some 3) in
  let tokens := [0; 1; 2; 3; 4; 5; 6; 7; 8; 9; 0; 2; 4; 6] in
  exists sd gr ds mk s',
    Lcg.score_sequence c (Lcg.detector 1) tokens default_flags Lcg.fresh
      = Ok (sd, gr, ds, mk, s')
    /\ len mk = len tokens - 1
    /\ forall t, 1 <= t < len tokens ->
         exists curr preferance markable,
           py_index tokens t = Ok curr
           /\ score_preferance c tokens t = Ok preferance
           /\ Lcg.markable_at c tokens t = Ok markable
           /\ mk !! Z.to_nat (t - 1)
              = Some (Bool.eqb (tensor_contains curr markable) preferance).
Proof.
  intros c tokens.
  destruct (Lcg.score_sequence c (Lcg.detector 1) tokens default_flags
              Lcg.fresh)
    as [[[[[sd gr] ds] mk] s']|e] eqn:E; [|vm_compute in E; discriminate].
  exists sd, gr, ds, mk, s'. split; [reflexivity|].
  exact (mark_bit_is_preference_bit_on_hit LcgRng.G LcgRng.manual_seed
           LcgRng.randperm Lcg.norm_sf Lcg.depth_cross_entropy c
           (Lcg.detector 1) tokens default_flags Lcg.fresh sd gr ds mk s' E).
Defined.

(** The reading under which the mark string is the hit indicator: the mark
    bit at a scored position is ['1'] if and only if the observed token is
    in the step's markable set. *)
Definition mark_bit_records_membership (c : config) (mpl : Z)
  (tokens : list Z) (mk : list bool) : Prop :=
  forall t curr markable,
    mpl <= t < len tokens ->
    py_index tokens t = Ok curr ->
    Lcg.markable_at c tokens t = Ok markable ->
    (mk !! Z.to_nat (t - mpl) = Some true
     <-> tensor_contains curr markable = true).

(** Two ids and [gamma = 0.25]: no green id, both ids red.  After token 1 the
    preference bit is ['0'], so the markable set is the red list; the
    observed token 0 is in it, and the mark recorded is ['0']. *)
Lemma mark_bit_records_membership_counterexample :
  let c := mk_config 2 0.25 false previous1 depth_d (Some 3) in
  exists sd gr ds,
    value LcgRng.G
      (Lcg.score_sequence c (Lcg.detector 1) [1; 0] default_flags Lcg.fresh)
      = Ok (sd, gr, ds, [false])
    /\ score_preferance c [1; 0] 1 = Ok false
    /\ (exists markable, Lcg.markable_at c [1; 0] 1 = Ok markable
                         /\ tensor_contains 0 markable = true)
    /\ ~ mark_bit_records_membership c 1 [1; 0] [false].
Proof.
  intros c. do 3 eexists. split; [vm_compute; reflexivity|].
  split; [reflexivity|].
  split; [eexists; split; vm_compute; reflexivity|].
  intros H.
  assert (1 <= 1 < len [1; 0]) as Ht by (unfold len; simpl; lia).
  assert (Lcg.markable_at c [1; 0] 1 = Ok [0; 1]) as Hm
    by (vm_compute; reflexivity).
  destruct (H 1 0 [0; 1] Ht eq_refl Hm) as [_ Hback].
  specialize (Hback eq_refl). simpl in Hback. discriminate.
Qed.

(** Two sequences in a batch, over four ids.  Row 0 ends with token 0, whose
    bit of the user id is ['1']; the last row ends with token 1, whose bit is
    ['0'].  Alone, row 0 has its green ids 0 and 3 biased; in the batch, its
    red ids 1 and 2. *)
Lemma call_biases_the_other_list_in_a_batch_witness :
  let c := mk_config 4 0.5 false previous1 normal None in
  let zeros := [0; 0; 0; 0]%float in
  value LcgRng.G (Lcg.call c [[0]] [zeros] Lcg.fresh)
    = Ok [[2; 0; 0; 2]]%float
  /\ value LcgRng.G (Lcg.call c [[0]; [1]] [zeros; zeros] Lcg.fresh)
     = Ok [[0; 2; 2; 0]; [0; 2; 0; 2]]%float
  /\ exists green red gd rd srow' bias,
       greenlist_of LcgRng.G LcgRng.manual_seed LcgRng.randperm c [0]
         = Ok (green, red, gd, rd)
       /\ [[0; 2; 2; 0]; [0; 2; 0; 2]]%float !! 0%nat = Some srow'
       /\ greenlist_bias_at Lcg.float_pow c (0 + 1) = Ok bias
       /\ forall j x, zeros !! j = Some x ->
            (Z.of_nat j ∈ green -> srow' !! j = Some x)
            /\ (Z.of_nat j ∈ red -> srow' !! j = Some (x + bias)%float).
Proof.
  intros c zeros. split; [vm_compute; reflexivity|].
  split; [vm_compute; reflexivity|].
  destruct (Lcg.call c [[0]; [1]] [zeros; zeros] Lcg.fresh)
    as [[scores' s']|e] eqn:E; [|vm_compute in E; discriminate].
  assert (scores' = [[0; 2; 2; 0]; [0; 2; 0; 2]]%float) as ->
    by (vm_compute in E; by inversion E).
  apply (call_biases_the_other_list_in_a_batch LcgRng.G LcgRng.manual_seed
           LcgRng.randperm LcgRng.new_generator lcg_randperm_perm float
           PrimFloat.add Lcg.float_pow c [[0]; [1]] [zeros; zeros]
           Lcg.fresh _ s' 0%nat [0] zeros true).
  - reflexivity.
  - exact E.
  - reflexivity.
  - reflexivity.
  - reflexivity.
  - reflexivity.
Defined.

(** In depth mode the chunks of the last row are applied to every row: two
    different histories, one pattern of biases. *)
Example call_depth_d_applies_last_row_chunks :
  value LcgRng.G
    (Lcg.call (mk_config 8 0.5 false previous1 depth_d (Some 3)) [[0]; [1]]
       [[0; 0; 0; 0; 0; 0; 0; 0]; [0; 0; 0; 0; 0; 0; 0; 0]]%float Lcg.fresh)
  = Ok [[0; 0.25; 0; 0; 1; 2; 0.25; 0];
        [0; 0.25; 0; 0; 1; 2; 0.25; 0]]%float.
Proof. vm_compute. reflexivity. Qed.

(** ** The further properties, on concrete runs *)

(** A vocabulary of 10 ids in combination mode, from a used generator. *)
Lemma returned_lists_split_vocabulary_witness :
  let c := mk_config 10 0.5 false combination normal None in
  exists green red gd rd s',
    Lcg.get_greenlist_ids c [8; 3] Lcg.used = Ok (green, red, gd, rd, s')
    /\ green ++ red ≡ₚ Z.of_nat <$> seq 0 (Z.to_nat (vocab_size c))
    /\ NoDup (green ++ red)
    /\ len green + len red = vocab_size c
    /\ (exists x k, int_mul_float (vocab_size c) (gamma c) = Ok x
          /\ py_int x = Ok k
          /\ len green = slice_bound (vocab_size c) k)
    /\ forall t,
         if bool_decide (0 <= t < vocab_size c)
         then tensor_contains t green = negb (tensor_contains t red)
         else tensor_contains t green = false /\ tensor_contains t red = false.
Proof.
  intros c.
  destruct (Lcg.get_greenlist_ids c [8; 3] Lcg.used)
    as [[[[[green red] gd] rd] s']|e] eqn:E; [|vm_compute in E; discriminate].
  exists green, red, gd, rd, s'. split; [reflexivity|].
  exact (returned_lists_split_vocabulary LcgRng.G LcgRng.manual_seed
           LcgRng.randperm lcg_randperm_perm c [8; 3] Lcg.used
           green red gd rd s' E).
Defined.

(** Ten ids, gamma = 0.5, depth 3, after token 3: five green ids, five red,
    every precondition in place. *)
Lemma greenlist_ids_returns_when_red_is_not_shorter_witness :
  let c := mk_config 10 0.5 false previous1 depth_d (Some 3) in
  exists green red gd rd s',
    Lcg.get_greenlist_ids c [3] Lcg.fresh = Ok (green, red, gd, rd, s').
Proof.
  intros c.
  apply (greenlist_ids_returns_when_red_is_not_shorter LcgRng.G
           LcgRng.manual_seed LcgRng.randperm lcg_randperm_perm c [3]
           Lcg.fresh LcgRng.new_generator 3 5%float 5).
  - reflexivity.
  - reflexivity.
  - reflexivity.
  - vm_compute. split; discriminate.
  - discriminate.
  - vm_compute. split; discriminate.
  - vm_compute. reflexivity.
  - vm_compute. reflexivity.
  - lia.
  - vm_compute. discriminate.
  - intros _. exists 3. split; [reflexivity|discriminate].
Defined.

(** The same derivation: three green chunks and three red chunks, each
    family a rearrangement of its list. *)
Lemma depth_chunks_cover_their_list_witness :
  let c := mk_config 10 0.5 false previous1 depth_d (Some 3) in
  exists green red gd rd s',
    Lcg.get_greenlist_ids c [3] Lcg.fresh = Ok (green, red, gd, rd, s')
    /\ len gd = 3 /\ len rd = 3
    /\ concat gd ≡ₚ green /\ NoDup (concat gd)
    /\ (len red = len green \/ len red = len green + 1 ->
        concat rd ≡ₚ red /\ NoDup (concat rd)).
Proof.
  intros c.
  destruct (Lcg.get_greenlist_ids c [3] Lcg.fresh)
    as [[[[[green red] gd] rd] s']|e] eqn:E; [|vm_compute in E; discriminate].
  exists green, red, gd, rd, s'. split; [reflexivity|].
  apply (depth_chunks_cover_their_list LcgRng.G LcgRng.manual_seed
           LcgRng.randperm lcg_randperm_perm c 5%float 5 3 [3] Lcg.fresh
           green red gd rd s').
  - reflexivity.
  - reflexivity.
  - lia.
  - vm_compute. reflexivity.
  - vm_compute. reflexivity.
  - vm_compute. split; discriminate.
  - exact E.
Defined.

(** Hash key 6 after token 5, and hash key 10 after token 3: the seed is 30
    both times. *)
Lemma partition_depends_on_seed_product_witness :
  let c1 := {| vocab := seqZ 0 10; gamma := 0.5; decrease_delta := false;
               delta := 2; wm_mode := previous1; seeding_scheme := simple_1;
               hash_key := 6; userid := default_userid;
               args := {| gen_mode := normal; depth := None |} |} in
  let c2 := {| vocab := seqZ 0 10; gamma := 0.5; decrease_delta := true;
               delta := 1; wm_mode := combination; seeding_scheme := simple_1;
               hash_key := 10; userid := [false; true];
               args := {| gen_mode := depth_d; depth := Some 2 |} |} in
  exists g1 r1 gd1 rd1 t1 g2 r2 gd2 rd2 t2,
    Lcg.get_greenlist_ids c1 [7; 5] Lcg.fresh = Ok (g1, r1, gd1, rd1, t1)
    /\ Lcg.get_greenlist_ids c2 [3] Lcg.used = Ok (g2, r2, gd2, rd2, t2)
    /\ g1 = g2 /\ r1 = r2.
Proof.
  intros c1 c2.
  destruct (Lcg.get_greenlist_ids c1 [7; 5] Lcg.fresh)
    as [[[[[g1 r1] gd1] rd1] t1]|e] eqn:E1; [|vm_compute in E1; discriminate].
  destruct (Lcg.get_greenlist_ids c2 [3] Lcg.used)
    as [[[[[g2 r2] gd2] rd2] t2]|e] eqn:E2; [|vm_compute in E2; discriminate].
  exists g1, r1, gd1, rd1, t1, g2, r2, gd2, rd2, t2.
  split; [reflexivity|]. split; [reflexivity|].
  apply (partition_depends_on_seed_product LcgRng.G LcgRng.manual_seed
           LcgRng.randperm c1 c2 [7; 5] [3] 5 3 Lcg.fresh Lcg.used
           g1 r1 gd1 rd1 t1 g2 r2 gd2 rd2 t2).
  - reflexivity.
  - reflexivity.
  - reflexivity.
  - reflexivity.
  - reflexivity.
  - exact E1.
  - exact E2.
Defined.

(** Normal mode on a batch of two rows and scores of three rows: the third
    row is past the batch. *)
Lemma normal_mode_bias_locality_witness :
  let c := mk_config 8 0.5 false previous1 normal None in
  let input_ids := [[0]; [1]] in
  let scores := [[0; 0; 0; 0; 0; 0; 0; 0]; [0; 0; 0; 0; 0; 0; 0; 0];
                 [0; 0; 0; 0; 0; 0; 0; 0]]%float in
  exists scores' s',
    Lcg.call c input_ids scores Lcg.fresh = Ok (scores', s')
    /\ exists preferance bias,
         call_preferance c input_ids = Ok preferance
         /\ greenlist_bias_at Lcg.float_pow c (idx_t LcgRng.G Lcg.fresh + 1)
            = Ok bias
         /\ length scores' = length scores
         /\ (length input_ids <= length scores)%nat
         /\ (forall b row srow,
               input_ids !! b = Some row -> scores !! b = Some srow ->
               exists green red gd rd srow',
                 greenlist_of LcgRng.G LcgRng.manual_seed LcgRng.randperm c row
                 = Ok (green, red, gd, rd)
                 /\ scores' !! b = Some srow'
                 /\ length srow' = length srow
                 /\ forall j, srow' !! j
                      = (fun x => if bool_decide
                                       (Z.of_nat j
                                        ∈ (if preferance then green else red))
                                  then PrimFloat.add x bias else x)
                          <$> srow !! j)
         /\ forall b, (length input_ids <= b)%nat ->
                      scores' !! b = scores !! b.
Proof.
  intros c input_ids scores.
  destruct (Lcg.call c input_ids scores Lcg.fresh)
    as [[scores' s']|e] eqn:E; [|vm_compute in E; discriminate].
  exists scores', s'. split; [reflexivity|].
  apply (normal_mode_bias_locality LcgRng.G LcgRng.manual_seed
           LcgRng.randperm LcgRng.new_generator lcg_randperm_perm float
           PrimFloat.add Lcg.float_pow c input_ids scores Lcg.fresh
           scores' s').
  - reflexivity.
  - exact E.
Defined.

(** The same call, from a used generator at step 17. *)
Lemma call_advances_step_counter_witness :
  let c := mk_config 8 0.5 false previous1 normal None in
  let scores := [[0; 0; 0; 0; 0; 0; 0; 0]; [0; 0; 0; 0; 0; 0; 0; 0]]%float in
  exists scores' s',
    Lcg.call c [[0]; [1]] scores Lcg.used = Ok (scores', s')
    /\ idx_t LcgRng.G s' = idx_t LcgRng.G Lcg.used + 1
    /\ is_Some (rng LcgRng.G s').
Proof.
  intros c scores.
  destruct (Lcg.call c [[0]; [1]] scores Lcg.used)
    as [[scores' s']|e] eqn:E; [|vm_compute in E; discriminate].
  exists scores', s'. split; [reflexivity|].
  exact (call_advances_step_counter LcgRng.G LcgRng.manual_seed
           LcgRng.randperm LcgRng.new_generator float PrimFloat.add
           Lcg.float_pow c [[0]; [1]] scores Lcg.used scores' s' E).
Defined.

(** With the decay on, a delta of 7 and the default of 2 give the same
    call. *)
Lemma decrease_delta_overrides_delta_witness :
  let c := mk_config 8 0.5 true previous1 normal None in
  let scores := [[0; 0; 0; 0; 0; 0; 0; 0]; [0; 0; 0; 0; 0; 0; 0; 0]]%float in
  Lcg.call (with_delta c 7) [[0]; [1]] scores Lcg.fresh
  = Lcg.call c [[0]; [1]] scores Lcg.fresh.
Proof.
  intros c scores.
  apply (decrease_delta_overrides_delta LcgRng.G LcgRng.manual_seed
           LcgRng.randperm LcgRng.new_generator float PrimFloat.add
           Lcg.float_pow c 7 [[0]; [1]] scores Lcg.fresh).
  - reflexivity.
  - discriminate.
Defined.

(** Depth mode with the decay switched on. *)
Lemma depth_mode_ignores_decrease_delta_witness :
  let c := mk_config 8 0.5 false previous1 depth_d (Some 3) in
  let scores := [[0; 0; 0; 0; 0; 0; 0; 0]; [0; 0; 0; 0; 0; 0; 0; 0]]%float in
  Lcg.call (with_decrease_delta c true) [[0]; [1]] scores Lcg.fresh
  = Lcg.call c [[0]; [1]] scores Lcg.fresh.
Proof.
  intros c scores.
  apply (depth_mode_ignores_decrease_delta LcgRng.G LcgRng.manual_seed
           LcgRng.randperm LcgRng.new_generator float PrimFloat.add
           Lcg.float_pow c true [[0]; [1]] scores Lcg.fresh).
  reflexivity.
Defined.

(** Normal mode with the depth taken away. *)
Lemma generator_reads_depth_in_depth_mode_only_witness :
  let c := mk_config 8 0.5 false previous1 normal (Some 3) in
  let scores := [[0; 0; 0; 0; 0; 0; 0; 0]; [0; 0; 0; 0; 0; 0; 0; 0]]%float in
  Lcg.call (with_depth c None) [[0]; [1]] scores Lcg.fresh
  = Lcg.call c [[0]; [1]] scores Lcg.fresh.
Proof.
  intros c scores.
  apply (generator_reads_depth_in_depth_mode_only LcgRng.G LcgRng.manual_seed
           LcgRng.randperm LcgRng.new_generator float PrimFloat.add
           Lcg.float_pow c None [[0]; [1]] scores Lcg.fresh).
  discriminate.
Defined.

(** Two batches that share their last row only. *)
Lemma depth_mode_bias_depends_on_last_row_witness :
  let c := mk_config 8 0.5 false previous1 depth_d (Some 3) in
  let scores := [[0; 0; 0; 0; 0; 0; 0; 0]; [0; 0; 0; 0; 0; 0; 0; 0]]%float in
  exists r1 t1 r2 t2,
    Lcg.call c [[0]; [1]] scores Lcg.fresh = Ok (r1, t1)
    /\ Lcg.call c [[5]; [1]] scores Lcg.used = Ok (r2, t2)
    /\ r1 = r2.
Proof.
  intros c scores.
  destruct (Lcg.call c [[0]; [1]] scores Lcg.fresh)
    as [[r1 t1]|e] eqn:E1; [|vm_compute in E1; discriminate].
  destruct (Lcg.call c [[5]; [1]] scores Lcg.used)
    as [[r2 t2]|e] eqn:E2; [|vm_compute in E2; discriminate].
  exists r1, t1, r2, t2. split; [reflexivity|]. split; [reflexivity|].
  apply (depth_mode_bias_depends_on_last_row LcgRng.G LcgRng.manual_seed
           LcgRng.randperm LcgRng.new_generator float PrimFloat.add
           Lcg.float_pow c [[0]; [1]] [[5]; [1]] scores Lcg.fresh Lcg.used
           r1 t1 r2 t2).
  - reflexivity.
  - reflexivity.
  - reflexivity.
  - exact E1.
  - exact E2.
Defined.

(** Normal mode with a depth: the scan gets through and [detect] raises at
    the [return] of [_score_sequence]. *)
Lemma detect_never_returns_outside_depth_d_witness :
  let c := mk_config 10 0.5 false previous1 normal (Some 3) in
  value LcgRng.G
    (Lcg.detect c (Lcg.detector 1) None (Some [4; 5; 3; 7]) true true None
       default_flags Lcg.fresh)
  = Raise UnboundLocalError
  /\ exists e,
       Lcg.detect c (Lcg.detector 1) None (Some [4; 5; 3; 7]) true true None
         default_flags Lcg.fresh = Raise e.
Proof.
  intros c. split; [vm_compute; reflexivity|].
  apply (detect_never_returns_outside_depth_d LcgRng.G LcgRng.manual_seed
           LcgRng.randperm Lcg.norm_sf Lcg.depth_cross_entropy c
           (Lcg.detector 1) None (Some [4; 5; 3; 7]) true true None
           default_flags Lcg.fresh).
  discriminate.
Defined.

(** A normalizer that wants a string, as the ones of the repository do. *)
Lemma detect_normalizes_absent_text_witness :
  let normalizer := fun text : option string =>
    match text with
    | Some t => Ok (Some t)
    | None => Raise TypeError
    end in
  let det := {| tokenizer := Some Lcg.tok;
                z_threshold := Some default_z_threshold;
                normalizers := [normalizer]; min_prefix_len := 1 |} in
  Lcg.detect (mk_config 10 0.5 false previous1 depth_d (Some 3)) det None
    (Some [4; 5; 3; 7]) true true None default_flags Lcg.fresh
  = Raise TypeError.
Proof.
  intros normalizer det.
  apply (detect_normalizes_absent_text LcgRng.G LcgRng.manual_seed
           LcgRng.randperm Lcg.norm_sf Lcg.depth_cross_entropy _ det
           normalizer []).
  - reflexivity.
  - reflexivity.
Defined.

(** The BOS token of the example tokenizer is 1. *)
Lemma detect_strips_one_leading_bos_witness :
  let c := mk_config 10 0.5 false previous1 depth_d (Some 3) in
  Lcg.detect c (Lcg.detector 1) None (Some (1 :: [5; 3; 7; 2])) true true None
    default_flags Lcg.fresh
  = Lcg.detect c (Lcg.detector 1) None (Some [5; 3; 7; 2]) true true None
      default_flags Lcg.fresh.
Proof.
  intros c.
  apply (detect_strips_one_leading_bos LcgRng.G LcgRng.manual_seed
           LcgRng.randperm Lcg.norm_sf Lcg.depth_cross_entropy c
           (Lcg.detector 1) Lcg.tok 1 [5; 3; 7; 2] 5).
  - reflexivity.
  - reflexivity.
  - reflexivity.
  - discriminate.
Defined.

(** A BOS token and one more token: nothing is left to score. *)
Lemma detect_raises_on_too_short_ids_witness :
  Lcg.detect (mk_config 10 0.5 false previous1 depth_d (Some 3))
    (Lcg.detector 1) None (Some [1; 5]) true true None default_flags Lcg.fresh
  = Raise ValueError.
Proof.
  apply (detect_raises_on_too_short_ids LcgRng.G LcgRng.manual_seed
           LcgRng.randperm Lcg.norm_sf Lcg.depth_cross_entropy _
           (Lcg.detector 1) Lcg.tok [1; 5] true None).
  - reflexivity.
  - reflexivity.
  - reflexivity.
  - vm_compute. discriminate.
Defined.

(** Fourteen tokens, thirteen scored. *)
Lemma score_sequence_counts_hits_witness :
  let c := mk_config 10 0.5 false previous1 depth_d (Some 3) in
  let det := Lcg.detector 1 in
  let tokens := [0; 1; 2; 3; 4; 5; 6; 7; 8; 9; 0; 2; 4; 6] in
  let flags := {| return_num_tokens_scored := true;
                  return_num_green_tokens := true;
                  return_green_fraction := true;
                  return_green_token_mask := true;
                  return_z_score := true;
                  return_p_value := true |} in
  exists sd gr ds mk s',
    Lcg.score_sequence c det tokens flags Lcg.fresh = Ok (sd, gr, ds, mk, s')
    /\ exists hits,
         len hits = len tokens - min_prefix_len det
         /\ (forall t, min_prefix_len det <= t < len tokens ->
               exists curr markable,
                 py_index tokens t = Ok curr
                 /\ Lcg.markable_at c tokens t = Ok markable
                 /\ hits !! Z.to_nat (t - min_prefix_len det)
                    = Some (tensor_contains curr markable))
         /\ 0 <= count_true hits <= len hits
         /\ num_tokens_scored sd
            = (if return_num_tokens_scored flags then Some (len hits) else None)
         /\ num_green_tokens sd
            = (if return_num_green_tokens flags
               then Some (count_true hits) else None)
         /\ green_token_mask sd
            = (if return_green_token_mask flags then Some hits else None)
         /\ int_truediv (count_true hits) (len hits) = Ok gr
         /\ green_fraction sd
            = (if return_green_fraction flags then Some gr else None).
Proof.
  intros c det tokens flags.
  destruct (Lcg.score_sequence c det tokens flags Lcg.fresh)
    as [[[[[sd gr] ds] mk] s']|e] eqn:E; [|vm_compute in E; discriminate].
  exists sd, gr, ds, mk, s'. split; [reflexivity|].
  exact (score_sequence_counts_hits LcgRng.G LcgRng.manual_seed
           LcgRng.randperm Lcg.norm_sf Lcg.depth_cross_entropy c det tokens
           flags Lcg.fresh sd gr ds mk s' E).
Defined.

(** Combination mode: the detector starts at position 2, where the replay
    reads the tokens at positions 1 and 0. *)
Lemma detector_init_prefix_covers_replay_witness :
  let c := mk_config 10 0.5 false combination depth_d (Some 3) in
  let tokens := [5; 3; 7; 2] in
  exists det,
    detector_init c true (Some Lcg.tok) (Some default_z_threshold) [] = Ok det
    /\ (true = true /\ is_Some (Some Lcg.tok) /\ tokenizer det = Some Lcg.tok
        /\ z_threshold det = Some default_z_threshold
        /\ ((wm_mode c = previous1 /\ seeding_scheme c = simple_1
             /\ min_prefix_len det = 1)
            \/ (wm_mode c = combination /\ min_prefix_len det = 2))
        /\ exists k b,
             0 <= k < len (userid c)
             /\ userid c !! Z.to_nat k = Some b
             /\ score_preferance c tokens 2 = Ok b
             /\ match wm_mode c with
                | previous1 =>
                    exists t1, tokens !! Z.to_nat (2 - 1) = Some t1
                               /\ k = t1 mod len (userid c)
                | combination =>
                    exists t1 t2, tokens !! Z.to_nat (2 - 1) = Some t1
                                  /\ tokens !! Z.to_nat (2 - 2) = Some t2
                                  /\ k = wrap64 (t1 * t2) mod len (userid c)
                | wm_mode_other => False
                end).
Proof.
  intros c tokens.
  exists {| tokenizer := Some Lcg.tok; z_threshold := Some default_z_threshold;
            normalizers := []; min_prefix_len := 2 |}.
  split; [reflexivity|].
  apply (detector_init_prefix_covers_replay c true (Some Lcg.tok)
           (Some default_z_threshold) [] _ tokens 2).
  - reflexivity.
  - discriminate.
  - vm_compute. split; [discriminate|reflexivity].
Defined.

(** A threshold of zero on a run whose z-score is positive. *)
Lemma detect_zero_threshold_is_the_default_witness :
  let c := mk_config 10 0.5 false previous1 depth_d (Some 3) in
  let tokens := [0; 1; 2; 3; 4; 5; 6; 7; 8; 9; 0; 2; 4; 6] in
  Lcg.detect c (Lcg.detector 1) None (Some tokens) true true (Some 0%float)
    default_flags Lcg.fresh
  = Lcg.detect c (Lcg.detector 1) None (Some tokens) true true None
      default_flags Lcg.fresh.
Proof.
  intros c tokens.
  apply (detect_zero_threshold_is_the_default LcgRng.G LcgRng.manual_seed
           LcgRng.randperm Lcg.norm_sf Lcg.depth_cross_entropy c
           (Lcg.detector 1) None (Some tokens) true true 0%float default_flags
           Lcg.fresh).
  reflexivity.
Defined.

(** The default flags with the z-score switched off. *)
Lemma detect_prediction_needs_z_score_witness :
  let c := mk_config 10 0.5 false previous1 depth_d (Some 3) in
  let tokens := [0; 1; 2; 3; 4; 5; 6; 7; 8; 9; 0; 2; 4; 6] in
  let kw := {| return_num_tokens_scored := true;
               return_num_green_tokens := true;
               return_green_fraction := true;
               return_green_token_mask := false;
               return_z_score := false;
               return_p_value := true |} in
  value LcgRng.G
    (Lcg.detect c (Lcg.detector 1) None (Some tokens) true true None kw
       Lcg.fresh)
  = Raise KeyError
  /\ exists e,
       Lcg.detect c (Lcg.detector 1) None (Some tokens) true true None kw
         Lcg.fresh = Raise e.
Proof.
  intros c tokens kw. split; [vm_compute; reflexivity|].
  apply (detect_prediction_needs_z_score LcgRng.G LcgRng.manual_seed
           LcgRng.randperm Lcg.norm_sf Lcg.depth_cross_entropy c
           (Lcg.detector 1) None (Some tokens) true None kw Lcg.fresh).
  reflexivity.
Defined.

(** Two chunks over a batch of two rows, in scores of three rows. *)
Lemma bias_depth_d_logits_cells_witness :
  let scores := [[0; 0; 0; 0]; [1; 1; 1; 1]; [2; 2; 2; 2]]%float in
  let greenlist_token_ids := [[0; 2; 3]; [0; 2; 3]] in
  let d_masks := [[0]; [2; 3]] in
  exists scores',
    _bias_depth_d_logits float PrimFloat.add scores greenlist_token_ids
      d_masks 2 = Ok scores'
    /\ length scores' = length scores
    /\ forall b row, scores !! b = Some row ->
         exists row', scores' !! b = Some row'
           /\ length row' = length row
           /\ (len greenlist_token_ids <= Z.of_nat b -> row' = row)
           /\ (Z.of_nat b < len greenlist_token_ids ->
               forall j x, row !! j = Some x ->
                 (forall k ids, d_masks !! k = Some ids -> Z.of_nat j ∈ ids ->
                    row' !! j
                    = Some (PrimFloat.add x (compounded_delta 2 0 k)))
                 /\ ((forall ids, ids ∈ d_masks -> Z.of_nat j ∉ ids) ->
                     row' !! j = Some x)).
Proof.
  intros scores greenlist_token_ids d_masks.
  destruct (_bias_depth_d_logits float PrimFloat.add scores
              greenlist_token_ids d_masks 2)
    as [scores'|e] eqn:E; [|vm_compute in E; discriminate].
  exists scores'. split; [reflexivity|].
  apply (bias_depth_d_logits_cells float PrimFloat.add scores scores'
           greenlist_token_ids d_masks 2).
  - intros ids x Hids Hx.
    assert (Forall (fun i => 0 <= i) (concat d_masks)) as Hall
      by (repeat constructor; lia).
    rewrite Forall_forall in Hall. apply Hall.
    apply elem_of_concat. eauto.
  - apply (bool_decide_unpack _). vm_compute. exact I.
  - exact E.
Defined.

(** Depth mode on a batch of two rows: both rows get the chunks of the
    last one. *)
Lemma depth_mode_bias_cells_witness :
  let c := mk_config 8 0.5 false previous1 depth_d (Some 3) in
  let input_ids := [[0]; [1]] in
  let scores := [[0; 0; 0; 0; 0; 0; 0; 0]; [0; 0; 0; 0; 0; 0; 0; 0]]%float in
  exists scores' s',
    Lcg.call c input_ids scores Lcg.fresh = Ok (scores', s')
    /\ exists preferance last_row green red gd rd,
         call_preferance c input_ids = Ok preferance
         /\ last input_ids = Some last_row
         /\ greenlist_of LcgRng.G LcgRng.manual_seed LcgRng.randperm c last_row
            = Ok (green, red, gd, rd)
         /\ length scores' = length scores
         /\ forall b row, scores !! b = Some row ->
              exists row', scores' !! b = Some row'
                /\ length row' = length row
                /\ (len input_ids <= Z.of_nat b -> row' = row)
                /\ (Z.of_nat b < len input_ids ->
                    forall j v, row !! j = Some v ->
                      (forall k ids,
                         (if preferance then gd else rd) !! k = Some ids ->
                         Z.of_nat j ∈ ids ->
                         row' !! j
                         = Some (PrimFloat.add v
                                   (compounded_delta (delta c) 0 k)))
                      /\ ((forall ids,
                             ids ∈ (if preferance then gd else rd) ->
                             Z.of_nat j ∉ ids) ->
                          row' !! j = Some v)).
Proof.
  intros c input_ids scores.
  destruct (Lcg.call c input_ids scores Lcg.fresh)
    as [[scores' s']|e] eqn:E; [|vm_compute in E; discriminate].
  exists scores', s'. split; [reflexivity|].
  apply (depth_mode_bias_cells LcgRng.G LcgRng.manual_seed LcgRng.randperm
           LcgRng.new_generator lcg_randperm_perm float PrimFloat.add
           Lcg.float_pow c 4%float 4 input_ids scores Lcg.fresh scores' s').
  - reflexivity.
  - vm_compute. reflexivity.
  - vm_compute. reflexivity.
  - lia.
  - exact E.
Defined.

(** Combination mode with a seeding scheme the code does not know. *)
Lemma unknown_seeding_scheme_raises_at_first_derivation_witness :
  let c := {| vocab := seqZ 0 10; gamma := 0.5; decrease_delta := false;
              delta := 2; wm_mode := combination;
              seeding_scheme := seeding_scheme_other;
              hash_key := 15485863; userid := default_userid;
              args := {| gen_mode := depth_d; depth := Some 3 |} |} in
  let det := {| tokenizer := Some Lcg.tok;
                z_threshold := Some default_z_threshold;
                normalizers := []; min_prefix_len := 2 |} in
  Lcg.call c [[5; 3]] [[0; 0; 0; 0; 0; 0; 0; 0; 0; 0]]%float Lcg.fresh
  = Raise NotImplementedError
  /\ detector_init c true (Some Lcg.tok) (Some default_z_threshold) [] = Ok det
  /\ wm_mode c = combination /\ min_prefix_len det = 2
  /\ Lcg.score_sequence c det [5; 3; 7; 2] default_flags Lcg.fresh
     = Raise NotImplementedError.
Proof.
  intros c det.
  destruct (unknown_seeding_scheme_raises_at_first_derivation LcgRng.G
              LcgRng.manual_seed LcgRng.randperm LcgRng.new_generator float
              PrimFloat.add Lcg.float_pow Lcg.norm_sf Lcg.depth_cross_entropy
              c eq_refl) as [Hcall Hscore].
  split.
  - apply (Hcall [[5; 3]] [[0; 0; 0; 0; 0; 0; 0; 0; 0; 0]]%float Lcg.fresh
             false).
    reflexivity.
  - split; [reflexivity|].
    apply (Hscore true (Some Lcg.tok) (Some default_z_threshold) [] det
             [5; 3; 7; 2] default_flags Lcg.fresh [0; 0; 0]).
    + reflexivity.
    + discriminate.
    + reflexivity.
    + vm_compute. reflexivity.
Defined.

(** A processor that has no generator yet, and one whose generator was
    left behind by an earlier call, both at step 17. *)
Lemma call_result_ignores_generator_state_witness :
  let c := mk_config 8 0.5 true previous1 normal None in
  let scores := [[0; 0; 0; 0; 0; 0; 0; 0]; [0; 0; 0; 0; 0; 0; 0; 0]]%float in
  value LcgRng.G
    (Lcg.call c [[0]; [1]] scores {| rng := None; idx_t := 17 |})
  = value LcgRng.G (Lcg.call c [[0]; [1]] scores Lcg.used).
Proof.
  intros c scores.
  apply (call_result_ignores_generator_state LcgRng.G LcgRng.manual_seed
           LcgRng.randperm LcgRng.new_generator float PrimFloat.add
           Lcg.float_pow c [[0]; [1]] scores
           {| rng := None; idx_t := 17 |} Lcg.used).
  reflexivity.
Defined.

(** A fresh detector and a used one. *)
Lemma detect_result_ignores_generator_state_witness :
  let c := mk_config 10 0.5 false previous1 depth_d (Some 3) in
  let tokens := [0; 1; 2; 3; 4; 5; 6; 7; 8; 9; 0; 2; 4; 6] in
  value LcgRng.G
    (Lcg.detect c (Lcg.detector 1) None (Some tokens) true true None
       default_flags Lcg.fresh)
  = value LcgRng.G
      (Lcg.detect c (Lcg.detector 1) None (Some tokens) true true None
         default_flags Lcg.used).
Proof.
  intros c tokens.
  apply (detect_result_ignores_generator_state LcgRng.G LcgRng.manual_seed
           LcgRng.randperm Lcg.norm_sf Lcg.depth_cross_entropy c
           (Lcg.detector 1) None (Some tokens) true true None default_flags
           Lcg.fresh Lcg.used).
  - by eexists.
  - by eexists.
Defined.

(** Thirteen scored positions and three buckets. *)
Lemma depth_histogram_within_hit_count_witness :
  let c := mk_config 10 0.5 false previous1 depth_d (Some 3) in
  let det := Lcg.detector 1 in
  let tokens := [0; 1; 2; 3; 4; 5; 6; 7; 8; 9; 0; 2; 4; 6] in
  exists sd gr ds mk s',
    Lcg.score_sequence c det tokens default_flags Lcg.fresh
      = Ok (sd, gr, ds, mk, s')
    /\ exists d depth_hit green_token_count,
         depth (args c) = Some d
         /\ len depth_hit = d
         /\ int_truediv green_token_count (len tokens - min_prefix_len det)
            = Ok gr
         /\ Lcg.depth_cross_entropy depth_hit green_token_count gr = Ok ds
         /\ (return_num_green_tokens default_flags = true ->
             num_green_tokens sd = Some green_token_count)
         /\ 0 <= tensor_sum depth_hit <= green_token_count.
Proof.
  intros c det tokens.
  destruct (Lcg.score_sequence c det tokens default_flags Lcg.fresh)
    as [[[[[sd gr] ds] mk] s']|e] eqn:E; [|vm_compute in E; discriminate].
  exists sd, gr, ds, mk, s'. split; [reflexivity|].
  apply (depth_histogram_within_hit_count LcgRng.G LcgRng.manual_seed
           LcgRng.randperm lcg_randperm_perm Lcg.norm_sf
           Lcg.depth_cross_entropy c det 5%float 5 tokens default_flags
           Lcg.fresh sd gr ds mk s').
  - vm_compute. reflexivity.
  - vm_compute. reflexivity.
  - lia.
  - exact E.
Defined.

(** The [beam_delta] mode on a batch of two rows: the lists and the mask
    are computed, then the call fails. *)
Lemma call_never_returns_in_beam_delta_mode_witness :
  let c := mk_config 8 0.5 false previous1 beam_delta None in
  let scores := [[0; 0; 0; 0; 0; 0; 0; 0]; [0; 0; 0; 0; 0; 0; 0; 0]]%float in
  Lcg.call c [[0]; [1]] scores Lcg.fresh = Raise TypeError
  /\ exists e, Lcg.call c [[0]; [1]] scores Lcg.fresh = Raise e.
Proof.
  intros c scores. split; [vm_compute; reflexivity|].
  apply (call_never_returns_in_beam_delta_mode LcgRng.G LcgRng.manual_seed
           LcgRng.randperm LcgRng.new_generator float PrimFloat.add
           Lcg.float_pow c [[0]; [1]] scores Lcg.fresh).
  reflexivity.
Defined.
